(** * InterHand3DDataset: database builder and metric reporter

    A shallow embedding of
    [mmpose/datasets/datasets/hand/interhand3d_dataset.py].

    Conventions of the embedding.
    - Python exceptions are values of [exn]; a computation that may raise
      returns a [result].  Code that also touches files runs in the monad
      [io], which threads a [world] (the files and the log of file accesses).
    - In the data flow numpy floats are modelled by exact rationals ([Q],
      compared with [Qeq]); rounding is not modelled there, and a division
      by zero, which numpy answers with inf or nan, is outside that model.
      The properties stated on it are about errors raised, shapes, and
      values that floats compute exactly (flags 0 and 1, a finite number
      minus itself).  A float that may be NaN is an [npfloat].
    - For the properties about the values of the coordinate transforms,
      these are given a second time in module [Fp] on IEEE floats of
      [SpecFloat], with their rounding, infinities and NaN.
    - An [N, 3] array is a list of [vec3] rows; a [3, N] array is the list
      of its columns, so that transposing does not change the list.
    - Values whose Python type matters to the code (a plain list where an
      array is expected) are kept apart by the constructors of [pyarg]. *)

From Stdlib Require Import ZArith QArith Qabs Qround Qminmax Qpower Lqa.
From Stdlib Require Import List String Bool Lia SpecFloat.
Import ListNotations.

Open Scope string_scope.
Open Scope list_scope.
Open Scope Q_scope.

Set Implicit Arguments.

(** ** Python results *)

Module Py.

Inductive exn : Type :=
| AssertionError
| KeyError (key : string)
| IndexError
| UnboundLocalError (name : string)
| TypeError
| AxisError
| ValueError
| AttributeError (name : string)
| FileNotFoundError (path : string).

Inductive result (A : Type) : Type :=
| Ok (a : A)
| Raise (e : exn).

Arguments Ok {A} a.
Arguments Raise {A} e.

Definition bind {A B} (m : result A) (k : A -> result B) : result B :=
  match m with
  | Ok a => k a
  | Raise e => Raise e
  end.

(** [l[i]] for a non-negative index. *)
Definition getitem {A} (l : list A) (i : nat) : result A :=
  match nth_error l i with
  | Some a => Ok a
  | None => Raise IndexError
  end.

(** [d[k]] on a dict kept as an association list. *)
Fixpoint lookup {A} (d : list (string * A)) (k : string) : result A :=
  match d with
  | [] => Raise (KeyError k)
  | (k', v) :: d' => if String.eqb k k' then Ok v else lookup d' k
  end.

(** [d[k]] on a dict with integer keys. *)
Fixpoint lookupZ {A} (d : list (Z * A)) (k : Z) : result A :=
  match d with
  | [] => Raise (KeyError "")
  | (k', v) :: d' => if Z.eqb k k' then Ok v else lookupZ d' k
  end.

(** [d[k] = v]: a later binding of a key replaces the earlier one. *)
Fixpoint setitemZ {A} (d : list (Z * A)) (k : Z) (v : A) : list (Z * A) :=
  match d with
  | [] => [(k, v)]
  | (k', v') :: d' =>
      if Z.eqb k k' then (k, v) :: d' else (k', v') :: setitemZ d' k v
  end.

End Py.

Import Py.

Declare Scope py_scope.
Delimit Scope py_scope with py.
Notation "x <- m ;; k" := (Py.bind m (fun x => k))
  (at level 61, m at next level, right associativity) : py_scope.
Notation "' pat <- m ;; k" := (Py.bind m (fun x => match x with pat => k end))
  (at level 61, pat pattern, m at next level, right associativity) : py_scope.

(** ** Vectors and arrays *)

Record vec3 : Type := V3 { vx : Q; vy : Q; vz : Q }.

Definition vec2 : Type := (Q * Q)%type.

(** A 3x3 matrix, by rows. *)
Record mat33 : Type := M33 { row0 : vec3; row1 : vec3; row2 : vec3 }.

Definition vsub (a b : vec3) : vec3 :=
  V3 (vx a - vx b) (vy a - vy b) (vz a - vz b).

Definition vdot (a b : vec3) : Q :=
  vx a * vx b + vy a * vy b + vz a * vz b.

Definition mat_vec (R : mat33) (v : vec3) : vec3 :=
  V3 (vdot (row0 R) v) (vdot (row1 R) v) (vdot (row2 R) v).

Definition veq (a b : vec3) : Prop :=
  vx a == vx b /\ vy a == vy b /\ vz a == vz b.

Definition vzero : vec3 := V3 0 0 0.

(** What Python passes where the code expects an [N, 3] array. *)
Inductive pyarg : Type :=
| NdArrayN3 (rows : list vec3)
| PyList (items : list Q).

(** [a[:, j]] on an [N, 3] array: the column index is checked against the
    three columns whatever [N] is. *)
Definition column (a : list vec3) (j : nat) : result (list Q) :=
  match j with
  | 0%nat => Ok (map vx a)
  | 1%nat => Ok (map vy a)
  | 2%nat => Ok (map vz a)
  | _ => Raise IndexError
  end.

(** [a[i, j]] on an [N, 3] array. *)
Definition getitem2 (a : list vec3) (i j : nat) : result Q :=
  (r <- getitem a i ;;
   match j with
   | 0%nat => Ok (vx r)
   | 1%nat => Ok (vy r)
   | 2%nat => Ok (vz r)
   | _ => Raise IndexError
   end)%py.

(** The rows with [g] applied to each row and its new value. *)
Fixpoint zip_rows (g : vec3 -> Q -> vec3) (rows : list vec3) (vals : list Q)
  : list vec3 :=
  match rows, vals with
  | r :: rows', v :: vals' => g r v :: zip_rows g rows' vals'
  | _, _ => rows
  end.

(** [a[lo:hi, j] = vals] on an [N, 3] array: the column index is checked,
    and [vals] must have the length of the row slice. *)
Definition set_column (a : list vec3) (lo hi j : nat) (vals : list Q)
  : result (list vec3) :=
  let put g :=
    if Nat.eqb (List.length (firstn (hi - lo) (skipn lo a))) (List.length vals)
    then Ok (firstn lo a
               ++ zip_rows g (firstn (hi - lo) (skipn lo a)) vals
               ++ skipn (Nat.max lo hi) a)
    else Raise ValueError in
  match j with
  | 0%nat => put (fun r v => V3 v (vy r) (vz r))
  | 1%nat => put (fun r v => V3 (vx r) v (vz r))
  | 2%nat => put (fun r v => V3 (vx r) (vy r) v)
  | _ => Raise IndexError
  end.

(** An update of the slice [a[lo:hi]] in place, [g] applied to each of its
    elements; the slice is empty when [hi <= lo]. *)
Definition on_slice {A} (g : A -> A) (a : list A) (lo hi : nat) : list A :=
  firstn lo a ++ map g (firstn (hi - lo) (skipn lo a))
    ++ skipn (Nat.max lo hi) a.

(** [a[lo:hi] *= k] on a one-dimensional array. *)
Definition imul_slice (a : list Q) (lo hi : nat) (k : Q) : list Q :=
  on_slice (fun v => v * k) a lo hi.

(** [a[lo:hi] -= v] on an [N, 3] array, [v] a row read before the update. *)
Definition isub_rows (a : list vec3) (lo hi : nat) (v : vec3) : list vec3 :=
  on_slice (fun r => vsub r v) a lo hi.

(** [a[lo:hi, 2] += d] on an [N, 3] array. *)
Definition iadd_depth (a : list vec3) (lo hi : nat) (d : Q) : list vec3 :=
  on_slice (fun r => V3 (vx r) (vy r) (vz r + d)) a lo hi.

(** A numpy float that may be NaN. *)
Inductive npfloat : Type :=
| Fin (q : Q)
| NaN.

(** Integer arrays of one and two dimensions. *)
Inductive ndarray : Type :=
| Arr1 (xs : list Z)
| Arr2 (rows : list (list Z)).

(** [np.array(rows)] for a list of integer rows of one length: the empty
    list gives a one-dimensional empty array. *)
Definition np_array (rows : list (list Z)) : ndarray :=
  match rows with
  | [] => Arr1 []
  | _ :: _ => Arr2 rows
  end.

(** [np.array(v, dtype=int)] on floats rounds toward zero.  The result is
    the one of numpy for values within the range of the integer type; what
    numpy does beyond it is not modelled. *)
Definition astype_int (q : Q) : Z :=
  if Qle_bool 0 q then Qfloor q else Qceiling q.

(** [a[masks]] with a boolean mask of the length of [a]. *)
Definition select {A} (masks : list bool) (a : list A) : list A :=
  map snd (filter fst (combine masks a)).

(** [np.mean] of a boolean array: the mean of nothing is NaN. *)
Definition np_mean (a : list bool) : npfloat :=
  match a with
  | [] => NaN
  | _ :: _ =>
      Fin (Z.of_nat (List.length (filter (fun b => b) a))
           # Pos.of_nat (List.length a))
  end.

(** A Python number is true when it is not zero. *)
Definition truthy (q : Q) : bool := negb (Qeq_bool q 0).

(** [a.all()] on an integer array. *)
Definition np_all (a : list Z) : bool := forallb (fun v => negb (Z.eqb v 0)) a.

(** [k in l] for strings. *)
Definition str_in (k : string) (l : list string) : bool :=
  existsb (String.eqb k) l.

(** [posixpath.join] of two components. *)
Definition os_path_join (a b : string) : string :=
  if String.prefix "/" b then b
  else if orb (String.eqb a "")
              (String.eqb (substring (String.length a - 1) 1 a) "/")
       then String.append a b
       else String.append a (String.append "/" b).

(** [s[n:]] *)
Definition str_drop (n : nat) (s : string) : string :=
  substring n (String.length s - n) s.

(** ** Coordinate transforms *)

Definition eps : Q := 1 # 100000000.

(** [_cam2pixel]: camera coordinates to pixel coordinates [(x, y, 0)]. *)
Definition _cam2pixel (cam_coord : list vec3) (f c : vec2) : list vec3 :=
  map (fun p =>
         V3 (vx p / (vz p + eps) * fst f + fst c)
            (vy p / (vz p + eps) * snd f + snd c)
            0)
      cam_coord.

(** [_world2cam]: [np.dot(R, world_coord - T)] on a [3, N] array. *)
Definition _world2cam (world_coord : list vec3) (R : mat33) (T : vec3)
  : list vec3 :=
  map (fun w => mat_vec R (vsub w T)) world_coord.

(** [_pixel2cam]: the body indexes [pixel_coord[:, 0]], which a plain
    Python list refuses with a TypeError. *)
Definition _pixel2cam (pixel_coord : pyarg) (f c : vec2)
  : result (list vec3) :=
  match pixel_coord with
  | NdArrayN3 rows =>
      Ok (map (fun p =>
                 V3 ((vx p - fst c) / fst f * vz p)
                    ((vy p - snd c) / snd f * vz p)
                    (vz p))
              rows)
  | PyList _ => Raise TypeError
  end.

(** [_process_handtype] *)
Definition _process_handtype (hand_type : string) : result (list Z) :=
  if String.eqb hand_type "right" then Ok [1; 0]%Z
  else if String.eqb hand_type "left" then Ok [0; 1]%Z
  else if String.eqb hand_type "interacting" then Ok [1; 1]%Z
  else Raise AssertionError.

(** ** Annotation data, records and files *)

(** One capture of the camera file: per camera name, position, rotation,
    focal length and principal point. *)
Record camera_table : Type := CameraTable {
  campos : list (string * vec3);
  camrot : list (string * mat33);
  cam_focal : list (string * vec2);
  cam_princpt : list (string * vec2)
}.

(** An image of the annotation index; [img_capture] and [img_frame_idx] hold
    the keys [str(img['capture'])] and [str(img['frame_idx'])]. *)
Record image_info : Type := ImageInfo {
  img_capture : string;
  img_camera : string;
  img_frame_idx : string
}.

Record annotation : Type := Annotation {
  ann_bbox : list Q;
  ann_joint_valid : list Q;
  ann_hand_type : string;
  ann_hand_type_valid : Z
}.

(** An entry of the root-depth-estimate file. *)
Record rootnet_entry : Type := RootnetEntry {
  rn_annot_id : Z;
  rn_bbox : list Q;
  rn_abs_depth : list Q
}.

(** A record of the database. *)
Record sample : Type := Sample {
  image_file : string;
  center : vec2;
  scale : vec2;
  rotation : Z;
  joints_3d : list vec3;
  joints_3d_visible : list vec3;
  hand_type : list Z;
  hand_type_valid : Z;
  rel_root_depth : Q;
  abs_depth : list Q;
  joints_cam : list vec3;
  focal : vec2;
  princpt : vec2;
  dataset : string;
  bbox : list Q;
  bbox_score : Z;
  bbox_id : Z
}.

(** An entry of the results file; the optional keys are present when the
    output batch had the matching field. *)
Record kpt : Type := Kpt {
  kp_center : list Q;
  kp_scale : list Q;
  kp_area : Q;
  kp_score : Q;
  kp_image_id : Z;
  kp_bbox_id : Z;
  kp_keypoints : option (list (list Q));
  kp_hand_type : option (list Q);
  kp_hand_type_score : option (list Q);
  kp_rel_root_depth : option Q
}.

(** A batch of model outputs. *)
Record output : Type := Output {
  out_preds : option (list (list (list Q)));
  out_hand_type : option (list (list Q));
  out_rel_root_depth : option (list (list Q));
  out_boxes : list (list Q);
  out_image_paths : list string;
  out_bbox_ids : list Z
}.

(** What [json.load] finds in a file. *)
Inductive content : Type :=
| Cameras (t : list (string * camera_table))
| Joints (t : list (string * list (string * list vec3)))
| RootnetAnnot (t : list rootnet_entry)
| Keypoints (t : list kpt).

Inductive event : Type :=
| EvRead (path : string)
| EvWrite (path : string).

Record world : Type := World {
  files : list (string * content);
  log : list event
}.

Definition io (A : Type) : Type := world -> result A * world.

Definition io_ret {A} (a : A) : io A := fun w => (Ok a, w).

Definition io_lift {A} (r : result A) : io A := fun w => (r, w).

Definition io_bind {A B} (m : io A) (k : A -> io B) : io B :=
  fun w =>
    match m w with
    | (Ok a, w') => k a w'
    | (Raise e, w') => (Raise e, w')
    end.

Declare Scope io_scope.
Delimit Scope io_scope with io.
Notation "x <- m ;; k" := (io_bind m (fun x => k))
  (at level 61, m at next level, right associativity) : io_scope.

(** [with open(path, 'r') as f: json.load(f)] *)
Definition json_load (path : string) : io content :=
  fun w =>
    match lookup (files w) path with
    | Ok c => (Ok c, World (files w) (log w ++ [EvRead path]))
    | Raise _ => (Raise (FileNotFoundError path), w)
    end.

(** The loaded value used as the table the caller expects; content of
    another shape is refused at once. *)
Definition as_cameras (c : content) : result (list (string * camera_table)) :=
  match c with Cameras t => Ok t | _ => Raise TypeError end.

Definition as_joints (c : content)
  : result (list (string * list (string * list vec3))) :=
  match c with Joints t => Ok t | _ => Raise TypeError end.

Definition as_rootnet (c : content) : result (list rootnet_entry) :=
  match c with RootnetAnnot t => Ok t | _ => Raise TypeError end.

Definition as_keypoints (c : content) : result (list kpt) :=
  match c with Keypoints t => Ok t | _ => Raise TypeError end.

(** The annotation index of the base class. *)
Record coco_api : Type := COCO {
  getAnnIds : Z -> list Z;
  loadAnns : list Z -> list annotation;
  loadImgs : Z -> list image_info
}.

(** The dataset object; [rootnet_result_file] is [None] while the attribute
    has not been assigned. *)
Record dataset_obj : Type := Dataset {
  coco : coco_api;
  img_ids : list Z;
  id2name : list (Z * string);
  name2id : list (string * Z);
  img_prefix : string;
  num_joints : nat;
  dataset_name : string;
  camera_file : string;
  joint_file : string;
  use_gt_root_depth : bool;
  rootnet_result_file : option string;
  db : list sample
}.

(** [sorted(gt_db, key=lambda x: x['bbox_id'])], a stable sort. *)
Fixpoint insert_by_bbox_id (x : sample) (l : list sample) : list sample :=
  match l with
  | [] => [x]
  | y :: l' =>
      if (bbox_id x <=? bbox_id y)%Z then x :: l
      else y :: insert_by_bbox_id x l'
  end.

Definition sorted_by_bbox_id (l : list sample) : list sample :=
  fold_right insert_by_bbox_id [] l.

(** [joint_valid[:20] *= joint_valid[20]; joint_valid[21:] *= joint_valid[41]] *)
Definition propagate_root_validity (joint_valid : list Q) : result (list Q) :=
  (r <- getitem joint_valid 20 ;;
   let joint_valid := imul_slice joint_valid 0 20 r in
   l <- getitem joint_valid 41 ;;
   Ok (imul_slice joint_valid 21 (List.length joint_valid) l))%py.

(** [np.minimum(1, joint_valid.reshape(-1, 1))] written over the three
    columns of [joints_3d_visible]. *)
Definition visible_rows (n : nat) (joint_valid : list Q)
  : result (list vec3) :=
  if Nat.eqb (List.length joint_valid) n
  then Ok (map (fun v => let m := Qmin 1 v in V3 m m m) joint_valid)
  else Raise ValueError.

(** [joints_3d[:, :2] = joint_img] *)
Fixpoint zip_xy (rows : list vec3) (xy : list (Q * Q)) : list vec3 :=
  match rows, xy with
  | r :: rows', (x, y) :: xy' => V3 x y (vz r) :: zip_xy rows' xy'
  | _, _ => rows
  end.

Definition set_xy (a : list vec3) (xy : list (Q * Q)) : result (list vec3) :=
  if Nat.eqb (List.length xy) (List.length a) then Ok (zip_xy a xy)
  else Raise ValueError.

(** ** The database builder *)

Section DatabaseBuilder.

(** [_xywh2cs(x, y, w, h, padding)] of the base class: center and scale of
    a box. *)
Variable _xywh2cs : Q -> Q -> Q -> Q -> Q -> vec2 * vec2.

(** [self._xywh2cs( *bbox, padding)]: the box is unpacked into four
    positional arguments.  A box of another length is refused here; the
    box of three numbers, which Python would pass on with [padding] in the
    place of the height, is not followed. *)
Definition xywh2cs_unpacked (bbox : list Q) (padding : Q)
  : result (vec2 * vec2) :=
  match bbox with
  | [x; y; w; h] => Ok (_xywh2cs x y w h padding)
  | _ => Raise TypeError
  end.

(** The body of the loop of [_get_db] for one image.  [rootnet_result] is
    the local variable of that name, [None] while it is unbound. *)
Definition get_db_item (self : dataset_obj)
    (cameras : list (string * camera_table))
    (joints : list (string * list (string * list vec3)))
    (rootnet_result : option (list (Z * rootnet_entry)))
    (img_id : Z) (bbox_id : Z) : result sample :=
  (let num_joints := num_joints self in
   let ann_id := getAnnIds (coco self) img_id in
   ann <- getitem (loadAnns (coco self) ann_id) 0 ;;
   img <- getitem (loadImgs (coco self) img_id) 0 ;;
   let capture_id := img_capture img in
   let camera_name := img_camera img in
   let frame_idx := img_frame_idx img in
   name <- lookupZ (id2name self) img_id ;;
   let image_file := os_path_join (img_prefix self) name in
   cam <- lookup cameras capture_id ;;
   camera_pos <- lookup (campos cam) camera_name ;;
   camera_rot <- lookup (camrot cam) camera_name ;;
   focal <- lookup (cam_focal cam) camera_name ;;
   principal_pt <- lookup (cam_princpt cam) camera_name ;;
   frames <- lookup joints capture_id ;;
   joint_world <- lookup frames frame_idx ;;
   let joint_cam := _world2cam joint_world camera_rot camera_pos in
   let joint_img :=
     map (fun p => (vx p, vy p)) (_cam2pixel joint_cam focal principal_pt) in
   let joint_valid := ann_joint_valid ann in
   hand_type <- _process_handtype (ann_hand_type ann) ;;
   let hand_type_valid := ann_hand_type_valid ann in
   '(bbox, cs, abs_depth) <-
     (if use_gt_root_depth self then
        let bbox := ann_bbox ann in
        cs <- xywh2cs_unpacked bbox (5 # 4) ;;
        right_depth <- getitem2 joint_cam 20 2 ;;
        left_depth <- getitem2 joint_cam 41 2 ;;
        Ok (bbox, cs, [right_depth; left_depth])
      else
        table <- match rootnet_result with
                 | Some table => Ok table
                 | None => Raise (UnboundLocalError "rootnet_result")
                 end ;;
        first_id <- getitem ann_id 0 ;;
        rootnet_ann_data <- lookupZ table first_id ;;
        let bbox := rn_bbox rootnet_ann_data in
        cs <- xywh2cs_unpacked bbox 1 ;;
        Ok (bbox, cs, rn_abs_depth rootnet_ann_data)) ;;
   let '(center, scale) := cs in
   left_z <- getitem2 joint_cam 41 2 ;;
   right_z <- getitem2 joint_cam 20 2 ;;
   let rel_root_depth := left_z - right_z in
   joint_valid <- propagate_root_validity joint_valid ;;
   let joints_3d := repeat vzero num_joints in
   let joints_3d_visible := repeat vzero num_joints in
   joints_3d <- set_xy joints_3d joint_img ;;
   right_col <- column (firstn 21 joint_cam) 3 ;;
   right_root <- getitem2 joint_cam 20 3 ;;
   joints_3d <- set_column joints_3d 0 21 3
                  (map (fun z => z - right_root) right_col) ;;
   left_col <- column (skipn 21 joint_cam) 3 ;;
   left_root <- getitem2 joint_cam 41 3 ;;
   joints_3d <- set_column joints_3d 21 (List.length joints_3d) 3
                  (map (fun z => z - left_root) left_col) ;;
   joints_3d_visible <- visible_rows num_joints joint_valid ;;
   Ok {| image_file := image_file;
         center := center;
         scale := scale;
         rotation := 0%Z;
         joints_3d := joints_3d;
         joints_3d_visible := joints_3d_visible;
         hand_type := hand_type;
         hand_type_valid := hand_type_valid;
         rel_root_depth := rel_root_depth;
         abs_depth := abs_depth;
         joints_cam := joint_cam;
         focal := focal;
         princpt := principal_pt;
         dataset := dataset_name self;
         bbox := bbox;
         bbox_score := 1%Z;
         bbox_id := bbox_id |})%py.

(** The loop of [_get_db] over [self.img_ids]. *)
Fixpoint get_db_loop (self : dataset_obj)
    (cameras : list (string * camera_table))
    (joints : list (string * list (string * list vec3)))
    (rootnet_result : option (list (Z * rootnet_entry)))
    (ids : list Z) (bbox_id : Z) (gt_db : list sample)
  : result (list sample) :=
  match ids with
  | [] => Ok gt_db
  | img_id :: ids' =>
      (item <- get_db_item self cameras joints rootnet_result img_id bbox_id ;;
       get_db_loop self cameras joints rootnet_result ids' (bbox_id + 1)%Z
         (gt_db ++ [item]))%py
  end.

(** [rootnet_result[str(rootnet_annot[i]['annot_id'])] = rootnet_annot[i]]
    for every [i]; the keys are kept as integers. *)
Definition index_rootnet (rootnet_annot : list rootnet_entry)
  : list (Z * rootnet_entry) :=
  fold_left (fun d e => setitemZ d (rn_annot_id e) e) rootnet_annot [].

(** [_get_db] *)
Definition _get_db (self : dataset_obj) : io (list sample) :=
  (c <- json_load (camera_file self) ;;
   cameras <- io_lift (as_cameras c) ;;
   j <- json_load (joint_file self) ;;
   joints <- io_lift (as_joints j) ;;
   rootnet_result <-
     (if use_gt_root_depth self then
        path <- io_lift match rootnet_result_file self with
                        | Some path => Ok path
                        | None => Raise (AttributeError "rootnet_result_file")
                        end ;;
        r <- json_load path ;;
        rootnet_annot <- io_lift (as_rootnet r) ;;
        io_ret (Some (index_rootnet rootnet_annot))
      else io_ret None) ;;
   gt_db <- io_lift (get_db_loop self cameras joints rootnet_result
                       (img_ids self) 0%Z []) ;;
   io_ret (sorted_by_bbox_id gt_db))%io.

(** What [super().__init__] leaves in the object, as far as this class
    reads it. *)
Record hand_base : Type := HandBase {
  base_coco : coco_api;
  base_img_ids : list Z;
  base_id2name : list (Z * string);
  base_name2id : list (string * Z);
  base_img_prefix : string;
  base_num_joints : nat
}.

(** [__init__], after the call of the base class: the world it starts in
    is the one that [super().__init__] leaves, which has read the
    annotation file by then.  [rootnet_result_file] is the argument, [None]
    when the caller leaves the default. *)
Definition __init__ (base : hand_base) (camera_file joint_file : string)
    (use_gt_root_depth : bool) (rootnet_result_file : option string)
  : io dataset_obj :=
  (_ <- io_lift (if Nat.eqb (base_num_joints base) 42 then Ok tt
                 else Raise AssertionError) ;;
   attr <- io_lift
     (if use_gt_root_depth then
        match rootnet_result_file with
        | Some path => Ok (Some path)
        | None => Raise AssertionError
        end
      else Ok None) ;;
   let self :=
     {| coco := base_coco base;
        img_ids := base_img_ids base;
        id2name := base_id2name base;
        name2id := base_name2id base;
        img_prefix := base_img_prefix base;
        num_joints := base_num_joints base;
        dataset_name := "interhand3d";
        camera_file := camera_file;
        joint_file := joint_file;
        use_gt_root_depth := use_gt_root_depth;
        rootnet_result_file := attr;
        db := [] |} in
   gt_db <- _get_db self ;;
   io_ret {| coco := coco self;
             img_ids := img_ids self;
             id2name := id2name self;
             name2id := name2id self;
             img_prefix := img_prefix self;
             num_joints := num_joints self;
             dataset_name := dataset_name self;
             camera_file := camera_file;
             joint_file := joint_file;
             use_gt_root_depth := use_gt_root_depth;
             rootnet_result_file := attr;
             db := gt_db |})%io.

End DatabaseBuilder.

(** ** The metric reporter *)

(** [_get_accuracy]: [(outputs == gts).all(axis=1)], then the mean over the
    rows the mask selects.  Both arrays have one shape [N, C] at the call;
    a one-dimensional array has no axis 1. *)
Definition row_all_equal (o g : list Z) : bool :=
  forallb (fun p => Z.eqb (fst p) (snd p)) (combine o g).

Definition _get_accuracy (outputs gts : ndarray) (masks : list bool)
  : result npfloat :=
  match outputs, gts with
  | Arr2 o, Arr2 g =>
      let acc := map (fun p => row_all_equal (fst p) (snd p)) (combine o g) in
      if Nat.eqb (List.length masks) (List.length acc)
      then Ok (np_mean (select masks acc))
      else Raise IndexError
  | _, _ => Raise AxisError
  end.

(** [d[key]] on an entry of the results file. *)
Definition field {A} (v : option A) (key : string) : result A :=
  match v with
  | Some a => Ok a
  | None => Raise (KeyError key)
  end.

(** [l[i] += d] on a Python list. *)
Definition iadd_item (l : list Q) (i : nat) (d : result Q) : result (list Q) :=
  (old <- getitem l i ;;
   d <- d ;;
   Ok (firstn i l ++ [old + d] ++ skipn (S i) l))%py.

(** [np.array(keypoints)] for a list of [(x, y, z)] rows; rows of another
    length are refused here. *)
Fixpoint np_array_N3 (rows : list (list Q)) : result (list vec3) :=
  match rows with
  | [] => Ok []
  | [x; y; z] :: rows' => (rest <- np_array_N3 rows' ;; Ok (V3 x y z :: rest))%py
  | _ :: _ => Raise ValueError
  end.

(** The condition of the MRRPE branch of [_report_metric]. *)
Definition rel_root_valid (item : sample) : result bool :=
  (if np_all (hand_type item) then
     right <- getitem2 (joints_3d_visible item) 20 0 ;;
     if truthy right then
       left <- getitem2 (joints_3d_visible item) 41 0 ;;
       Ok (truthy left)
     else Ok false
   else Ok false)%py.

(** What one sample appends to [rel_root_masks], [preds_rel_root] and
    [gts_rel_root].  The keypoints come from the JSON file as plain lists;
    [_pixel2cam] is called on such a list.  The list level that the source
    wraps around the difference of its two results is not represented. *)
Definition mrrpe_entry (pred : kpt) (item : sample)
  : result (bool * list vec3 * list vec3) :=
  (valid <- rel_root_valid item ;;
   if (valid : bool) then
     keypoints <- field (kp_keypoints pred) "keypoints" ;;
     pred_left_root_img <- getitem keypoints 41 ;;
     pred_left_root_img <-
       iadd_item pred_left_root_img 2
         (depth <- getitem (abs_depth item) 0 ;;
          rel <- field (kp_rel_root_depth pred) "rel_root_depth" ;;
          Ok (depth + rel)) ;;
     pred_left_root_cam <-
       _pixel2cam (PyList pred_left_root_img) (focal item) (princpt item) ;;
     keypoints <- field (kp_keypoints pred) "keypoints" ;;
     pred_right_root_img <- getitem keypoints 20 ;;
     pred_right_root_img <-
       iadd_item pred_right_root_img 2 (getitem (abs_depth item) 0) ;;
     pred_right_root_cam <-
       _pixel2cam (PyList pred_right_root_img) (focal item) (princpt item) ;;
     gt_left <- getitem (joints_cam item) 41 ;;
     gt_right <- getitem (joints_cam item) 20 ;;
     Ok (true,
         map (fun p => vsub (fst p) (snd p))
             (combine pred_left_root_cam pred_right_root_cam),
         [vsub gt_left gt_right])
   else Ok (false, [vzero], [vzero]))%py.

(** What one sample appends to [preds_joint_coord_cam],
    [gts_joint_coord_cam], [single_masks], [interacting_masks] and
    [all_masks]. *)
Definition mpjpe_entry (self : dataset_obj) (pred : kpt) (item : sample)
  : result (list vec3 * list vec3 * (list bool * list bool * list bool)) :=
  (keypoints <- field (kp_keypoints pred) "keypoints" ;;
   pred_joint_coord_img <- np_array_N3 keypoints ;;
   let gt_joint_coord_cam := joints_cam item in
   right_depth <- getitem (abs_depth item) 0 ;;
   let pred_joint_coord_img := iadd_depth pred_joint_coord_img 0 21 right_depth in
   left_depth <- getitem (abs_depth item) 1 ;;
   let pred_joint_coord_img :=
     iadd_depth pred_joint_coord_img 21 (List.length pred_joint_coord_img)
       left_depth in
   pred_joint_coord_cam <-
     _pixel2cam (NdArrayN3 pred_joint_coord_img) (focal item) (princpt item) ;;
   root <- getitem pred_joint_coord_cam 20 ;;
   let pred_joint_coord_cam := isub_rows pred_joint_coord_cam 0 21 root in
   root <- getitem pred_joint_coord_cam 41 ;;
   let pred_joint_coord_cam :=
     isub_rows pred_joint_coord_cam 21 (List.length pred_joint_coord_cam) root in
   root <- getitem gt_joint_coord_cam 20 ;;
   let gt_joint_coord_cam := isub_rows gt_joint_coord_cam 0 21 root in
   root <- getitem gt_joint_coord_cam 41 ;;
   let gt_joint_coord_cam :=
     isub_rows gt_joint_coord_cam 21 (List.length gt_joint_coord_cam) root in
   let mask :=
     map (fun r => negb (Qle_bool (vx r) 0)) (joints_3d_visible item) in
   let zeros := repeat false (num_joints self) in
   if np_all (hand_type item)
   then Ok (pred_joint_coord_cam, gt_joint_coord_cam, (zeros, mask, mask))
   else Ok (pred_joint_coord_cam, gt_joint_coord_cam, (mask, zeros, mask)))%py.

(** What one sample appends to [preds_hand_type], [gts_hand_type] and
    [hand_type_masks]. *)
Definition handedness_entry (pred : kpt) (item : sample)
  : result (list Z * list Z * bool) :=
  (pred_hand_type <- field (kp_hand_type pred) "hand_type" ;;
   Ok (map astype_int pred_hand_type, hand_type item,
       (0 <? hand_type_valid item)%Z))%py.

(** One turn of the loop over [zip(preds, self.db)]: a part is [None] when
    its metric is not requested. *)
Record entry : Type := Entry {
  e_mrrpe : option (bool * list vec3 * list vec3);
  e_mpjpe : option (list vec3 * list vec3 * (list bool * list bool * list bool));
  e_hand : option (list Z * list Z * bool)
}.

Definition when {A} (b : bool) (m : result A) : result (option A) :=
  if b then (a <- m ;; Ok (Some a))%py else Ok None.

Definition report_entry (self : dataset_obj) (metrics : list string)
    (pred : kpt) (item : sample) : result entry :=
  (m <- when (str_in "MRRPE" metrics) (mrrpe_entry pred item) ;;
   j <- when (str_in "MPJPE" metrics) (mpjpe_entry self pred item) ;;
   h <- when (str_in "Handedness_acc" metrics) (handedness_entry pred item) ;;
   Ok (Entry m j h))%py.

Fixpoint report_loop (self : dataset_obj) (metrics : list string)
    (pairs : list (kpt * sample)) : result (list entry) :=
  match pairs with
  | [] => Ok []
  | (pred, item) :: pairs' =>
      (e <- report_entry self metrics pred item ;;
       es <- report_loop self metrics pairs' ;;
       Ok (e :: es))%py
  end.

Definition collected {A} (part : entry -> option A) (es : list entry) : list A :=
  flat_map (fun e => match part e with Some a => [a] | None => [] end) es.

(** ** The evaluation entry point *)

Definition allowed_metrics : list string :=
  ["MRRPE"; "MPJPE"; "Handedness_acc"].

(** The [metric] argument: a name or a list of names. *)
Inductive metric_arg : Type :=
| Metric (name : string)
| MetricList (names : list string).

Definition metrics_of (metric : metric_arg) : list string :=
  match metric with
  | Metric name => [name]
  | MetricList names => names
  end.

Definition not_supported (name : string) : exn :=
  KeyError (String.append "metric " (String.append name " is not supported")).

(** The loop that refuses a metric outside [allowed_metrics]. *)
Fixpoint check_metrics (metrics : list string) : result unit :=
  match metrics with
  | [] => Ok tt
  | metric :: metrics' =>
      if str_in metric allowed_metrics then check_metrics metrics'
      else Raise (not_supported metric)
  end.

(** A field of an output batch that a requested metric needs. *)
Definition batch_field {A} (present : option A) (name : string)
    (metrics : list string) : result (option A) :=
  match present with
  | Some v => Ok (Some v)
  | None => if str_in name metrics then Raise (not_supported name) else Ok None
  end.

Fixpoint mapM {A B} (f : A -> result B) (l : list A) : result (list B) :=
  match l with
  | [] => Ok []
  | a :: l' => (b <- f a ;; bs <- mapM f l' ;; Ok (b :: bs))%py
  end.

(** The entry of the results file for sample [i] of a batch. *)
Definition make_kpt (self : dataset_obj)
    (preds : option (list (list (list Q))))
    (hand_type rel_root_depth : option (list (list Q)))
    (boxes : list (list Q)) (image_paths : list string) (bbox_ids : list Z)
    (i : nat) : result kpt :=
  (path <- getitem image_paths i ;;
   image_id <- lookup (name2id self)
                 (str_drop (String.length (img_prefix self)) path) ;;
   box <- getitem boxes i ;;
   area <- getitem box 4 ;;
   score <- getitem box 5 ;;
   bbox_id <- getitem bbox_ids i ;;
   keypoints <- match preds with
                | Some p => (k <- getitem p i ;; Ok (Some k))
                | None => Ok None
                end ;;
   hand <- match hand_type with
           | Some h => (row <- getitem h i ;; Ok (Some row))
           | None => Ok None
           end ;;
   depth <- match rel_root_depth with
            | Some r => (row <- getitem r i ;; v <- getitem row 0 ;; Ok (Some v))
            | None => Ok None
            end ;;
   Ok {| kp_center := firstn 2 box;
         kp_scale := firstn 2 (skipn 2 box);
         kp_area := area;
         kp_score := score;
         kp_image_id := image_id;
         kp_bbox_id := bbox_id;
         kp_keypoints := keypoints;
         kp_hand_type := option_map (firstn 2) hand;
         kp_hand_type_score := option_map (fun row => firstn 2 (skipn 2 row)) hand;
         kp_rel_root_depth := depth |})%py.

(** The entries of one output batch. *)
Definition collect_batch (self : dataset_obj) (metrics : list string)
    (o : output) : result (list kpt) :=
  (preds <- batch_field (out_preds o) "MPJPE" metrics ;;
   hand_type <- batch_field (out_hand_type o) "Handedness_acc" metrics ;;
   rel_root_depth <- batch_field (out_rel_root_depth o) "MRRPE" metrics ;;
   let boxes := out_boxes o in
   let image_paths := out_image_paths o in
   let bbox_ids := out_bbox_ids o in
   let batch_size := List.length image_paths in
   mapM (make_kpt self preds hand_type rel_root_depth boxes image_paths bbox_ids)
        (seq 0 batch_size))%py.

Fixpoint collect_outputs (self : dataset_obj) (metrics : list string)
    (outputs : list output) : result (list kpt) :=
  match outputs with
  | [] => Ok []
  | o :: outputs' =>
      (ks <- collect_batch self metrics o ;;
       rest <- collect_outputs self metrics outputs' ;;
       Ok (ks ++ rest))%py
  end.

Section MetricReporter.

(** The Euclidean norm of a vector, a square root. *)
Variable norm : vec3 -> Q.

(** [_sort_and_unique_bboxes] and [_write_keypoint_results] of the base
    class. *)
Variable _sort_and_unique_bboxes : list kpt -> list kpt.
Variable _write_keypoint_results : list kpt -> string -> io unit.

Fixpoint Qsum (l : list Q) : Q :=
  match l with
  | [] => 0
  | x :: l' => x + Qsum l'
  end.

(** Modelled from the spec: [keypoint_epe] of
    [mmpose.core.evaluation.top_down_eval], which is not among the sources.
    It takes predicted and ground-truth coordinates [N, K, 3] and a
    boolean mask [N, K], computes the per-point Euclidean norm of the
    difference and returns the arithmetic mean over the positions where the
    mask is true; it is a fatal error when the mask selects no position
    (the spec does not name the exception). *)
Definition keypoint_epe (pred gt : list (list vec3)) (mask : list (list bool))
  : result npfloat :=
  let distances :=
    map (fun p => norm (vsub (fst p) (snd p)))
        (combine (List.concat pred) (List.concat gt)) in
  let valid := select (List.concat mask) distances in
  match valid with
  | [] => Raise ValueError
  | _ :: _ => Ok (Fin (Qsum valid / inject_Z (Z.of_nat (List.length valid))))
  end.

(** [_report_metric] after the loop: the metrics from the collected arrays.
    [rel_root_masks] has one flag per sample, taken as an [N, 1] mask. *)
Definition report_values (metrics : list string) (es : list entry)
  : result (list (string * npfloat)) :=
  (let rel := collected e_mrrpe es in
   let joint := collected e_mpjpe es in
   let hand := collected e_hand es in
   let gts_rel_root := map snd rel in
   let preds_rel_root := map (fun t => snd (fst t)) rel in
   let rel_root_masks := map (fun t => [fst (fst t)]) rel in
   let gts_joint_coord_cam := map (fun t => snd (fst t)) joint in
   let preds_joint_coord_cam := map (fun t => fst (fst t)) joint in
   let single_masks := map (fun t => fst (fst (snd t))) joint in
   let interacting_masks := map (fun t => snd (fst (snd t))) joint in
   let all_masks := map (fun t => snd (snd t)) joint in
   let gts_hand_type := np_array (map (fun t => snd (fst t)) hand) in
   let preds_hand_type := np_array (map (fun t => fst (fst t)) hand) in
   let hand_type_masks := map snd hand in
   mrrpe <-
     (if str_in "MRRPE" metrics then
        v <- keypoint_epe preds_rel_root gts_rel_root rel_root_masks ;;
        Ok [("MRRPE", v)]
      else Ok []) ;;
   mpjpe <-
     (if str_in "MPJPE" metrics then
        a <- keypoint_epe preds_joint_coord_cam gts_joint_coord_cam all_masks ;;
        s <- keypoint_epe preds_joint_coord_cam gts_joint_coord_cam
               single_masks ;;
        i <- keypoint_epe preds_joint_coord_cam gts_joint_coord_cam
               interacting_masks ;;
        Ok [("MPJPE_all", a); ("MPJPE_single", s); ("MPJPE_interacting", i)]
      else Ok []) ;;
   acc <-
     (if str_in "Handedness_acc" metrics then
        v <- _get_accuracy preds_hand_type gts_hand_type hand_type_masks ;;
        Ok [("Handedness_acc", v)]
      else Ok []) ;;
   Ok (mrrpe ++ mpjpe ++ acc))%py.

(** [_report_metric] *)
Definition _report_metric (self : dataset_obj) (res_file : string)
    (metrics : list string) : io (list (string * npfloat)) :=
  (c <- json_load res_file ;;
   preds <- io_lift (as_keypoints c) ;;
   _ <- io_lift (if Nat.eqb (List.length preds) (List.length (db self))
                 then Ok tt else Raise AssertionError) ;;
   es <- io_lift (report_loop self metrics (combine preds (db self))) ;;
   io_lift (report_values metrics es))%io.

(** [evaluate]; the ordered dict it returns is kept as the list of its
    items. *)
Definition evaluate (self : dataset_obj) (outputs : list output)
    (res_folder : string) (metric : metric_arg)
  : io (list (string * npfloat)) :=
  (let metrics := metrics_of metric in
   _ <- io_lift (check_metrics metrics) ;;
   let res_file := os_path_join res_folder "result_keypoints.json" in
   kpts <- io_lift (collect_outputs self metrics outputs) ;;
   let kpts := _sort_and_unique_bboxes kpts in
   _ <- _write_keypoint_results kpts res_file ;;
   info_str <- _report_metric self res_file metrics ;;
   io_ret info_str)%io.

End MetricReporter.

(** ** Definitions used to state the properties *)

(** The image [img_id] with everything the loop of [_get_db] looks up for
    it found: its annotation and image entry, its name, its camera, its
    world joints, and a hand-type label that is recognised. *)
Record resolved (self : dataset_obj)
    (cameras : list (string * camera_table))
    (joints : list (string * list (string * list vec3)))
    (img_id : Z) : Type := Resolved {
  r_ann : annotation;
  r_img : image_info;
  r_name : string;
  r_cam : camera_table;
  r_pos : vec3;
  r_rot : mat33;
  r_focal : vec2;
  r_princpt : vec2;
  r_frames : list (string * list vec3);
  r_world : list vec3;
  r_hand : list Z;
  r_ann_ok : getitem (loadAnns (coco self) (getAnnIds (coco self) img_id)) 0
             = Ok r_ann;
  r_img_ok : getitem (loadImgs (coco self) img_id) 0 = Ok r_img;
  r_name_ok : lookupZ (id2name self) img_id = Ok r_name;
  r_cam_ok : lookup cameras (img_capture r_img) = Ok r_cam;
  r_pos_ok : lookup (campos r_cam) (img_camera r_img) = Ok r_pos;
  r_rot_ok : lookup (camrot r_cam) (img_camera r_img) = Ok r_rot;
  r_focal_ok : lookup (cam_focal r_cam) (img_camera r_img) = Ok r_focal;
  r_princpt_ok : lookup (cam_princpt r_cam) (img_camera r_img) = Ok r_princpt;
  r_frames_ok : lookup joints (img_capture r_img) = Ok r_frames;
  r_world_ok : lookup r_frames (img_frame_idx r_img) = Ok r_world;
  r_hand_ok : _process_handtype (ann_hand_type r_ann) = Ok r_hand
}.

(** The handedness accuracy in the words of the specification: among the
    samples with a valid handedness label, the fraction whose predicted
    vector is the ground-truth vector. *)
Fixpoint count_valid (masks : list bool) : nat :=
  match masks with
  | [] => 0
  | true :: masks' => S (count_valid masks')
  | false :: masks' => count_valid masks'
  end.

Fixpoint count_correct (outputs gts : list (list Z)) (masks : list bool)
  : nat :=
  match outputs, gts, masks with
  | o :: outputs', g :: gts', true :: masks' =>
      if list_eq_dec Z.eq_dec o g
      then S (count_correct outputs' gts' masks')
      else count_correct outputs' gts' masks'
  | _ :: outputs', _ :: gts', false :: masks' =>
      count_correct outputs' gts' masks'
  | _, _, _ => 0%nat
  end.

Definition accuracy_spec (outputs gts : list (list Z)) (masks : list bool)
  : npfloat :=
  match count_valid masks with
  | O => NaN
  | S _ =>
      Fin (Z.of_nat (count_correct outputs gts masks)
           # Pos.of_nat (count_valid masks))
  end.

(** The predicted hand-type vector of an entry of the results file, as
    integers. *)
Definition pred_hand_type (pred : kpt) : list Z :=
  match kp_hand_type pred with
  | Some v => map astype_int v
  | None => []
  end.

Definition handedness_valid (item : sample) : bool :=
  (0 <? hand_type_valid item)%Z.

(** A prediction that carries a hand-type vector of the length of the
    ground-truth vector. *)
Definition has_hand_type (pred : kpt) (item : sample) : Prop :=
  exists v, kp_hand_type pred = Some v /\
            List.length v = List.length (hand_type item).

(** The entry of the loop of [_report_metric] for a sample when the
    handedness accuracy alone is requested. *)
Definition hand_only (pred : kpt) (item : sample) : entry :=
  Entry None None
    (Some (pred_hand_type pred, hand_type item, handedness_valid item)).

(** The validity condition of MRRPE in the words of the specification. *)
Definition marks_interacting (item : sample) : Prop :=
  Forall (fun v => v <> 0%Z) (hand_type item).

Definition wrist_flag_set (item : sample) (wrist : nat) : Prop :=
  ~ vx (nth wrist (joints_3d_visible item) vzero) == 0.

(** A sample with another handedness-validity flag. *)
Definition with_hand_type_valid (item : sample) (valid : Z) : sample :=
  {| image_file := image_file item;
     center := center item;
     scale := scale item;
     rotation := rotation item;
     joints_3d := joints_3d item;
     joints_3d_visible := joints_3d_visible item;
     hand_type := hand_type item;
     hand_type_valid := valid;
     rel_root_depth := rel_root_depth item;
     abs_depth := abs_depth item;
     joints_cam := joints_cam item;
     focal := focal item;
     princpt := princpt item;
     dataset := dataset item;
     bbox := bbox item;
     bbox_score := bbox_score item;
     bbox_id := bbox_id item |}.

(** What a sample that fails the condition of the MRRPE branch appends:
    the mask false and a zero placeholder for the prediction and for the
    ground truth. *)
Definition placeholder : bool * list vec3 * list vec3 :=
  (false, [vzero], [vzero]).

(** ** Example data *)

Definition identity33 : mat33 := M33 (V3 1 0 0) (V3 0 1 0) (V3 0 0 1).

(** Stand-ins for the helpers of the base class and for the norm; the norm
    below is the Euclidean one on vectors along one axis. *)
Definition ex_xywh2cs (x y w h padding : Q) : vec2 * vec2 :=
  ((x + w / 2, y + h / 2), (w * padding, h * padding)).

Definition ex_norm (v : vec3) : Q := Qabs (vx v) + Qabs (vy v) + Qabs (vz v).

Definition ex_sort_and_unique_bboxes (kpts : list kpt) : list kpt := kpts.

Definition ex_write_keypoint_results (kpts : list kpt) (res_file : string)
  : io unit :=
  fun w =>
    (Ok tt,
     World ((res_file, Keypoints kpts) :: files w) (log w ++ [EvWrite res_file])).

Definition ex_annotation : annotation :=
  {| ann_bbox := [10; 20; 100; 200];
     ann_joint_valid := repeat 1 42;
     ann_hand_type := "right";
     ann_hand_type_valid := 1%Z |}.

Definition ex_image : image_info :=
  {| img_capture := "0"; img_camera := "400262"; img_frame_idx := "5" |}.

Definition ex_coco : coco_api :=
  {| getAnnIds := fun _ => [7%Z];
     loadAnns := map (fun _ => ex_annotation);
     loadImgs := fun _ => [ex_image] |}.

Definition ex_base : hand_base :=
  {| base_coco := ex_coco;
     base_img_ids := [1%Z];
     base_id2name := [(1%Z, "image5.jpg")];
     base_name2id := [("image5.jpg", 1%Z)];
     base_img_prefix := "data/";
     base_num_joints := 42 |}.

Definition ex_cameras : list (string * camera_table) :=
  [("0", {| campos := [("400262", vzero)];
            camrot := [("400262", identity33)];
            cam_focal := [("400262", (1000, 1000))];
            cam_princpt := [("400262", (320, 240))] |})].

Definition ex_joints : list (string * list (string * list vec3)) :=
  [("0", [("5", repeat (V3 10 20 500) 42)])].

Definition ex_rootnet : list rootnet_entry :=
  [{| rn_annot_id := 7;
      rn_bbox := [12; 22; 90; 180];
      rn_abs_depth := [480; 490] |}].

Definition ex_world : world :=
  {| files := [("cameras.json", Cameras ex_cameras);
               ("joints.json", Joints ex_joints);
               ("rootnet.json", RootnetAnnot ex_rootnet)];
     log := [] |}.

(** A database record with the given hand type, handedness validity and
    identifier, every joint visible. *)
Definition ex_sample (hand : list Z) (valid : Z) (id : Z) : sample :=
  {| image_file := "data/image5.jpg";
     center := (60, 120);
     scale := (125, 250);
     rotation := 0;
     joints_3d := repeat vzero 42;
     joints_3d_visible := repeat (V3 1 1 1) 42;
     hand_type := hand;
     hand_type_valid := valid;
     rel_root_depth := 0;
     abs_depth := [500; 500];
     joints_cam := repeat (V3 10 20 500) 42;
     focal := (1000, 1000);
     princpt := (320, 240);
     dataset := "interhand3d";
     bbox := [10; 20; 100; 200];
     bbox_score := 1;
     bbox_id := id |}.

Definition ex_pred (keypoints : option (list (list Q)))
    (hand : option (list Q)) (rel : option Q) (id : Z) : kpt :=
  {| kp_center := [60; 120];
     kp_scale := [125; 250];
     kp_area := 1;
     kp_score := 1;
     kp_image_id := 1;
     kp_bbox_id := id;
     kp_keypoints := keypoints;
     kp_hand_type := hand;
     kp_hand_type_score := hand;
     kp_rel_root_depth := rel |}.

Definition ex_dataset (samples : list sample) : dataset_obj :=
  {| coco := ex_coco;
     img_ids := [1%Z];
     id2name := [(1%Z, "image5.jpg")];
     name2id := [("image5.jpg", 1%Z)];
     img_prefix := "data/";
     num_joints := 42;
     dataset_name := "interhand3d";
     camera_file := "cameras.json";
     joint_file := "joints.json";
     use_gt_root_depth := true;
     rootnet_result_file := Some "rootnet.json";
     db := samples |}.

(** The handedness scenario: four valid samples, the last one
    mispredicted. *)
Definition scenario_db : list sample :=
  [ex_sample [1; 0]%Z 1 0; ex_sample [0; 1]%Z 1 1;
   ex_sample [1; 1]%Z 1 2; ex_sample [1; 0]%Z 1 3].

Definition scenario_preds : list kpt :=
  [ex_pred None (Some [1; 0]) None 0; ex_pred None (Some [0; 1]) None 1;
   ex_pred None (Some [1; 1]) None 2; ex_pred None (Some [0; 1]) None 3].

Definition results_file : string := "out/result_keypoints.json".

Definition results_world (preds : list kpt) : world :=
  {| files := [(results_file, Keypoints preds)]; log := [] |}.

(** An interacting sample with both wrists visible, the same with a
    handedness label that is not valid, and a full prediction for them. *)
Definition included_sample : sample := ex_sample [1; 1]%Z 1 0.

Definition invalid_label_sample : sample := ex_sample [1; 1]%Z 0 0.

Definition full_pred : kpt :=
  ex_pred (Some (repeat [330; 260; 0] 42)) (Some [1; 1]) (Some 5) 0.

(** Visibility flags with both wrists at zero. *)
Definition flags_example : list Q :=
  repeat 1 20 ++ [0] ++ repeat 1 20 ++ [0].

(** ** Definitions used to state further properties *)

(** A flag that is 0 or 1. *)
Definition binary (v : Q) : Prop := v == 0 \/ v == 1.

(** The wrist of the hand of joint [i]. *)
Definition wrist_of (i : nat) : nat := if (i <? 21)%nat then 20%nat else 41%nat.

(** The output batch of the handedness scenario. *)
Definition scenario_batch : output :=
  {| out_preds := None;
     out_hand_type :=
       Some [[1; 0; 1; 0]; [0; 1; 0; 1]; [1; 1; 1; 1]; [0; 1; 0; 1]];
     out_rel_root_depth := None;
     out_boxes := repeat [60; 120; 125; 250; 1; 1] 4;
     out_image_paths := repeat "data/image5.jpg" 4;
     out_bbox_ids := [0; 1; 2; 3]%Z |}.

(** What the base class leaves for an annotation file without images. *)
Definition ex_empty_base : hand_base :=
  {| base_coco := ex_coco;
     base_img_ids := [];
     base_id2name := [];
     base_name2id := [];
     base_img_prefix := "data/";
     base_num_joints := 42 |}.

(** The files that [_get_db] reads, in the order in which it reads them. *)
Definition db_files (self : dataset_obj) : list string :=
  [camera_file self; joint_file self]
    ++ (if use_gt_root_depth self
        then match rootnet_result_file self with
             | Some path => [path]
             | None => []
             end
        else []).

(** An output batch with the relative root depth alone. *)
Definition depth_only_batch : output :=
  {| out_preds := None;
     out_hand_type := None;
     out_rel_root_depth := Some [[5]];
     out_boxes := [[60; 120; 125; 250; 1; 1]];
     out_image_paths := ["data/image5.jpg"];
     out_bbox_ids := [0%Z] |}.

(** An integer that every platform's [int] array holds: 32 bits. *)
Definition int32 (z : Z) : Prop := (- 2 ^ 31 <= z < 2 ^ 31)%Z.

(** ** The coordinate transforms on IEEE floats

    [_world2cam], [_cam2pixel] and [_pixel2cam] once more, on the floats of
    [SpecFloat]: every operation rounds to nearest, a division by zero
    gives an infinity or NaN, and an overflow gives an infinity, as numpy
    computes them on arrays of one floating-point type.  The format is a
    parameter: [_get_db] calls [_world2cam] and [_cam2pixel] on float32
    arrays, [_report_metric] calls [_pixel2cam] on float64 arrays. *)

Module Fp.

(** A binary floating-point format: the bits of the significand and the
    exponent of the infinities. *)
Record format : Type := Format { prec : Z; emax : Z }.

Definition float32 : format := Format 24 128.
Definition float64 : format := Format 53 1024.

Section Arithmetic.

Variable fmt : format.

Definition fadd : spec_float -> spec_float -> spec_float :=
  SFadd (prec fmt) (emax fmt).
Definition fsub : spec_float -> spec_float -> spec_float :=
  SFsub (prec fmt) (emax fmt).
Definition fmul : spec_float -> spec_float -> spec_float :=
  SFmul (prec fmt) (emax fmt).
Definition fdiv : spec_float -> spec_float -> spec_float :=
  SFdiv (prec fmt) (emax fmt).

(** The float nearest to an integer. *)
Definition of_Z (n : Z) : spec_float :=
  binary_normalize (prec fmt) (emax fmt) n 0 false.

(** The float nearest to [n / d]. *)
Definition of_ratio (n d : Z) : spec_float := fdiv (of_Z n) (of_Z d).

(** A float of another format rounded to this one. *)
Definition cast (x : spec_float) : spec_float :=
  match x with
  | S754_finite s m e => binary_round (prec fmt) (emax fmt) s m e
  | _ => x
  end.

End Arithmetic.

(** The Python literal [1e-8], a double, as the array operation takes it:
    rounded to the format of the array. *)
Definition eps (fmt : format) : spec_float :=
  cast fmt (of_ratio float64 1 100000000).

(** A row of an [N, 3] array of floats, and a pair of intrinsics. *)
Record vec3 : Type := V3 { vx : spec_float; vy : spec_float; vz : spec_float }.

Definition vec2 : Type := (spec_float * spec_float)%type.

(** A 3x3 matrix of floats, by rows. *)
Record mat33 : Type := M33 { row0 : vec3; row1 : vec3; row2 : vec3 }.

(** [_world2cam]: [np.dot(R, world_coord - T)] on a [3, N] array, kept as
    the list of its columns.  [np_dot] is numpy's matrix product: the order
    in which it adds the products is the library's, so it is a parameter
    here and the properties hold for every product. *)
Definition _world2cam (np_dot : mat33 -> list vec3 -> list vec3)
    (fmt : format) (world_coord : list vec3) (R : mat33) (T : vec3)
  : list vec3 :=
  np_dot R
    (map (fun w =>
            V3 (fsub fmt (vx w) (vx T)) (fsub fmt (vy w) (vy T))
               (fsub fmt (vz w) (vz T)))
         world_coord).

(** [_cam2pixel] *)
Definition _cam2pixel (fmt : format) (cam_coord : list vec3) (f c : vec2)
  : list vec3 :=
  map (fun p =>
         V3 (fadd fmt (fmul fmt (fdiv fmt (vx p) (fadd fmt (vz p) (eps fmt)))
                               (fst f))
                      (fst c))
            (fadd fmt (fmul fmt (fdiv fmt (vy p) (fadd fmt (vz p) (eps fmt)))
                               (snd f))
                      (snd c))
            (S754_zero false))
      cam_coord.

(** [_pixel2cam] on an [N, 3] array. *)
Definition _pixel2cam (fmt : format) (pixel_coord : list vec3) (f c : vec2)
  : list vec3 :=
  map (fun p =>
         V3 (fmul fmt (fdiv fmt (fsub fmt (vx p) (fst c)) (fst f)) (vz p))
            (fmul fmt (fdiv fmt (fsub fmt (vy p) (snd c)) (snd f)) (vz p))
            (vz p))
      pixel_coord.

(** A float that is a number, and the rational it stands for. *)
Definition finite (x : spec_float) : bool :=
  match x with
  | S754_zero _ | S754_finite _ _ _ => true
  | _ => false
  end.

Definition val (x : spec_float) : Q :=
  match x with
  | S754_finite s m e => inject_Z (cond_Zopp s (Zpos m)) * 2 ^ e
  | _ => 0
  end.

(** The pixel rows with the camera depth in the third column: the depth
    is carried beside the projection, whose own third column is zero. *)
Definition carry_depth (pixel cam : list vec3) : list vec3 :=
  map (fun p => V3 (vx (fst p)) (vy (fst p)) (vz (snd p))) (combine pixel cam).

(** World to camera, camera to pixel, then pixel to camera with the depth
    carried beside. *)
Definition round_trip (np_dot : mat33 -> list vec3 -> list vec3)
    (fmt : format) (world : list vec3) (R : mat33) (T : vec3) (f c : vec2)
  : list vec3 :=
  let cam := _world2cam np_dot fmt world R T in
  _pixel2cam fmt (carry_depth (_cam2pixel fmt cam f c) cam) f c.

(** The same composition taken literally, without the depth. *)
Definition round_trip_projected (np_dot : mat33 -> list vec3 -> list vec3)
    (fmt : format) (world : list vec3) (R : mat33) (T : vec3) (f c : vec2)
  : list vec3 :=
  _pixel2cam fmt (_cam2pixel fmt (_world2cam np_dot fmt world R T) f c) f c.

(** A float that is +0 or -0; a float that is a zero or NaN. *)
Definition is_zero (x : spec_float) : Prop := exists s, x = S754_zero s.

Definition zero_or_nan (x : spec_float) : Prop :=
  is_zero x \/ x = S754_nan.

(** The float [r] is finite and within the relative error [u] of the exact
    result. *)
Definition rounds (u : Q) (r : spec_float) (exact : Q) : Prop :=
  finite r = true /\ Qabs (val r - exact) <= u * Qabs exact.

(** The seven operations that take the coordinate [v] of a point at depth
    [z] to the pixel and back, each on finite operands and each returning
    a finite float within the relative error [u] of the exact result on its
    operands. *)
Definition accurate (fmt : format) (u : Q) (v z f c : spec_float) : Prop :=
  let d := fadd fmt z (eps fmt) in
  let q := fdiv fmt v d in
  let m := fmul fmt q f in
  let p := fadd fmt m c in
  let s := fsub fmt p c in
  let t := fdiv fmt s f in
  let r := fmul fmt t z in
  (finite v = true /\ finite z = true /\ finite f = true /\ finite c = true) /\
  rounds u d (val z + val (eps fmt)) /\
  rounds u q (val v / val d) /\
  rounds u m (val q * val f) /\
  rounds u p (val m + val c) /\
  rounds u s (val p - val c) /\
  rounds u t (val s / val f) /\
  rounds u r (val t * val z).

(** A float with a full significand: not zero, subnormal, infinite or
    NaN. *)
Definition normal (fmt : format) (x : spec_float) : bool :=
  match x with
  | S754_finite _ m _ => Z.eqb (Zpos (digits2_pos m)) (prec fmt)
  | _ => false
  end.

(** The result [r] of an operation whose exact result is [exact] has
    neither overflowed nor underflowed: it is normal, or it is finite and
    exact. *)
Definition settled (fmt : format) (r : spec_float) (exact : Q) : Prop :=
  normal fmt r = true \/ (finite r = true /\ val r == exact).

(** The seven operations of [accurate] on finite operands, each with a
    result that is normal or exact. *)
Definition in_range (fmt : format) (v z f c : spec_float) : Prop :=
  let d := fadd fmt z (eps fmt) in
  let q := fdiv fmt v d in
  let m := fmul fmt q f in
  let p := fadd fmt m c in
  let s := fsub fmt p c in
  let t := fdiv fmt s f in
  let r := fmul fmt t z in
  (finite v = true /\ finite z = true /\ finite f = true /\ finite c = true) /\
  settled fmt d (val z + val (eps fmt)) /\
  settled fmt q (val v / val d) /\
  settled fmt m (val q * val f) /\
  settled fmt p (val m + val c) /\
  settled fmt s (val p - val c) /\
  settled fmt t (val s / val f) /\
  settled fmt r (val t * val z).

(** A bound on the relative error of an operation whose result is normal:
    twice the unit roundoff [2 ^ - prec] (the result is within half a unit
    in its last place of the exact one). *)
Definition round_off (fmt : format) : Q := 2 ^ (1 - prec fmt).

(** The bound on the error of a coordinate [v] that comes back: the
    accumulated rounding of the seven operations, the rounding of the sum
    with the principal point, which its subtraction does not undo, and the
    shift that [eps] leaves. *)
Definition tolerance (fmt : format) (u : Q) (v z f c : spec_float) : Q :=
  8 * u * Qabs (val v * val z / (val z + val (eps fmt)))
  + 2 * u * Qabs (val c * val z / val f)
  + Qabs (val v * val (eps fmt) / (val z + val (eps fmt))).

(** What the round trip returns for the camera-space point [p]: its depth,
    its x and y within [tolerance] when the operations on them are
    [in_range], and zero or NaN for x and y when its depth is zero. *)
Definition recovered (fmt : format) (f c : vec2) (p q : vec3) : Prop :=
  vz q = vz p /\
  (in_range fmt (vx p) (vz p) (fst f) (fst c) ->
   Qabs (val (vx q) - val (vx p))
   <= tolerance fmt (round_off fmt) (vx p) (vz p) (fst f) (fst c)) /\
  (in_range fmt (vy p) (vz p) (snd f) (snd c) ->
   Qabs (val (vy q) - val (vy p))
   <= tolerance fmt (round_off fmt) (vy p) (vz p) (snd f) (snd c)) /\
  (is_zero (vz p) -> zero_or_nan (vx q) /\ zero_or_nan (vy q)).

(** What the composition without the carried depth returns. *)
Definition collapsed (q : vec3) : Prop :=
  vz q = S754_zero false /\ zero_or_nan (vx q) /\ zero_or_nan (vy q).

End Fp.

(** ** Example data in float32 *)

(** A matrix product that adds the products of a row from left to right,
    the identity matrix and the origin. *)
Definition ex_np_dot (fmt : Fp.format) (R : Fp.mat33) (a : list Fp.vec3)
  : list Fp.vec3 :=
  let dot r v :=
    Fp.fadd fmt
      (Fp.fadd fmt (Fp.fmul fmt (Fp.vx r) (Fp.vx v))
                   (Fp.fmul fmt (Fp.vy r) (Fp.vy v)))
      (Fp.fmul fmt (Fp.vz r) (Fp.vz v)) in
  map (fun v => Fp.V3 (dot (Fp.row0 R) v) (dot (Fp.row1 R) v) (dot (Fp.row2 R) v))
      a.

Definition ex_identity32 : Fp.mat33 :=
  let o := Fp.of_Z Fp.float32 1 in
  let z := S754_zero false in
  Fp.M33 (Fp.V3 o z z) (Fp.V3 z o z) (Fp.V3 z z o).

Definition ex_origin32 : Fp.vec3 :=
  Fp.V3 (S754_zero false) (S754_zero false) (S754_zero false).

(** The point (10.1, 20.2, 513.7) with the focal length 1500 and the
    principal point 320.5, and the point (1, 1, 0). *)
Definition ex_point32 : Fp.vec3 :=
  Fp.V3 (Fp.of_ratio Fp.float32 101 10) (Fp.of_ratio Fp.float32 202 10)
        (Fp.of_ratio Fp.float32 5137 10).

Definition ex_focal32 : Fp.vec2 :=
  (Fp.of_Z Fp.float32 1500, Fp.of_Z Fp.float32 1500).

Definition ex_princpt32 : Fp.vec2 :=
  (Fp.of_ratio Fp.float32 3205 10, Fp.of_ratio Fp.float32 3205 10).

Definition ex_flat_point32 : Fp.vec3 :=
  Fp.V3 (Fp.of_Z Fp.float32 1) (Fp.of_Z Fp.float32 1) (S754_zero false).

(** * Properties *)

Unset Implicit Arguments.

(** ** Results and lists *)

Lemma bind_ok_inv {A B} (m : result A) (k : A -> result B) (b : B) :
  bind m k = Ok b -> exists a, m = Ok a /\ k a = Ok b.
Proof. destruct m as [a|e]; simpl; [eauto | discriminate]. Qed.

Ltac bind_inv H :=
  let a := fresh "v" in
  let Ha := fresh "Hv" in
  apply bind_ok_inv in H; destruct H as (a & Ha & H).

Lemma getitem_nth {A} (l : list A) (i : nat) (d : A) :
  (i < List.length l)%nat -> getitem l i = Ok (nth i l d).
Proof.
  intro H. unfold getitem.
  rewrite (nth_error_nth' l d H). reflexivity.
Qed.

Lemma nth_map_in_range {A B} (g : A -> B) (l : list A) (d : A) (d' : B)
    (i : nat) :
  (i < List.length l)%nat -> nth i (map g l) d' = g (nth i l d).
Proof.
  revert i. induction l as [|x l IH]; intros i H; simpl in H; [lia|].
  destruct i; simpl; [reflexivity | apply IH; lia].
Qed.

Lemma map_fst_combine {A B} (l : list A) (l' : list B) :
  List.length l = List.length l' -> map fst (combine l l') = l.
Proof.
  revert l'. induction l as [|a l IH]; intros [|b l'] H; simpl in H;
    try discriminate; [reflexivity|].
  simpl. rewrite IH by lia. reflexivity.
Qed.

Lemma map_snd_combine {A B} (l : list A) (l' : list B) :
  List.length l = List.length l' -> map snd (combine l l') = l'.
Proof.
  revert l'. induction l as [|a l IH]; intros [|b l'] H; simpl in H;
    try discriminate; [reflexivity|].
  simpl. rewrite IH by lia. reflexivity.
Qed.

Lemma str_in_In (k : string) (l : list string) : str_in k l = true <-> In k l.
Proof.
  unfold str_in. rewrite existsb_exists. split.
  - intros (x & Hx & Heq). apply String.eqb_eq in Heq. subst x. exact Hx.
  - intro H. exists k. split; [exact H | apply String.eqb_refl].
Qed.

(** ** Slices updated in place *)

Lemma nth_on_slice {A} (g : A -> A) (d : A) (a : list A) :
  forall lo hi i,
    nth i (on_slice g a lo hi) d
    = if andb (lo <=? i)%nat (andb (i <? hi)%nat (i <? List.length a)%nat)
      then g (nth i a d) else nth i a d.
Proof.
  unfold on_slice.
  induction a as [|x a IH]; intros lo hi i.
  - rewrite firstn_nil, !skipn_nil, firstn_nil. simpl.
    destruct i; simpl; rewrite !andb_false_r; reflexivity.
  - destruct lo as [|lo].
    + rewrite Nat.sub_0_r, Nat.max_0_l. simpl firstn at 1. simpl skipn at 1.
      simpl app at 1.
      destruct hi as [|hi].
      * simpl. destruct i; reflexivity.
      * simpl firstn. simpl skipn. simpl map.
        destruct i as [|i]; [reflexivity|].
        simpl nth. specialize (IH 0%nat hi i).
        rewrite Nat.sub_0_r, Nat.max_0_l in IH. simpl firstn in IH.
        simpl skipn in IH. simpl app in IH. rewrite IH. reflexivity.
    + destruct i as [|i]; [reflexivity|].
      simpl firstn. simpl nth at 1.
      destruct hi as [|hi].
      * specialize (IH lo 0%nat i). simpl in IH.
        rewrite Nat.max_0_r in IH. simpl. rewrite IH.
        rewrite andb_false_r. reflexivity.
      * simpl. apply IH.
Qed.

Lemma length_on_slice {A} (g : A -> A) (a : list A) (lo hi : nat) :
  List.length (on_slice g a lo hi) = List.length a.
Proof.
  unfold on_slice.
  rewrite !length_app, length_map, !length_firstn, !length_skipn. lia.
Qed.

(** ** Hand-type labels *)

(** C7: the labels right, left and interacting map to [1,0], [0,1] and
    [1,1]; every other label raises an AssertionError, no default is
    returned. *)
Theorem process_handtype_mapping :
  _process_handtype "right" = Ok [1; 0]%Z /\
  _process_handtype "left" = Ok [0; 1]%Z /\
  _process_handtype "interacting" = Ok [1; 1]%Z /\
  (forall label : string,
      label <> "right" -> label <> "left" -> label <> "interacting" ->
      _process_handtype label = Raise AssertionError).
Proof.
  split; [reflexivity|]. split; [reflexivity|]. split; [reflexivity|].
  intros label Hr Hl Hi. unfold _process_handtype.
  destruct (String.eqb_spec label "right"); [contradiction|].
  destruct (String.eqb_spec label "left"); [contradiction|].
  destruct (String.eqb_spec label "interacting"); [contradiction|].
  reflexivity.
Qed.

Lemma process_handtype_mapping_witness :
  _process_handtype "Right" = Raise AssertionError.
Proof.
  apply (proj2 (proj2 (proj2 process_handtype_mapping))); discriminate.
Defined.

(** ** Root validity *)

Lemma propagate_root_validity_eq (joint_valid : list Q) :
  (42 <= List.length joint_valid)%nat ->
  propagate_root_validity joint_valid
  = Ok (imul_slice (imul_slice joint_valid 0 20 (nth 20 joint_valid 0))
          21 (List.length joint_valid) (nth 41 joint_valid 0)).
Proof.
  intro H. unfold propagate_root_validity.
  rewrite (getitem_nth joint_valid 20 0) by lia. simpl bind.
  rewrite (getitem_nth _ 41 0)
    by (unfold imul_slice; rewrite length_on_slice; lia).
  simpl bind.
  assert (Hl : List.length (imul_slice joint_valid 0 20 (nth 20 joint_valid 0))
               = List.length joint_valid)
    by (unfold imul_slice; apply length_on_slice).
  assert (Hn : nth 41 (imul_slice joint_valid 0 20 (nth 20 joint_valid 0)) 0
               = nth 41 joint_valid 0)
    by (unfold imul_slice; rewrite nth_on_slice; reflexivity).
  rewrite Hl, Hn. reflexivity.
Qed.

Lemma nth_propagated (joint_valid : list Q) (i : nat) :
  (42 <= List.length joint_valid)%nat -> (i < List.length joint_valid)%nat ->
  nth i (imul_slice (imul_slice joint_valid 0 20 (nth 20 joint_valid 0))
           21 (List.length joint_valid) (nth 41 joint_valid 0)) 0
  = if (i <? 20)%nat then nth i joint_valid 0 * nth 20 joint_valid 0
    else if (i =? 20)%nat then nth i joint_valid 0
    else nth i joint_valid 0 * nth 41 joint_valid 0.
Proof.
  intros H Hi. unfold imul_slice.
  rewrite !nth_on_slice, !length_on_slice.
  destruct (Nat.ltb_spec i 20); destruct (Nat.eqb_spec i 20);
    destruct (Nat.leb_spec 21 i);
    destruct (Nat.ltb_spec i (List.length joint_valid));
    destruct (Nat.leb_spec 0 i); simpl; try reflexivity; try lia.
Qed.

(** C6: for a visibility array of 42 flags, the propagation returns an
    array; if the right wrist's flag (index 20) is 0, the flags 0-20 are 0
    afterwards, and if the left wrist's flag (index 41) is 0, the flags
    21-41 are 0 afterwards, whatever they were; the rows that
    [joints_3d_visible] takes from them are 0 as well. *)
Theorem root_validity_propagates (joint_valid : list Q) :
  List.length joint_valid = 42%nat ->
  exists jv rows,
    propagate_root_validity joint_valid = Ok jv /\
    visible_rows 42 jv = Ok rows /\
    (nth 20 joint_valid 0 == 0 ->
     forall i, (i <= 20)%nat ->
          nth i jv 0 == 0 /\ veq (nth i rows vzero) vzero) /\
    (nth 41 joint_valid 0 == 0 ->
     forall i, (21 <= i <= 41)%nat ->
          nth i jv 0 == 0 /\ veq (nth i rows vzero) vzero).
Proof.
  intro Hlen.
  assert (H42 : (42 <= List.length joint_valid)%nat) by lia.
  eexists. eexists. split; [apply propagate_root_validity_eq; exact H42|].
  set (jv := imul_slice _ _ _ _).
  assert (Hjv : List.length jv = 42%nat).
  { unfold jv, imul_slice. rewrite !length_on_slice. exact Hlen. }
  split.
  { unfold visible_rows. rewrite Hjv. reflexivity. }
  assert (Hrow : forall i, (i < 42)%nat -> nth i jv 0 == 0 ->
            veq (nth i (map (fun v => let m := Qmin 1 v in V3 m m m) jv) vzero)
                vzero).
  { intros i Hi Hz.
    rewrite (nth_map_in_range _ jv 0) by lia.
    assert (Hm : Qmin 1 (nth i jv 0) == 0).
    { rewrite Q.min_r; [exact Hz|]. rewrite Hz. discriminate. }
    repeat split; exact Hm. }
  assert (Hnth : forall i, (i < 42)%nat -> nth i jv 0 =
            if (i <? 20)%nat then nth i joint_valid 0 * nth 20 joint_valid 0
            else if (i =? 20)%nat then nth i joint_valid 0
            else nth i joint_valid 0 * nth 41 joint_valid 0).
  { intros i Hi. apply nth_propagated; lia. }
  split.
  - intros Hroot i Hi.
    assert (Hz : nth i jv 0 == 0).
    { rewrite Hnth by lia.
      destruct (Nat.ltb_spec i 20).
      - rewrite Hroot. ring.
      - assert (i = 20%nat) by lia. subst i. exact Hroot. }
    split; [exact Hz | apply Hrow; [lia | exact Hz]].
  - intros Hroot i Hi.
    assert (Hz : nth i jv 0 == 0).
    { rewrite Hnth by lia.
      destruct (Nat.ltb_spec i 20); [lia|].
      destruct (Nat.eqb_spec i 20); [lia|].
      rewrite Hroot. ring. }
    split; [exact Hz | apply Hrow; [lia | exact Hz]].
Qed.

Lemma root_validity_propagates_witness :
  exists jv rows,
    propagate_root_validity flags_example = Ok jv /\
    visible_rows 42 jv = Ok rows /\
    (nth 3 jv 0 == 0 /\ veq (nth 3 rows vzero) vzero) /\
    (nth 30 jv 0 == 0 /\ veq (nth 30 rows vzero) vzero).
Proof.
  destruct (root_validity_propagates flags_example eq_refl)
    as (jv & rows & Hjv & Hrows & Hright & Hleft).
  exists jv, rows. split; [exact Hjv|]. split; [exact Hrows|]. split.
  - apply Hright; [reflexivity | lia].
  - apply Hleft; [reflexivity | lia].
Defined.

(** ** The coordinate round trip *)

(** *** The error of a chain of rounded operations

    [u] bounds the relative error of one operation. *)

Section Chain.

Variable u : Q.
Hypothesis u_nonneg : 0 <= u.
Hypothesis u_small : u <= 1 # 100.

(** One more rounded operation on a value [v] that approximates [V] with
    the relative error [R] and the absolute error [A]. *)
Lemma after_rounding (w v V R A : Q) :
  0 <= R -> 0 <= A ->
  Qabs (w - v) <= u * Qabs v ->
  Qabs (v - V) <= R * Qabs V + A ->
  Qabs (w - V) <= (R + u + u * R) * Qabs V + (1 + u) * A.
Proof.
  intros HR HA Hw Hv.
  assert (H1 : Qabs (w - V) <= Qabs (w - v) + Qabs (v - V)).
  { setoid_replace (w - V) with ((w - v) + (v - V)) by ring.
    apply Qabs_triangle. }
  assert (H2 : Qabs v <= Qabs V + Qabs (v - V)).
  { pose proof (Qabs_triangle_reverse v V). lra. }
  pose proof (Qabs_nonneg V) as H3.
  pose proof (Qabs_nonneg v) as H4.
  nra.
Qed.

Lemma scaled (v V k R A : Q) :
  Qabs (v - V) <= R * Qabs V + A ->
  Qabs (v * k - V * k) <= R * Qabs (V * k) + A * Qabs k.
Proof.
  intro H.
  setoid_replace (v * k - V * k) with ((v - V) * k) by ring.
  rewrite !Qabs_Qmult.
  pose proof (Qabs_nonneg k). nra.
Qed.

(** A quotient whose divisor was rounded. *)
Lemma quotient_of_rounded (X D D0 : Q) :
  ~ D == 0 ->
  Qabs (D - D0) <= u * Qabs D0 ->
  Qabs (X / D - X / D0) <= ((100 # 99) * u) * Qabs (X / D0).
Proof.
  intros HD Hr.
  assert (HD0 : ~ D0 == 0).
  { intro H0. apply HD. rewrite H0 in Hr.
    setoid_replace (D - 0) with D in Hr by ring.
    change (Qabs 0) with 0 in Hr.
    pose proof (Qabs_nonneg D) as Hn.
    assert (Hz : Qabs D == 0) by lra.
    destruct (Qabs_Qle_condition D 0) as [Hc _].
    assert (Hle : Qabs D <= 0) by lra.
    specialize (Hc Hle). lra. }
  assert (HaD : 0 < Qabs D).
  { pose proof (Qabs_nonneg D) as Hn.
    destruct (Qlt_le_dec 0 (Qabs D)) as [Hlt|Hle]; [exact Hlt|].
    exfalso. apply HD.
    destruct (Qabs_Qle_condition D 0) as [Hc _]. specialize (Hc Hle). lra. }
  assert (Htri : Qabs D0 <= Qabs D + Qabs (D - D0)).
  { pose proof (Qabs_triangle_reverse D0 D) as Ht.
    rewrite (Qabs_Qminus D0 D) in Ht. lra. }
  assert (Hrel : Qabs (D - D0) <= (100 # 99) * u * Qabs D).
  { pose proof (Qabs_nonneg D0) as Hn0.
    assert (Ht : 0 <= u * Qabs D0) by nra.
    assert (Hut : u * (u * Qabs D0) <= (1 # 100) * (u * Qabs D0)) by nra.
    assert (Hua : u * Qabs D0 <= u * Qabs D + u * (u * Qabs D0)) by nra.
    lra. }
  assert (Hq : Qabs ((D0 - D) / D) <= (100 # 99) * u).
  { unfold Qdiv. rewrite Qabs_Qmult, Qabs_Qinv.
    apply Qle_shift_div_r; [exact HaD|].
    rewrite (Qabs_Qminus D0 D). exact Hrel. }
  setoid_replace (X / D - X / D0) with ((X / D0) * ((D0 - D) / D))
    by (field; split; assumption).
  rewrite Qabs_Qmult.
  pose proof (Qabs_nonneg (X / D0)).
  pose proof (Qabs_nonneg ((D0 - D) / D)).
  nra.
Qed.

Lemma weaken (a n R A R' A' : Q) :
  0 <= n -> a <= R * n + A -> R <= R' -> A <= A' -> a <= R' * n + A'.
Proof. intros. nra. Qed.

(** The seven operations from a camera coordinate [X] at depth [Z] to the
    pixel and back, on rationals: [D], [Q0], [M], [P], [S], [T] and [X']
    are the rounded results. *)
Lemma recovered_within (X Z E F C D Q0 M P S T X' : Q) :
  ~ F == 0 -> ~ D == 0 ->
  Qabs (D - (Z + E)) <= u * Qabs (Z + E) ->
  Qabs (Q0 - X / D) <= u * Qabs (X / D) ->
  Qabs (M - Q0 * F) <= u * Qabs (Q0 * F) ->
  Qabs (P - (M + C)) <= u * Qabs (M + C) ->
  Qabs (S - (P - C)) <= u * Qabs (P - C) ->
  Qabs (T - S / F) <= u * Qabs (S / F) ->
  Qabs (X' - T * Z) <= u * Qabs (T * Z) ->
  Qabs (X' - X)
  <= 8 * u * Qabs (X * Z / (Z + E)) + 2 * u * Qabs (C * Z / F)
     + Qabs (X * E / (Z + E)).
Proof.
  intros HF HD HrD HrQ HrM HrP HrS HrT HrX.
  assert (HD0 : ~ Z + E == 0).
  { intro H0. apply HD. rewrite H0 in HrD.
    change (Qabs 0) with 0 in HrD.
    setoid_replace (D - 0) with D in HrD by ring.
    destruct (Qabs_Qle_condition D 0) as [Hc _].
    assert (Hle : Qabs D <= 0) by lra. specialize (Hc Hle). lra. }
  set (V1 := X / (Z + E)).
  set (V2 := V1 * F).
  (* the quotient *)
  assert (H1 : Qabs (Q0 - V1) <= (21 # 10) * u * Qabs V1 + 0).
  { pose proof (quotient_of_rounded X D (Z + E) HD HrD) as Hq. fold V1 in Hq.
    assert (Hq' : Qabs (X / D - V1) <= (100 # 99) * u * Qabs V1 + 0) by lra.
    assert (HR : 0 <= (100 # 99) * u) by lra.
    pose proof (after_rounding Q0 (X / D) V1 _ 0 HR (Qle_refl 0) HrQ Hq') as Ha.
    apply (weaken _ _ _ _ _ _ (Qabs_nonneg V1) Ha); nra. }
  (* times the focal length *)
  assert (H2 : Qabs (M - V2) <= (32 # 10) * u * Qabs V2 + 0).
  { pose proof (scaled Q0 V1 F _ _ H1) as Hs. fold V2 in Hs.
    assert (Hs' : Qabs (Q0 * F - V2) <= (21 # 10) * u * Qabs V2 + 0) by lra.
    assert (HR : 0 <= (21 # 10) * u) by lra.
    pose proof (after_rounding M (Q0 * F) V2 _ 0 HR (Qle_refl 0) HrM Hs') as Ha.
    apply (weaken _ _ _ _ _ _ (Qabs_nonneg V2) Ha); nra. }
  (* plus the principal point, and minus it again *)
  assert (H3 : Qabs (P - C - V2) <= (43 # 10) * u * Qabs V2 + u * Qabs C).
  { assert (Ht : Qabs (P - C - V2) <= Qabs (P - (M + C)) + Qabs (M - V2)).
    { setoid_replace (P - C - V2) with ((P - (M + C)) + (M - V2)) by ring.
      apply Qabs_triangle. }
    assert (Hm : Qabs (M + C) <= Qabs V2 + Qabs (M - V2) + Qabs C).
    { pose proof (Qabs_triangle M C). pose proof (Qabs_triangle_reverse M V2).
      lra. }
    pose proof (Qabs_nonneg V2). pose proof (Qabs_nonneg C).
    assert (Huv : 0 <= u * Qabs V2) by nra.
    assert (Huuv : u * (u * Qabs V2) <= (1 # 100) * (u * Qabs V2)) by nra.
    nra. }
  assert (H4 : Qabs (S - V2)
               <= (54 # 10) * u * Qabs V2 + (101 # 100) * u * Qabs C).
  { assert (HR : 0 <= (43 # 10) * u) by lra.
    assert (HA : 0 <= u * Qabs C) by (pose proof (Qabs_nonneg C); nra).
    pose proof (after_rounding S (P - C) V2 _ _ HR HA HrS H3) as Ha.
    apply (weaken _ _ _ _ _ _ (Qabs_nonneg V2) Ha); [nra|].
    pose proof (Qabs_nonneg C). nra. }
  (* over the focal length *)
  assert (H5 : Qabs (T - V2 * / F)
               <= (65 # 10) * u * Qabs (V2 * / F)
                  + (103 # 100) * u * Qabs C * Qabs (/ F)).
  { pose proof (scaled S V2 (/ F) _ _ H4) as Hs.
    assert (HR : 0 <= (54 # 10) * u) by lra.
    pose proof (Qabs_nonneg C) as HC. pose proof (Qabs_nonneg (/ F)) as HiF.
    assert (HCF : 0 <= Qabs C * Qabs (/ F)) by nra.
    assert (HA : 0 <= (101 # 100) * u * Qabs C * Qabs (/ F)) by nra.
    pose proof (after_rounding T (S * / F) (V2 * / F) _ _ HR HA HrT Hs) as Ha.
    apply (weaken _ _ _ _ _ _ (Qabs_nonneg (V2 * / F)) Ha); [nra|].
    assert (HuCF : 0 <= u * (Qabs C * Qabs (/ F))) by nra.
    nra. }
  (* times the depth *)
  assert (H6 : Qabs (X' - V2 * / F * Z)
               <= (76 # 10) * u * Qabs (V2 * / F * Z)
                  + (105 # 100) * u * Qabs C * Qabs (/ F) * Qabs Z).
  { pose proof (scaled T (V2 * / F) Z _ _ H5) as Hs.
    assert (HR : 0 <= (65 # 10) * u) by lra.
    pose proof (Qabs_nonneg C) as HC. pose proof (Qabs_nonneg (/ F)) as HiF.
    pose proof (Qabs_nonneg Z) as HZ.
    assert (HCF : 0 <= Qabs C * Qabs (/ F)) by nra.
    assert (HCFZ : 0 <= Qabs C * Qabs (/ F) * Qabs Z) by nra.
    assert (HA : 0 <= (103 # 100) * u * Qabs C * Qabs (/ F) * Qabs Z) by nra.
    pose proof (after_rounding X' (T * Z) (V2 * / F * Z) _ _ HR HA HrX Hs) as Ha.
    apply (weaken _ _ _ _ _ _ (Qabs_nonneg (V2 * / F * Z)) Ha); [nra|].
    assert (HuCFZ : 0 <= u * (Qabs C * Qabs (/ F) * Qabs Z)) by nra.
    nra. }
  assert (HV : V2 * / F * Z == X * Z / (Z + E)).
  { unfold V2, V1. field. split; assumption. }
  assert (HCZ : Qabs (C * Z / F) == Qabs C * Qabs (/ F) * Qabs Z).
  { setoid_replace (C * Z / F) with (C * / F * Z) by (field; assumption).
    rewrite !Qabs_Qmult. reflexivity. }
  rewrite HV in H6.
  assert (Hfin : Qabs (X' - X)
                 <= Qabs (X' - X * Z / (Z + E)) + Qabs (X * E / (Z + E))).
  { setoid_replace (X' - X)
      with ((X' - X * Z / (Z + E)) + - (X * E / (Z + E)))
      by (field; assumption).
    rewrite <- (Qabs_opp (X * E / (Z + E))). apply Qabs_triangle. }
  pose proof (Qabs_nonneg (X * Z / (Z + E))).
  pose proof (Qabs_nonneg C) as HC. pose proof (Qabs_nonneg (/ F)) as HiF.
  pose proof (Qabs_nonneg Z) as HZ.
  assert (HCF : 0 <= Qabs C * Qabs (/ F)) by nra.
  assert (HCFZ : 0 <= Qabs C * Qabs (/ F) * Qabs Z) by nra.
  assert (HuCFZ : 0 <= u * (Qabs C * Qabs (/ F) * Qabs Z)) by nra.
  rewrite HCZ. nra.
Qed.

End Chain.

(** *** Rounding to nearest in [SpecFloat]

    The value that an operation rounds is followed through the shifts of
    [binary_round_aux] as a bracket: the significand [m] at the exponent
    [e] with the location [l] stands for a rational [x] between [m 2^e]
    and [(m+1) 2^e]. *)

Definition pow2 (e : Z) : Q := 2 ^ e.

Lemma pow2_pos (e : Z) : 0 < pow2 e.
Proof. apply Qpower_0_lt. reflexivity. Qed.

Lemma pow2_plus (a b : Z) : pow2 (a + b) == pow2 a * pow2 b.
Proof. apply Qpower_plus. discriminate. Qed.

Lemma pow2_succ (e : Z) : pow2 (e + 1) == 2 * pow2 e.
Proof. rewrite pow2_plus. change (pow2 1) with 2. ring. Qed.

Lemma inject_pow2 (n : Z) : (0 <= n)%Z -> inject_Z (2 ^ n) == pow2 n.
Proof. intro H. unfold pow2. rewrite Zpower_Qpower by exact H. reflexivity. Qed.

Definition bracket (m e : Z) (l : location) (x : Q) : Prop :=
  match l with
  | loc_Exact => x == inject_Z m * pow2 e
  | loc_Inexact c =>
      inject_Z m * pow2 e < x /\ x < (inject_Z m + 1) * pow2 e /\
      (x ?= (inject_Z m + (1 # 2)) * pow2 e) = c
  end.

Lemma inject_xO (p : positive) : inject_Z (Zpos p~0) == 2 * inject_Z (Zpos p).
Proof. rewrite Pos2Z.inj_xO, inject_Z_mult. reflexivity. Qed.

Lemma inject_xI (p : positive) :
  inject_Z (Zpos p~1) == 2 * inject_Z (Zpos p) + 1.
Proof. rewrite Pos2Z.inj_xI, inject_Z_plus, inject_Z_mult. reflexivity. Qed.

Lemma cmp_lt (a b : Q) : a < b -> (a ?= b) = Lt.
Proof. apply Qlt_alt. Qed.

Lemma cmp_eq (a b : Q) : a == b -> (a ?= b) = Eq.
Proof. apply Qeq_alt. Qed.

Lemma cmp_gt (a b : Q) : b < a -> (a ?= b) = Gt.
Proof. apply Qgt_alt. Qed.

Lemma cmp_cases (a b : Q) (c : comparison) :
  (a ?= b) = c ->
  match c with Lt => a < b | Eq => a == b | Gt => b < a end.
Proof.
  intros <-. destruct (a ?= b) eqn:E.
  - apply Qeq_alt. exact E.
  - apply Qlt_alt. exact E.
  - apply Qgt_alt. exact E.
Qed.

Lemma shr_1_bracket (mrs : shr_record) (e : Z) (x : Q) :
  (0 <= shr_m mrs)%Z ->
  bracket (shr_m mrs) e (loc_of_shr_record mrs) x ->
  (0 <= shr_m (shr_1 mrs))%Z /\
  bracket (shr_m (shr_1 mrs)) (e + 1) (loc_of_shr_record (shr_1 mrs)) x.
Proof.
  destruct mrs as [m r s]. cbn [shr_m]. intros Hm H.
  pose proof (pow2_pos e) as Hp. pose proof (pow2_succ e) as Hs.
  destruct m as [|[p|p|]|p]; try lia;
    destruct r, s; cbn [shr_1 shr_m loc_of_shr_record orb bracket] in *;
    (split; [lia|]);
    try rewrite inject_xO in H; try rewrite inject_xI in H;
    rewrite ?Hs;
    repeat match goal with H : _ /\ _ |- _ => destruct H end;
    repeat match goal with
           | H : (_ ?= _) = _ |- _ => apply cmp_cases in H; cbv iota in H
           end;
    change (inject_Z 0) with 0 in *; change (inject_Z 1) with 1 in *;
    repeat split;
    try apply cmp_lt; try apply cmp_eq; try apply cmp_gt;
    lra.
Qed.

(** Shifts keep the bracket. *)

Definition held (mrs : shr_record) (e : Z) (x : Q) : Prop :=
  (0 <= shr_m mrs)%Z /\ bracket (shr_m mrs) e (loc_of_shr_record mrs) x.

Lemma iter_shr_1_held (n : positive) :
  forall (mrs : shr_record) (e : Z) (x : Q),
    held mrs e x -> held (iter_pos shr_1 n mrs) (e + Zpos n) x.
Proof.
  induction n as [n IH|n IH|]; intros mrs e x [Hm Hb]; cbn [iter_pos].
  - replace (e + Zpos n~1)%Z with (e + 1 + Zpos n + Zpos n)%Z by lia.
    apply IH, IH. apply shr_1_bracket; assumption.
  - replace (e + Zpos n~0)%Z with (e + Zpos n + Zpos n)%Z by lia.
    apply IH, IH. split; assumption.
  - apply shr_1_bracket; assumption.
Qed.

Lemma shr_held (mrs : shr_record) (e n : Z) (x : Q) :
  held mrs e x ->
  held (fst (shr mrs e n)) (snd (shr mrs e n)) x /\
  (e <= snd (shr mrs e n))%Z.
Proof.
  intro H. destruct n as [|p|p]; cbn [shr fst snd].
  - split; [exact H | lia].
  - split; [apply iter_shr_1_held; exact H | lia].
  - split; [exact H | lia].
Qed.

Lemma loc_of_record_of_loc (m : Z) (l : location) :
  loc_of_shr_record (shr_record_of_loc m l) = l /\
  shr_m (shr_record_of_loc m l) = m.
Proof. destruct l as [|[| |]]; split; reflexivity. Qed.

Lemma shr_fexp_held (prec emax m e : Z) (l : location) (x : Q) :
  (0 <= m)%Z -> bracket m e l x ->
  held (fst (shr_fexp prec emax m e l)) (snd (shr_fexp prec emax m e l)) x /\
  (e <= snd (shr_fexp prec emax m e l))%Z.
Proof.
  intros Hm Hb. unfold shr_fexp. apply shr_held.
  destruct (loc_of_record_of_loc m l) as [Hl Hr].
  unfold held. rewrite Hl, Hr. split; assumption.
Qed.

(** Rounding to nearest is within half a unit of the bracket. *)

Lemma round_nearest_even_close (m e : Z) (l : location) (x : Q) :
  (0 <= m)%Z -> bracket m e l x ->
  (0 <= round_nearest_even m l)%Z /\
  Qabs (inject_Z (round_nearest_even m l) * pow2 e - x) <= (1 # 2) * pow2 e.
Proof.
  intros Hm Hb. pose proof (pow2_pos e) as Hp.
  destruct l as [|c]; cbn [bracket round_nearest_even] in *.
  - split; [exact Hm|]. apply Qabs_Qle_condition. lra.
  - destruct Hb as (Hlo & Hhi & Hc). apply cmp_cases in Hc.
    destruct c; cbv iota in Hc.
    + destruct (Z.even m); (split; [lia|]);
        rewrite ?inject_Z_plus; change (inject_Z 1) with 1;
        apply Qabs_Qle_condition; lra.
    + split; [exact Hm|]. apply Qabs_Qle_condition. lra.
    + split; [lia|]. rewrite inject_Z_plus. change (inject_Z 1) with 1.
      apply Qabs_Qle_condition. lra.
Qed.

Lemma pow2_le (a b : Z) : (a <= b)%Z -> pow2 a <= pow2 b.
Proof.
  intro H. unfold pow2. apply Qpower_le_compat_l; [exact H | discriminate].
Qed.

(** The digits of a significand. *)

Lemma digits2_lower (m : positive) :
  (2 ^ (Zpos (digits2_pos m) - 1) <= Zpos m)%Z.
Proof.
  induction m as [m IH|m IH|]; cbn [digits2_pos]; [| |cbn; lia];
    rewrite Pos2Z.inj_succ;
    replace (Z.succ (Zpos (digits2_pos m)) - 1)%Z
      with (Z.succ (Zpos (digits2_pos m) - 1)) by lia;
    rewrite Z.pow_succ_r by lia; lia.
Qed.

Lemma digits2_upper (m : positive) : (Zpos m < 2 ^ Zpos (digits2_pos m))%Z.
Proof.
  induction m as [m IH|m IH|]; cbn [digits2_pos]; [| |cbn; lia];
    rewrite Pos2Z.inj_succ, Z.pow_succ_r by lia; lia.
Qed.

Lemma Zdigits2_upper (m : Z) : (0 <= m)%Z -> (m < 2 ^ Zdigits2 m)%Z.
Proof.
  intro H. destruct m as [|p|p]; [cbn; lia | apply digits2_upper | lia].
Qed.

Lemma Zdigits2_le (m j : Z) :
  (0 <= m)%Z -> (0 <= j)%Z -> (m < 2 ^ j)%Z -> (Zdigits2 m <= j)%Z.
Proof.
  intros Hm Hj H. destruct m as [|p|p]; [cbn; lia| |lia]. cbn [Zdigits2].
  pose proof (digits2_lower p) as Hl.
  assert (Hlt : (2 ^ (Zpos (digits2_pos p) - 1) < 2 ^ j)%Z) by lia.
  apply Z.pow_lt_mono_r_iff in Hlt; lia.
Qed.

Lemma fexp_mono (prec emax a b : Z) :
  (a <= b)%Z -> (fexp prec emax a <= fexp prec emax b)%Z.
Proof. unfold fexp. lia. Qed.

Lemma fexp_succ (prec emax a : Z) :
  (fexp prec emax (a + 1) <= fexp prec emax a + 1)%Z.
Proof. unfold fexp. lia. Qed.

Lemma shr_fexp_exponent (prec emax m e : Z) (l : location) :
  (fexp prec emax (Zdigits2 m + e) <= snd (shr_fexp prec emax m e l))%Z.
Proof.
  unfold shr_fexp, shr.
  destruct (fexp prec emax (Zdigits2 m + e) - e)%Z eqn:E; cbn [snd]; lia.
Qed.

Lemma bracket_bounds (m e : Z) (l : location) (x : Q) :
  bracket m e l x ->
  inject_Z m * pow2 e <= x /\ x < (inject_Z m + 1) * pow2 e.
Proof.
  pose proof (pow2_pos e). destruct l as [|c]; cbn [bracket].
  - intro Hx. rewrite Hx. split; lra.
  - intros (Hlo & Hhi & _). split; lra.
Qed.

Lemma inject_lt_pow2 (m k : Z) :
  (0 <= k)%Z -> inject_Z m < pow2 k -> (m < 2 ^ k)%Z.
Proof.
  intros Hk H. rewrite <- inject_pow2 in H by exact Hk.
  rewrite <- Zlt_Qlt in H. exact H.
Qed.

Lemma pow_double (k : Z) : (1 <= k)%Z -> (2 ^ k = 2 * 2 ^ (k - 1))%Z.
Proof.
  intro Hk. replace k with (Z.succ (k - 1)) at 1 by lia.
  apply Z.pow_succ_r. lia.
Qed.

(** A power of two with a digit to spare halves exactly. *)
Lemma shr_1_power (k : Z) :
  (1 <= k)%Z ->
  shr_1 (Build_shr_record (2 ^ k) false false)
  = Build_shr_record (2 ^ (k - 1)) false false.
Proof.
  intro Hk. rewrite (pow_double k Hk).
  assert (Hp : (0 < 2 ^ (k - 1))%Z) by (apply Z.pow_pos_nonneg; lia).
  destruct (2 ^ (k - 1))%Z as [|p|p]; try lia. reflexivity.
Qed.

(** The second shift of [binary_round_aux] loses nothing: the rounded
    significand has at most one digit too many, and then it is a power of
    two. *)
Lemma second_shift_exact (prec emax m2 e1 k : Z) (m3 : positive) :
  (0 <= k)%Z -> (0 <= m2 <= 2 ^ k)%Z ->
  (fexp prec emax (k + e1) <= e1)%Z ->
  shr_m (fst (shr_fexp prec emax m2 e1 loc_Exact)) = Zpos m3 ->
  inject_Z (Zpos m3) * pow2 (snd (shr_fexp prec emax m2 e1 loc_Exact))
  == inject_Z m2 * pow2 e1 /\
  (e1 <= snd (shr_fexp prec emax m2 e1 loc_Exact))%Z.
Proof.
  intros Hk Hm2 Hcanon H. unfold shr_fexp in *. cbn [shr_record_of_loc] in *.
  assert (Hdig : (Zdigits2 m2 <= k + 1)%Z).
  { apply Zdigits2_le; [lia|lia|].
    replace (k + 1)%Z with (Z.succ k) by lia. rewrite Z.pow_succ_r by lia. lia. }
  assert (Hn : (fexp prec emax (Zdigits2 m2 + e1) - e1 <= 1)%Z).
  { pose proof (fexp_mono prec emax (Zdigits2 m2 + e1) (k + e1 + 1)).
    pose proof (fexp_succ prec emax (k + e1)). lia. }
  destruct (fexp prec emax (Zdigits2 m2 + e1) - e1)%Z as [|n|n] eqn:En;
    cbn [shr fst snd shr_m] in *.
  - subst m2. split; [reflexivity | lia].
  - assert (n = 1%positive) by lia. subst n. cbn [iter_pos] in *.
    assert (Hpow : m2 = (2 ^ k)%Z).
    { destruct (Z.eq_dec m2 (2 ^ k)) as [Heq|Hne]; [exact Heq|].
      assert (Hlt : (m2 < 2 ^ k)%Z) by lia.
      pose proof (Zdigits2_le m2 k (proj1 Hm2) Hk Hlt).
      pose proof (fexp_mono prec emax (Zdigits2 m2 + e1) (k + e1)). lia. }
    subst m2. destruct (Z.eq_dec k 0) as [->|Hk0].
    + cbn in H. discriminate H.
    + rewrite shr_1_power in * by lia. cbn [shr_m] in H.
      split; [|lia]. rewrite <- H, pow2_succ.
      rewrite (pow_double k) by lia. rewrite inject_Z_mult.
      change (inject_Z 2) with 2. ring.
  - subst m2. split; [reflexivity | lia].
Qed.

(** The rounding of a bracketed value. *)
Lemma binary_round_aux_close (prec emax : Z) (s : bool) (mx ex : Z)
    (lx : location) (x : Q) (s' : bool) (m : positive) (e : Z) :
  (0 <= mx)%Z -> bracket mx ex lx x ->
  binary_round_aux prec emax s mx ex lx = S754_finite s' m e ->
  s' = s /\ Qabs (inject_Z (Zpos m) * pow2 e - x) <= (1 # 2) * pow2 e.
Proof.
  intros Hmx Hb H. unfold binary_round_aux in H.
  destruct (shr_fexp_held prec emax mx ex lx x Hmx Hb) as [[Hm1 Hb1] He1].
  pose proof (shr_fexp_exponent prec emax mx ex lx) as Hcanon.
  destruct (shr_fexp prec emax mx ex lx) as [mrs1 e1]. cbn [fst snd] in *.
  destruct (round_nearest_even_close _ _ _ _ Hm1 Hb1) as [Hm2 Hclose].
  set (m2 := round_nearest_even (shr_m mrs1) (loc_of_shr_record mrs1)) in *.
  (* the size of the value *)
  set (d := Zdigits2 mx) in *.
  destruct (bracket_bounds _ _ _ _ Hb) as [_ Hup].
  destruct (bracket_bounds _ _ _ _ Hb1) as [Hlo1 Hup1].
  pose proof (pow2_pos ex) as Hpex. pose proof (pow2_pos e1) as Hp1.
  assert (Hsize : x < pow2 (d + ex)).
  { pose proof (Zdigits2_upper mx Hmx) as Hd. fold d in Hd.
    assert (Hd' : (mx + 1 <= 2 ^ d)%Z) by lia.
    assert (Hd0 : (0 <= d)%Z) by (unfold d; destruct mx; cbn; lia).
    rewrite Zle_Qle, inject_Z_plus, inject_pow2 in Hd' by exact Hd0.
    change (inject_Z 1) with 1 in Hd'. rewrite pow2_plus. nra. }
  set (k := (d + ex - e1)%Z).
  assert (Hk : pow2 (d + ex) == pow2 k * pow2 e1).
  { rewrite <- pow2_plus. unfold k. replace (d + ex - e1 + e1)%Z with (d + ex)%Z by lia.
    reflexivity. }
  assert (Hm1k : inject_Z (shr_m mrs1) < pow2 k).
  { rewrite Hk in Hsize. pose proof (pow2_pos k). nra. }
  assert (Hm2le : (m2 <= shr_m mrs1 + 1)%Z).
  { unfold m2, round_nearest_even.
    destruct (loc_of_shr_record mrs1) as [|[| |]]; try lia.
    destruct (Z.even (shr_m mrs1)); lia. }
  destruct (shr_fexp prec emax m2 e1 loc_Exact) as [mrs3 e3] eqn:E3.
  destruct (shr_m mrs3) as [|m3|m3] eqn:Em3; try discriminate H.
  destruct (Z.leb e3 (emax - prec)); [|discriminate H].
  injection H as <- <- <-. split; [reflexivity|].
  assert (Hex : bracket m2 e1 loc_Exact (inject_Z m2 * pow2 e1))
    by (cbn [bracket]; reflexivity).
  destruct (shr_fexp_held prec emax m2 e1 loc_Exact _ Hm2 Hex) as [[_ Hb3] He3].
  rewrite E3 in Hb3, He3. cbn [fst snd] in Hb3, He3. rewrite Em3 in Hb3.
  destruct (bracket_bounds _ _ _ _ Hb3) as [Hlo3 _].
  pose proof (pow2_pos e3) as Hp3. pose proof (pow2_le e1 e3 He3) as Hle.
  assert (Hm3pos : 0 < inject_Z (Zpos m3)) by reflexivity.
  destruct (Z.lt_ge_cases k 0) as [Hneg|Hk0].
  - (* the value is below half a unit: it rounds to zero *)
    exfalso.
    assert (Hhalf : pow2 k <= 1 # 2).
    { change (1 # 2) with (pow2 (-1)). apply pow2_le. lia. }
    assert (Hz : (shr_m mrs1 < 1)%Z).
    { rewrite Zlt_Qlt. change (inject_Z 1) with 1. lra. }
    assert (Hz' : shr_m mrs1 = 0%Z) by lia.
    assert (Hm2z : m2 = 0%Z).
    { unfold m2. rewrite Hz' in *. change (inject_Z 0) with 0 in *.
      destruct (loc_of_shr_record mrs1) as [|c]; [reflexivity|].
      cbn [bracket] in Hb1. destruct Hb1 as (_ & _ & Hc).
      apply cmp_cases in Hc. rewrite Hk in Hsize.
      assert (Hprod : pow2 k * pow2 e1 <= (1 # 2) * pow2 e1)
        by (apply Qmult_le_compat_r; lra).
      destruct c; cbv iota in Hc; cbn [round_nearest_even];
        try reflexivity; exfalso; change (inject_Z 0) with 0 in Hc; lra. }
    rewrite Hm2z in Hlo3. change (inject_Z 0) with 0 in Hlo3. nra.
  - assert (Hm1lt : (shr_m mrs1 < 2 ^ k)%Z) by (apply inject_lt_pow2; assumption).
    assert (Hcanon' : (fexp prec emax (k + e1) <= e1)%Z).
    { unfold k. replace (d + ex - e1 + e1)%Z with (d + ex)%Z by lia. exact Hcanon. }
    destruct (second_shift_exact prec emax m2 e1 k m3 Hk0) as [Hval _];
      [lia | exact Hcanon' | rewrite E3; exact Em3 |].
    rewrite E3 in Hval. cbn [snd] in Hval.
    rewrite Hval. apply Qabs_Qle_condition in Hclose.
    apply Qabs_Qle_condition. lra.
Qed.

(** *** The four operations

    Values and signs. *)

Definition sign (s : bool) : Q := if s then -1 else 1.

Lemma val_finite (s : bool) (m : positive) (e : Z) :
  Fp.val (S754_finite s m e) == sign s * (inject_Z (Zpos m) * pow2 e).
Proof.
  cbn [Fp.val]. unfold pow2, sign. destruct s; cbn [cond_Zopp].
  - change (Z.opp (Zpos m)) with (- Zpos m)%Z. rewrite inject_Z_opp. ring.
  - ring.
Qed.

Lemma sign_xorb (a b : bool) : sign (xorb a b) == sign a * sign b.
Proof. destruct a, b; reflexivity. Qed.

Lemma signed_close (s : bool) (a b K : Q) :
  Qabs (a - b) <= K -> Qabs (sign s * a - sign s * b) <= K.
Proof.
  intro H. setoid_replace (sign s * a - sign s * b) with (sign s * (a - b)) by ring.
  rewrite Qabs_Qmult. assert (Hs : Qabs (sign s) == 1) by (destruct s; reflexivity).
  rewrite Hs. lra.
Qed.

Lemma mul_close (prec emax : Z) (sx sy s : bool) (mx my m : positive)
    (ex ey e : Z) :
  SFmul prec emax (S754_finite sx mx ex) (S754_finite sy my ey)
  = S754_finite s m e ->
  Qabs (Fp.val (S754_finite s m e)
        - Fp.val (S754_finite sx mx ex) * Fp.val (S754_finite sy my ey))
  <= (1 # 2) * pow2 e.
Proof.
  intro H. cbn [SFmul] in H.
  apply (binary_round_aux_close prec emax _ _ _ _
           (inject_Z (Zpos mx) * pow2 ex * (inject_Z (Zpos my) * pow2 ey)))
    in H.
  - destruct H as [-> H]. rewrite !val_finite, sign_xorb.
    setoid_replace (sign sx * (inject_Z (Z.pos mx) * pow2 ex)
                    * (sign sy * (inject_Z (Z.pos my) * pow2 ey)))
      with (sign sx * sign sy
            * (inject_Z (Z.pos mx) * pow2 ex * (inject_Z (Z.pos my) * pow2 ey)))
      by ring.
    rewrite <- sign_xorb. apply signed_close. exact H.
  - lia.
  - cbn [bracket]. rewrite Pos2Z.inj_mul, inject_Z_mult, pow2_plus. ring.
Qed.

(** Sums and differences. *)

Lemma iter_xO_value (d m : positive) :
  Zpos (Pos.iter xO m d) = (Zpos m * 2 ^ Zpos d)%Z.
Proof.
  induction d as [|d IH] using Pos.peano_ind.
  - cbn [Pos.iter]. lia.
  - rewrite Pos.iter_succ, Pos2Z.inj_xO, IH, Pos2Z.inj_succ, Z.pow_succ_r by lia.
    lia.
Qed.

Lemma shl_align_value (m : positive) (e et : Z) :
  inject_Z (Zpos (fst (shl_align m e et))) * pow2 (snd (shl_align m e et))
  == inject_Z (Zpos m) * pow2 e /\
  ((et <= e)%Z -> snd (shl_align m e et) = et).
Proof.
  unfold shl_align. destruct (et - e)%Z as [|d|d] eqn:E; cbn [fst snd].
  - split; [reflexivity | lia].
  - split; [reflexivity | lia].
  - split; [|reflexivity].
    rewrite iter_xO_value, inject_Z_mult, inject_pow2 by lia.
    assert (He : e = (Zpos d + et)%Z) by lia.
    rewrite He, pow2_plus. ring.
Qed.

Lemma binary_round_close (prec emax : Z) (s : bool) (m : positive) (e : Z)
    (s' : bool) (m' : positive) (e' : Z) :
  binary_round prec emax s m e = S754_finite s' m' e' ->
  s' = s /\
  Qabs (inject_Z (Zpos m') * pow2 e' - inject_Z (Zpos m) * pow2 e)
  <= (1 # 2) * pow2 e'.
Proof.
  unfold binary_round. intro H.
  destruct (shl_align_value m e (fexp prec emax (Zpos (digits2_pos m) + e)))
    as [Hv _].
  destruct (shl_align m e (fexp prec emax (Zpos (digits2_pos m) + e)))
    as [mz ez]. cbn [fst snd] in Hv.
  apply (binary_round_aux_close prec emax _ _ _ _
           (inject_Z (Zpos m) * pow2 e)) in H.
  - exact H.
  - lia.
  - cbn [bracket]. symmetry. exact Hv.
Qed.

Lemma binary_normalize_close (prec emax n e : Z) (s' : bool) (m' : positive)
    (e' : Z) :
  binary_normalize prec emax n e false = S754_finite s' m' e' ->
  Qabs (Fp.val (S754_finite s' m' e') - inject_Z n * pow2 e)
  <= (1 # 2) * pow2 e'.
Proof.
  unfold binary_normalize. intro H. rewrite val_finite.
  destruct n as [|p|p]; [discriminate H| |];
    apply binary_round_close in H; destruct H as [-> H].
  - setoid_replace (inject_Z (Zpos p) * pow2 e)
      with (sign false * (inject_Z (Zpos p) * pow2 e))
      by (unfold sign; ring).
    apply signed_close. exact H.
  - setoid_replace (inject_Z (Zneg p) * pow2 e)
      with (sign true * (inject_Z (Zpos p) * pow2 e)).
    + apply signed_close. exact H.
    + unfold sign. change (Zneg p) with (- Zpos p)%Z. rewrite inject_Z_opp. ring.
Qed.

Lemma aligned_value (s : bool) (m : positive) (e et : Z) :
  (et <= e)%Z ->
  inject_Z (cond_Zopp s (Zpos (fst (shl_align m e et)))) * pow2 et
  == Fp.val (S754_finite s m e).
Proof.
  intro H. destruct (shl_align_value m e et) as [Hv He].
  rewrite (He H) in Hv. rewrite val_finite. rewrite <- Hv.
  unfold sign. destruct s; cbn [cond_Zopp].
  - change (Z.opp (Zpos (fst (shl_align m e et))))
      with (- Zpos (fst (shl_align m e et)))%Z.
    rewrite inject_Z_opp. ring.
  - ring.
Qed.

Lemma add_close (prec emax : Z) (sx sy s : bool) (mx my m : positive)
    (ex ey e : Z) :
  SFadd prec emax (S754_finite sx mx ex) (S754_finite sy my ey)
  = S754_finite s m e ->
  Qabs (Fp.val (S754_finite s m e)
        - (Fp.val (S754_finite sx mx ex) + Fp.val (S754_finite sy my ey)))
  <= (1 # 2) * pow2 e.
Proof.
  intro H. cbn [SFadd] in H. cbv zeta in H.
  apply binary_normalize_close in H.
  rewrite inject_Z_plus, Qmult_plus_distr_l in H.
  rewrite !aligned_value in H by lia. exact H.
Qed.

Lemma sub_close (prec emax : Z) (sx sy s : bool) (mx my m : positive)
    (ex ey e : Z) :
  SFsub prec emax (S754_finite sx mx ex) (S754_finite sy my ey)
  = S754_finite s m e ->
  Qabs (Fp.val (S754_finite s m e)
        - (Fp.val (S754_finite sx mx ex) - Fp.val (S754_finite sy my ey)))
  <= (1 # 2) * pow2 e.
Proof.
  intro H. cbn [SFsub] in H. cbv zeta in H.
  apply binary_normalize_close in H.
  unfold Z.sub in H at 1.
  rewrite inject_Z_plus, inject_Z_opp, Qmult_plus_distr_l in H.
  setoid_replace (- inject_Z (cond_Zopp sy (Z.pos (fst (shl_align my ey (Z.min ex ey)))))
                  * pow2 (Z.min ex ey))
    with (- (inject_Z (cond_Zopp sy (Z.pos (fst (shl_align my ey (Z.min ex ey)))))
             * pow2 (Z.min ex ey))) in H by ring.
  rewrite !aligned_value in H by lia. exact H.
Qed.

(** Quotients: the location that the remainder gives. *)

Lemma new_location_bracket (m2 q r e : Z) :
  (0 < m2)%Z -> (0 <= r < m2)%Z ->
  bracket q e (new_location m2 r)
    ((inject_Z q + inject_Z r / inject_Z m2) * pow2 e).
Proof.
  intros Hm2 Hr. pose proof (pow2_pos e) as Hp.
  assert (HM : 0 < inject_Z m2) by (rewrite <- (Zlt_Qlt 0); exact Hm2).
  set (rho := inject_Z r / inject_Z m2).
  assert (Hrho : rho * inject_Z m2 == inject_Z r).
  { unfold rho. field. lra. }
  assert (Hr0 : 0 <= inject_Z r) by (rewrite <- (Zle_Qle 0); lia).
  assert (Hr1 : inject_Z r < inject_Z m2) by (rewrite <- Zlt_Qlt; lia).
  assert (Hlo : 0 <= rho) by (unfold rho; apply Qle_shift_div_l; lra).
  assert (Hhi : rho < 1) by (unfold rho; apply Qlt_shift_div_r; lra).
  assert (Hhalf : forall c : comparison,
             (2 * r ?= m2)%Z = c -> (rho ?= 1 # 2) = c).
  { intros c Hc. destruct (Z.compare_spec (2 * r) m2) as [H|H|H]; subst c.
    - apply cmp_eq. unfold rho. rewrite <- H, inject_Z_mult.
      change (inject_Z 2) with 2. field.
      intro Hz. rewrite <- H, inject_Z_mult in HM. change (inject_Z 2) with 2 in HM.
      lra.
    - apply cmp_lt. unfold rho. apply Qlt_shift_div_r; [exact HM|].
      rewrite Zlt_Qlt in H. rewrite inject_Z_mult in H.
      change (inject_Z 2) with 2 in H. lra.
    - apply cmp_gt. unfold rho. apply Qlt_shift_div_l; [exact HM|].
      rewrite Zlt_Qlt in H. rewrite inject_Z_mult in H.
      change (inject_Z 2) with 2 in H. lra. }
  assert (Hmid : forall c : comparison,
             (rho ?= 1 # 2) = c ->
             ((inject_Z q + rho) * pow2 e ?= (inject_Z q + (1 # 2)) * pow2 e) = c).
  { intros c Hc. apply cmp_cases in Hc. destruct c; cbv iota in Hc.
    - apply cmp_eq. rewrite Hc. reflexivity.
    - apply cmp_lt. nra.
    - apply cmp_gt. nra. }
  assert (Hzero : r = 0%Z -> rho == 0).
  { intros ->. unfold rho. change (inject_Z 0) with 0. field. lra. }
  assert (Hpos : r <> 0%Z -> 0 < rho).
  { intro Hnz. unfold rho. apply Qlt_shift_div_l; [exact HM|].
    assert (H0 : (0 < r)%Z) by lia. rewrite Zlt_Qlt in H0.
    change (inject_Z 0) with 0 in H0. lra. }
  clearbody rho.
  unfold new_location.
  destruct (Z.even m2) eqn:Ev;
    unfold new_location_even, new_location_odd;
    destruct (Z.eqb_spec r 0) as [Hz|Hnz]; cbn [bracket].
  - rewrite (Hzero Hz). ring.
  - specialize (Hpos Hnz).
    split; [nra|]. split; [nra|]. apply Hmid, Hhalf. reflexivity.
  - rewrite (Hzero Hz). ring.
  - specialize (Hpos Hnz).
    split; [nra|]. split; [nra|]. apply Hmid, Hhalf.
    destruct (Z.compare_spec (2 * r + 1) m2) as [H|H|H].
    + apply Z.compare_lt_iff. lia.
    + apply Z.compare_lt_iff. lia.
    + apply Z.compare_gt_iff.
      assert (Hne : (2 * r)%Z <> m2).
      { intro Heq. rewrite <- Heq, Z.even_mul in Ev. discriminate Ev. }
      lia.
Qed.

Lemma div_core_bracket (prec emax : Z) (m1 m2 : positive) (e1 e2 : Z) :
  let '(q, e, l) := SFdiv_core_binary prec emax (Zpos m1) e1 (Zpos m2) e2 in
  (0 <= q)%Z /\
  bracket q e l
    (inject_Z (Zpos m1) * pow2 e1 / (inject_Z (Zpos m2) * pow2 e2)).
Proof.
  unfold SFdiv_core_binary.
  set (e' := Z.min _ (e1 - e2)).
  assert (He' : (e' <= e1 - e2)%Z) by apply Z.le_min_r.
  set (s := (e1 - e2 - e')%Z).
  assert (Hs : (0 <= s)%Z) by (unfold s; lia).
  set (m' := match s with
             | Zpos _ => Z.shiftl (Zpos m1) s
             | Z0 => Zpos m1
             | Zneg _ => Z0
             end).
  assert (Hm' : m' = (Zpos m1 * 2 ^ s)%Z).
  { unfold m'. destruct s as [|p|p]; [lia| |lia].
    apply Z.shiftl_mul_pow2. lia. }
  assert (Hm'0 : (0 <= m')%Z) by (rewrite Hm'; apply Z.mul_nonneg_nonneg; lia).
  pose proof (Z_div_mod m' (Zpos m2) (eq_refl : (Zpos m2 > 0)%Z)) as Hdiv.
  destruct (Z.div_eucl m' (Zpos m2)) as [q r]. destruct Hdiv as [Heq Hr].
  assert (Hq : (0 <= q)%Z) by nia.
  split; [exact Hq|].
  assert (HM2 : 0 < inject_Z (Zpos m2)) by reflexivity.
  pose proof (pow2_pos e2) as Hp2. pose proof (pow2_pos e') as Hp'.
  assert (Hval : inject_Z (Zpos m1) * pow2 e1 / (inject_Z (Zpos m2) * pow2 e2)
                 == (inject_Z q + inject_Z r / inject_Z (Zpos m2)) * pow2 e').
  { assert (He1 : e1 = (s + e' + e2)%Z) by (unfold s; lia).
    rewrite He1, !pow2_plus, <- inject_pow2 by exact Hs.
    assert (Hinj : inject_Z (Zpos m1) * inject_Z (2 ^ s)
                   == inject_Z (Zpos m2) * inject_Z q + inject_Z r).
    { rewrite <- !inject_Z_mult, <- inject_Z_plus, <- Hm', Heq. reflexivity. }
    setoid_replace (inject_Z (Z.pos m1) * (inject_Z (2 ^ s) * pow2 e' * pow2 e2)
                    / (inject_Z (Z.pos m2) * pow2 e2))
      with (inject_Z (Zpos m1) * inject_Z (2 ^ s) * pow2 e' / inject_Z (Zpos m2))
      by (field; split; lra).
    rewrite Hinj. field. lra. }
  assert (Hb := new_location_bracket (Zpos m2) q r e' (eq_refl : (0 < Zpos m2)%Z) Hr).
  destruct (new_location (Zpos m2) r) as [|c]; cbn [bracket] in *.
  - rewrite Hval. exact Hb.
  - rewrite Hval. exact Hb.
Qed.

Lemma div_close (prec emax : Z) (sx sy s : bool) (mx my m : positive)
    (ex ey e : Z) :
  SFdiv prec emax (S754_finite sx mx ex) (S754_finite sy my ey)
  = S754_finite s m e ->
  Qabs (Fp.val (S754_finite s m e)
        - Fp.val (S754_finite sx mx ex) / Fp.val (S754_finite sy my ey))
  <= (1 # 2) * pow2 e.
Proof.
  intro H. cbn [SFdiv] in H.
  pose proof (div_core_bracket prec emax mx my ex ey) as Hc.
  destruct (SFdiv_core_binary prec emax (Zpos mx) ex (Zpos my) ey)
    as [[mz ez] lz].
  destruct Hc as [Hmz Hb].
  apply (binary_round_aux_close prec emax _ _ _ _ _ _ _ _ Hmz Hb) in H.
  destruct H as [-> H]. rewrite !val_finite, sign_xorb.
  pose proof (pow2_pos ey) as Hpy.
  assert (HMy : 0 < inject_Z (Zpos my)) by reflexivity.
  setoid_replace (sign sx * (inject_Z (Z.pos mx) * pow2 ex)
                  / (sign sy * (inject_Z (Z.pos my) * pow2 ey)))
    with (sign sx * sign sy
          * (inject_Z (Z.pos mx) * pow2 ex / (inject_Z (Z.pos my) * pow2 ey))).
  - rewrite <- sign_xorb. apply signed_close. exact H.
  - destruct sx, sy; unfold sign; field; split; lra.
Qed.

(** *** Results that are normal or exact

    A normal result is within [round_off] of the exact one. *)

Lemma round_off_eq (fmt : Fp.format) :
  Fp.round_off fmt == 2 * pow2 (- Fp.prec fmt).
Proof.
  unfold Fp.round_off. change (2 ^ (1 - Fp.prec fmt)) with (pow2 (1 - Fp.prec fmt)).
  unfold Z.sub. rewrite pow2_plus. change (pow2 1) with 2. reflexivity.
Qed.

Lemma round_off_small (fmt : Fp.format) (n : Z) :
  (n <= Fp.prec fmt)%Z -> 0 < Fp.round_off fmt <= 2 * pow2 (- n).
Proof.
  intro H. rewrite round_off_eq. pose proof (pow2_pos (- Fp.prec fmt)).
  split; [lra|].
  assert (pow2 (- Fp.prec fmt) <= pow2 (- n)) by (apply pow2_le; lia). lra.
Qed.

Lemma normal_relative (fmt : Fp.format) (s : bool) (m : positive) (e : Z)
    (X : Q) :
  (4 <= Fp.prec fmt)%Z ->
  Fp.normal fmt (S754_finite s m e) = true ->
  Qabs (Fp.val (S754_finite s m e) - X) <= (1 # 2) * pow2 e ->
  Qabs (Fp.val (S754_finite s m e) - X) <= Fp.round_off fmt * Qabs X.
Proof.
  intros Hprec Hn H. cbn [Fp.normal] in Hn. apply Z.eqb_eq in Hn.
  pose proof (digits2_lower m) as Hd. rewrite Hn in Hd.
  set (V := Fp.val (S754_finite s m e)) in *.
  assert (HV : Qabs V == inject_Z (Zpos m) * pow2 e).
  { unfold V. rewrite val_finite, Qabs_Qmult.
    assert (Hs : Qabs (sign s) == 1) by (destruct s; reflexivity).
    rewrite Hs, Qabs_pos; [ring|].
    pose proof (pow2_pos e). assert (0 < inject_Z (Zpos m)) by reflexivity. nra. }
  pose proof (pow2_pos e) as Hpe. pose proof (pow2_pos (- Fp.prec fmt)) as Hpp.
  assert (Hhalf : pow2 (- Fp.prec fmt) * pow2 (Fp.prec fmt - 1) == 1 # 2).
  { rewrite <- pow2_plus. replace (- Fp.prec fmt + (Fp.prec fmt - 1))%Z with (-1)%Z by lia.
    reflexivity. }
  assert (Hm : pow2 (Fp.prec fmt - 1) <= inject_Z (Zpos m)).
  { rewrite <- inject_pow2 by lia. rewrite <- Zle_Qle. exact Hd. }
  assert (Hsmall : pow2 (- Fp.prec fmt) <= 1 # 16).
  { change (1 # 16) with (pow2 (-4)). apply pow2_le. lia. }
  set (a := pow2 (- Fp.prec fmt)) in *.
  assert (Hrel : Qabs (V - X) <= a * Qabs V).
  { rewrite HV.
    assert (H1 : (1 # 2) * pow2 e == a * pow2 (Fp.prec fmt - 1) * pow2 e)
      by (rewrite Hhalf; ring).
    assert (H2 : a * pow2 (Fp.prec fmt - 1) * pow2 e
                 <= a * inject_Z (Zpos m) * pow2 e).
    { assert (0 <= a * pow2 e) by nra. nra. }
    lra. }
  assert (Htri : Qabs V <= Qabs X + Qabs (V - X)).
  { pose proof (Qabs_triangle_reverse V X). lra. }
  rewrite round_off_eq. fold a.
  pose proof (Qabs_nonneg X). pose proof (Qabs_nonneg (V - X)) as Herr.
  assert (Ha : 0 <= a * Qabs (V - X)) by nra.
  assert (Hb : a * Qabs (V - X) <= (1 # 16) * Qabs (V - X)) by nra.
  assert (Hc : a * Qabs V <= a * Qabs X + a * Qabs (V - X)) by nra.
  assert (Hd' : 0 <= a * Qabs X) by nra.
  lra.
Qed.

Lemma exact_rounds (u : Q) (r : spec_float) (X : Q) :
  0 <= u -> Fp.finite r = true -> Fp.val r == X -> Fp.rounds u r X.
Proof.
  intros Hu Hf Hv. split; [exact Hf|]. rewrite Hv.
  setoid_replace (X - X) with 0 by ring. change (Qabs 0) with 0.
  pose proof (Qabs_nonneg X). nra.
Qed.

Section Operations.

Variable fmt : Fp.format.
Hypothesis prec_4 : (4 <= Fp.prec fmt)%Z.

Lemma round_off_nonneg : 0 <= Fp.round_off fmt.
Proof. destruct (round_off_small fmt 4 prec_4). lra. Qed.

Lemma fmul_rounds (x y : spec_float) :
  Fp.settled fmt (Fp.fmul fmt x y) (Fp.val x * Fp.val y) ->
  Fp.rounds (Fp.round_off fmt) (Fp.fmul fmt x y) (Fp.val x * Fp.val y).
Proof.
  intros [Hn|[Hf Hv]]; [|apply exact_rounds; [exact round_off_nonneg|exact Hf|exact Hv]].
  destruct (Fp.fmul fmt x y) as [| | |s m e] eqn:E; try discriminate Hn.
  split; [reflexivity|]. apply normal_relative; [exact prec_4 | exact Hn|].
  unfold Fp.fmul in E.
  destruct x as [sx|sx| |sx mx ex]; destruct y as [sy|sy| |sy my ey];
    try discriminate E.
  apply (mul_close _ _ _ _ _ _ _ _ _ _ _ E).
Qed.

Lemma fdiv_rounds (x y : spec_float) :
  Fp.settled fmt (Fp.fdiv fmt x y) (Fp.val x / Fp.val y) ->
  Fp.rounds (Fp.round_off fmt) (Fp.fdiv fmt x y) (Fp.val x / Fp.val y).
Proof.
  intros [Hn|[Hf Hv]]; [|apply exact_rounds; [exact round_off_nonneg|exact Hf|exact Hv]].
  destruct (Fp.fdiv fmt x y) as [| | |s m e] eqn:E; try discriminate Hn.
  split; [reflexivity|]. apply normal_relative; [exact prec_4 | exact Hn|].
  unfold Fp.fdiv in E.
  destruct x as [sx|sx| |sx mx ex]; destruct y as [sy|sy| |sy my ey];
    try discriminate E.
  apply (div_close _ _ _ _ _ _ _ _ _ _ _ E).
Qed.

Lemma fadd_rounds (x y : spec_float) :
  Fp.settled fmt (Fp.fadd fmt x y) (Fp.val x + Fp.val y) ->
  Fp.rounds (Fp.round_off fmt) (Fp.fadd fmt x y) (Fp.val x + Fp.val y).
Proof.
  intros [Hn|[Hf Hv]]; [|apply exact_rounds; [exact round_off_nonneg|exact Hf|exact Hv]].
  destruct (Fp.fadd fmt x y) as [| | |s m e] eqn:E; try discriminate Hn.
  unfold Fp.fadd in E.
  destruct x as [sx|sx| |sx mx ex]; destruct y as [sy|sy| |sy my ey];
    try discriminate E;
    try (destruct sx, sy; discriminate E).
  - cbn [SFadd] in E. rewrite E. apply exact_rounds; [exact round_off_nonneg|reflexivity|].
    cbn [Fp.val]. ring.
  - cbn [SFadd] in E. rewrite E. apply exact_rounds; [exact round_off_nonneg|reflexivity|].
    cbn [Fp.val]. ring.
  - split; [reflexivity|]. apply normal_relative; [exact prec_4 | exact Hn|].
    apply (add_close _ _ _ _ _ _ _ _ _ _ _ E).
Qed.

Lemma fsub_rounds (x y : spec_float) :
  Fp.settled fmt (Fp.fsub fmt x y) (Fp.val x - Fp.val y) ->
  Fp.rounds (Fp.round_off fmt) (Fp.fsub fmt x y) (Fp.val x - Fp.val y).
Proof.
  intros [Hn|[Hf Hv]]; [|apply exact_rounds; [exact round_off_nonneg|exact Hf|exact Hv]].
  destruct (Fp.fsub fmt x y) as [| | |s m e] eqn:E; try discriminate Hn.
  unfold Fp.fsub in E.
  destruct x as [sx|sx| |sx mx ex]; destruct y as [sy|sy| |sy my ey];
    try discriminate E;
    try (destruct sx, sy; discriminate E).
  - cbn [SFsub] in E. injection E as <- <- <-.
    apply exact_rounds; [exact round_off_nonneg|reflexivity|].
    rewrite !val_finite. cbn [Fp.val]. destruct sy; unfold sign; cbn [negb]; ring.
  - cbn [SFsub] in E. rewrite E. apply exact_rounds; [exact round_off_nonneg|reflexivity|].
    cbn [Fp.val]. ring.
  - split; [reflexivity|]. apply normal_relative; [exact prec_4 | exact Hn|].
    apply (sub_close _ _ _ _ _ _ _ _ _ _ _ E).
Qed.

Lemma in_range_accurate (v z f c : spec_float) :
  Fp.in_range fmt v z f c -> Fp.accurate fmt (Fp.round_off fmt) v z f c.
Proof.
  unfold Fp.in_range, Fp.accurate. cbv zeta.
  intros (Hfin & Hd & Hq & Hm & Hp & Hs & Ht & Hr).
  split; [exact Hfin|].
  split; [apply fadd_rounds; exact Hd|].
  split; [apply fdiv_rounds; exact Hq|].
  split; [apply fmul_rounds; exact Hm|].
  split; [apply fadd_rounds; exact Hp|].
  split; [apply fsub_rounds; exact Hs|].
  split; [apply fdiv_rounds; exact Ht|].
  apply fmul_rounds; exact Hr.
Qed.

End Operations.

(** *** The round trip

    A product with a zero is a zero, or NaN when the other factor is not
    finite. *)
Lemma mul_zero (fmt : Fp.format) (t : spec_float) (s : bool) :
  Fp.zero_or_nan (Fp.fmul fmt t (S754_zero s)).
Proof.
  unfold Fp.zero_or_nan, Fp.is_zero.
  destruct t; cbn; eauto.
Qed.

Lemma val_finite_nonzero (s : bool) (m : positive) (e : Z) :
  ~ Fp.val (S754_finite s m e) == 0.
Proof.
  cbn [Fp.val]. intro H. apply Qmult_integral in H. destruct H as [H|H].
  - destruct s; discriminate H.
  - revert H. apply Qpower_not_0. discriminate.
Qed.

(** A finite quotient by a finite float has a divisor other than zero. *)
Lemma div_finite_divisor (fmt : Fp.format) (a b : spec_float) :
  Fp.finite b = true -> Fp.finite (Fp.fdiv fmt a b) = true ->
  ~ Fp.val b == 0.
Proof.
  intros Hb Hq. destruct b as [sb|sb| |sb mb eb]; try discriminate Hb.
  - destruct a as [sa|sa| |sa ma ea]; discriminate Hq.
  - apply val_finite_nonzero.
Qed.

(** A coordinate that goes to the pixel and back by accurate operations
    comes back within the tolerance. *)
Lemma coordinate_within_tolerance (fmt : Fp.format) (u : Q)
    (v z f c : spec_float) :
  0 <= u -> u <= 1 # 100 ->
  Fp.accurate fmt u v z f c ->
  Qabs (Fp.val (Fp.fmul fmt
                  (Fp.fdiv fmt
                     (Fp.fsub fmt
                        (Fp.fadd fmt
                           (Fp.fmul fmt
                              (Fp.fdiv fmt v (Fp.fadd fmt z (Fp.eps fmt))) f)
                           c)
                        c)
                     f)
                  z)
        - Fp.val v)
  <= Fp.tolerance fmt u v z f c.
Proof.
  intros Hu0 Hu1 H. unfold Fp.accurate in H. cbv zeta in H.
  destruct H as ((Hv & Hz & Hf & Hc) & (Hfd & Hd) & (Hfq & Hq) & (_ & Hm)
                 & (_ & Hp) & (_ & Hs) & (Hft & Ht) & (_ & Hr)).
  unfold Fp.tolerance.
  apply (recovered_within u Hu0 Hu1 _ _ _ _ _ _ _ _ _ _ _ _
           (div_finite_divisor fmt _ f Hf Hft)
           (div_finite_divisor fmt v _ Hfd Hfq)
           Hd Hq Hm Hp Hs Ht Hr).
Qed.

(** The rows of the round trip, for whatever camera-space points. *)
Lemma round_trip_rows (fmt : Fp.format) (cam : list Fp.vec3) (f c : Fp.vec2) :
  (8 <= Fp.prec fmt)%Z ->
  Forall2 (Fp.recovered fmt f c) cam
    (Fp._pixel2cam fmt (Fp.carry_depth (Fp._cam2pixel fmt cam f c) cam) f c) /\
  Forall Fp.collapsed (Fp._pixel2cam fmt (Fp._cam2pixel fmt cam f c) f c) /\
  List.length (Fp._pixel2cam fmt (Fp._cam2pixel fmt cam f c) f c)
  = List.length cam.
Proof.
  intro Hprec.
  assert (Hprec4 : (4 <= Fp.prec fmt)%Z) by lia.
  destruct (round_off_small fmt 8 Hprec) as [Hu0 Hu1].
  assert (Hu0' : 0 <= Fp.round_off fmt) by lra.
  assert (Hu1' : Fp.round_off fmt <= 1 # 100).
  { assert (H8 : pow2 (- 8) == 1 # 256) by reflexivity. rewrite H8 in Hu1.
    apply (Qle_trans _ _ _ Hu1). discriminate. }
  split; [|split].
  - unfold Fp._pixel2cam, Fp.carry_depth, Fp._cam2pixel.
    induction cam as [|p cam IH]; cbn [map combine]; constructor; [|exact IH].
    unfold Fp.recovered; cbn [Fp.vx Fp.vy Fp.vz fst snd].
    split; [reflexivity|]. split; [|split].
    + intro H. apply coordinate_within_tolerance; [exact Hu0'|exact Hu1'|].
      exact (in_range_accurate fmt Hprec4 _ _ _ _ H).
    + intro H. apply coordinate_within_tolerance; [exact Hu0'|exact Hu1'|].
      exact (in_range_accurate fmt Hprec4 _ _ _ _ H).
    + intros [s Hs]. rewrite Hs. split; apply mul_zero.
  - unfold Fp._pixel2cam, Fp._cam2pixel.
    induction cam as [|p cam IH]; cbn [map]; constructor; [|exact IH].
    unfold Fp.collapsed; cbn [Fp.vx Fp.vy Fp.vz].
    split; [reflexivity|]. split; apply mul_zero.
  - unfold Fp._pixel2cam, Fp._cam2pixel.
    rewrite !length_map. reflexivity.
Qed.

(** C5, as amended.  On IEEE floats of a format with at least 8 bits of
    precision (float32 and float64 among them), and for whatever matrix
    product [np.dot] is, world to camera, camera to pixel and pixel to
    camera with the camera depth carried beside return the camera depth of
    every point as it is, and its camera x and y within
    8u |x z/(z+eps)| + 2u |c z/f| + |x eps/(z+eps)| of the original, where
    u = 2^(1-prec), whenever the seven floating-point operations on the
    coordinate are on finite operands and none overflows or underflows:
    each result is a normal float, or is finite and exact.  A point at
    depth zero comes back with x and y zero or NaN, whatever they were.
    Without the carried depth the composition returns, for every point,
    the depth 0 with x and y zero or NaN. *)
Theorem round_trip_within_rounding
    (np_dot : Fp.mat33 -> list Fp.vec3 -> list Fp.vec3) (fmt : Fp.format)
    (world : list Fp.vec3) (R : Fp.mat33) (T : Fp.vec3) (f c : Fp.vec2) :
  (8 <= Fp.prec fmt)%Z ->
  Forall2 (Fp.recovered fmt f c) (Fp._world2cam np_dot fmt world R T)
    (Fp.round_trip np_dot fmt world R T f c) /\
  Forall Fp.collapsed (Fp.round_trip_projected np_dot fmt world R T f c) /\
  List.length (Fp.round_trip_projected np_dot fmt world R T f c)
  = List.length (Fp._world2cam np_dot fmt world R T).
Proof.
  intro Hprec. unfold Fp.round_trip, Fp.round_trip_projected.
  apply round_trip_rows. exact Hprec.
Qed.

Lemma round_trip_within_rounding_witness :
  Fp._world2cam (ex_np_dot Fp.float32) Fp.float32 [ex_point32] ex_identity32
    ex_origin32 = [ex_point32] /\
  (Fp.in_range Fp.float32 (Fp.vx ex_point32) (Fp.vz ex_point32)
     (fst ex_focal32) (fst ex_princpt32) /\
   Fp.in_range Fp.float32 (Fp.vy ex_point32) (Fp.vz ex_point32)
     (snd ex_focal32) (snd ex_princpt32)) /\
  Forall2 (Fp.recovered Fp.float32 ex_focal32 ex_princpt32)
    (Fp._world2cam (ex_np_dot Fp.float32) Fp.float32 [ex_point32]
       ex_identity32 ex_origin32)
    (Fp.round_trip (ex_np_dot Fp.float32) Fp.float32 [ex_point32]
       ex_identity32 ex_origin32 ex_focal32 ex_princpt32) /\
  Forall Fp.collapsed
    (Fp.round_trip_projected (ex_np_dot Fp.float32) Fp.float32 [ex_point32]
       ex_identity32 ex_origin32 ex_focal32 ex_princpt32) /\
  List.length
    (Fp.round_trip_projected (ex_np_dot Fp.float32) Fp.float32 [ex_point32]
       ex_identity32 ex_origin32 ex_focal32 ex_princpt32)
  = List.length
      (Fp._world2cam (ex_np_dot Fp.float32) Fp.float32 [ex_point32]
         ex_identity32 ex_origin32).
Proof.
  split; [vm_compute; reflexivity|]. split.
  - unfold Fp.in_range, Fp.settled. cbv zeta.
    repeat split; try reflexivity; left; vm_compute; reflexivity.
  - apply (round_trip_within_rounding (ex_np_dot Fp.float32) Fp.float32
             [ex_point32] ex_identity32 ex_origin32 ex_focal32 ex_princpt32).
    vm_compute. discriminate.
Defined.

(** C5, as stated, fails at depth 0: in float32, with the identity
    rotation and no translation, the focal length 1000 and the principal
    point (320, 240), the point (1, 1, 0) is the camera-space point
    (1, 1, 0), and it comes back as (0, 0, 0), an error of 1 in x and in
    y, as large as the coordinates themselves. *)
Lemma round_trip_zero_depth_comes_back_zero :
  Fp._world2cam (ex_np_dot Fp.float32) Fp.float32 [ex_flat_point32]
    ex_identity32 ex_origin32 = [ex_flat_point32] /\
  Fp.round_trip (ex_np_dot Fp.float32) Fp.float32 [ex_flat_point32]
    ex_identity32 ex_origin32
    (Fp.of_Z Fp.float32 1000, Fp.of_Z Fp.float32 1000)
    (Fp.of_Z Fp.float32 320, Fp.of_Z Fp.float32 240)
  = [Fp.V3 (S754_zero false) (S754_zero false) (S754_zero false)] /\
  Fp.val (Fp.vx ex_flat_point32) == 1 /\
  Fp.val (Fp.vy ex_flat_point32) == 1 /\
  Qabs (Fp.val (S754_zero false) - Fp.val (Fp.vx ex_flat_point32)) == 1 /\
  Qabs (Fp.val (S754_zero false) - Fp.val (Fp.vy ex_flat_point32)) == 1.
Proof.
  split; [vm_compute; reflexivity|].
  split; [vm_compute; reflexivity|].
  repeat split; vm_compute; reflexivity.
Qed.

(** ** Handedness accuracy *)

Lemma row_all_equal_spec (o g : list Z) :
  List.length o = List.length g ->
  row_all_equal o g = true <-> o = g.
Proof.
  revert g. induction o as [|x o IH]; intros [|y g] Hlen; simpl in Hlen;
    try discriminate.
  - split; reflexivity.
  - unfold row_all_equal. cbn [combine forallb fst snd].
    rewrite andb_true_iff, Z.eqb_eq.
    fold (row_all_equal o g). rewrite IH by lia.
    split; [intros [-> ->]; reflexivity | intro H; inversion H; auto].
Qed.

Lemma select_cons {A} (b : bool) (masks : list bool) (x : A) (a : list A) :
  select (b :: masks) (x :: a)
  = if b then x :: select masks a else select masks a.
Proof. unfold select. simpl. destruct b; reflexivity. Qed.

Lemma length_select {A} (masks : list bool) (a : list A) :
  List.length masks = List.length a ->
  List.length (select masks a) = count_valid masks.
Proof.
  revert a. induction masks as [|b masks IH]; intros [|x a] Hlen;
    simpl in Hlen; try discriminate; [reflexivity|].
  rewrite select_cons. destruct b; simpl; rewrite IH by lia; reflexivity.
Qed.

Lemma count_selected (outputs gts : list (list Z)) (masks : list bool) :
  Forall2 (fun o g => List.length o = List.length g) outputs gts ->
  List.length masks = List.length outputs ->
  List.length
    (filter (fun b => b)
       (select masks
          (map (fun p => row_all_equal (fst p) (snd p)) (combine outputs gts))))
  = count_correct outputs gts masks.
Proof.
  intro Hrows. revert masks.
  induction Hrows as [|o g outputs gts Hog Hrows IH]; intros [|b masks] Hlen;
    simpl in Hlen; try discriminate; [reflexivity|].
  cbn [combine map fst snd]. rewrite select_cons.
  destruct b; cbn [count_correct].
  - cbn [filter].
    destruct (list_eq_dec Z.eq_dec o g) as [Heq|Hne].
    + apply (row_all_equal_spec _ _ Hog) in Heq. rewrite Heq.
      cbn [List.length]. rewrite IH by lia. reflexivity.
    + destruct (row_all_equal o g) eqn:E.
      * apply (row_all_equal_spec _ _ Hog) in E. contradiction.
      * apply IH. lia.
  - apply IH. lia.
Qed.

Lemma np_mean_length (a : list bool) :
  np_mean a =
  match List.length a with
  | O => NaN
  | S _ => Fin (Z.of_nat (List.length (filter (fun b => b) a))
                # Pos.of_nat (List.length a))
  end.
Proof. destruct a; reflexivity. Qed.

(** [_get_accuracy] on two [N, C] arrays and a mask of length [N] is the
    accuracy of the specification. *)
Lemma get_accuracy_is_valid_fraction
    (outputs gts : list (list Z)) (masks : list bool) :
  Forall2 (fun o g => List.length o = List.length g) outputs gts ->
  List.length masks = List.length outputs ->
  _get_accuracy (Arr2 outputs) (Arr2 gts) masks
  = Ok (accuracy_spec outputs gts masks).
Proof.
  intros Hrows Hlen. unfold _get_accuracy.
  assert (Hc : List.length (combine outputs gts) = List.length outputs).
  { rewrite length_combine, <- (Forall2_length Hrows). apply Nat.min_id. }
  rewrite length_map, Hc, Hlen, Nat.eqb_refl.
  rewrite np_mean_length, length_select by (rewrite length_map, Hc; exact Hlen).
  rewrite count_selected by assumption.
  reflexivity.
Qed.

Lemma count_valid_all_false (masks : list bool) :
  Forall (fun b => b = false) masks -> count_valid masks = 0%nat.
Proof.
  induction 1 as [|b masks Hb _ IH]; [reflexivity|]. subst b. exact IH.
Qed.

Lemma get_accuracy_empty_selection
    (outputs gts : list (list Z)) (masks : list bool) :
  List.length outputs = List.length gts ->
  List.length masks = List.length outputs ->
  Forall (fun b => b = false) masks ->
  _get_accuracy (Arr2 outputs) (Arr2 gts) masks = Ok NaN.
Proof.
  intros Hog Hlen Hfalse. unfold _get_accuracy.
  assert (Hc : List.length (combine outputs gts) = List.length outputs).
  { rewrite length_combine, <- Hog. apply Nat.min_id. }
  rewrite length_map, Hc, Hlen, Nat.eqb_refl.
  rewrite np_mean_length, length_select by (rewrite length_map, Hc; exact Hlen).
  rewrite count_valid_all_false by assumption. reflexivity.
Qed.

Lemma report_loop_handedness (self : dataset_obj) (preds : list kpt)
    (items : list sample) :
  Forall2 has_hand_type preds items ->
  report_loop self ["Handedness_acc"] (combine preds items)
  = Ok (map (fun p => hand_only (fst p) (snd p)) (combine preds items)).
Proof.
  induction 1 as [|pred item preds items (v & Hv & _) _ IH]; [reflexivity|].
  cbn [combine report_loop map fst snd]. rewrite IH.
  unfold report_entry, handedness_entry, hand_only, pred_hand_type,
    handedness_valid.
  rewrite Hv. reflexivity.
Qed.

Lemma collected_hand_only (pairs : list (kpt * sample)) :
  collected e_hand (map (fun p => hand_only (fst p) (snd p)) pairs)
  = map (fun p => (pred_hand_type (fst p), hand_type (snd p),
                   handedness_valid (snd p))) pairs.
Proof.
  unfold collected. induction pairs as [|p pairs IH]; [reflexivity|].
  simpl. rewrite IH. reflexivity.
Qed.

Lemma collected_hand_only_none {A} (part : entry -> option A)
    (pairs : list (kpt * sample)) :
  (forall p i, part (hand_only p i) = None) ->
  collected part (map (fun p => hand_only (fst p) (snd p)) pairs) = [].
Proof.
  intro H. unfold collected. induction pairs as [|p pairs IH]; [reflexivity|].
  simpl. rewrite H, IH. reflexivity.
Qed.

Section Handedness.

Variable norm : vec3 -> Q.

Lemma report_values_handedness (preds : list kpt) (items : list sample) :
  preds <> [] ->
  Forall2 has_hand_type preds items ->
  report_values norm ["Handedness_acc"]
    (map (fun p => hand_only (fst p) (snd p)) (combine preds items))
  = Ok [("Handedness_acc",
         accuracy_spec (map pred_hand_type preds) (map hand_type items)
           (map handedness_valid items))].
Proof.
  intros Hne Hall. pose proof (Forall2_length Hall) as Hlen.
  unfold report_values.
  rewrite collected_hand_only.
  rewrite !(collected_hand_only_none _ _ (fun _ _ => eq_refl)).
  change (str_in "MRRPE" ["Handedness_acc"]) with false.
  change (str_in "MPJPE" ["Handedness_acc"]) with false.
  change (str_in "Handedness_acc" ["Handedness_acc"]) with true.
  cbv iota. cbn [bind app].
  rewrite !map_map. cbn [fst snd].
  rewrite <- (map_map fst pred_hand_type), <- (map_map snd hand_type),
    <- (map_map snd handedness_valid).
  rewrite map_fst_combine, map_snd_combine by exact Hlen.
  destruct preds as [|p preds]; [congruence|].
  destruct items as [|i items]; [discriminate|].
  cbn [map]. unfold np_array.
  rewrite get_accuracy_is_valid_fraction.
  - reflexivity.
  - clear Hne Hlen.
    change (pred_hand_type p :: map pred_hand_type preds)
      with (map pred_hand_type (p :: preds)).
    change (hand_type i :: map hand_type items)
      with (map hand_type (i :: items)).
    induction Hall as [|p' i' ps items' (v & Hv & Hl) _ IH]; constructor;
      [|exact IH].
    unfold pred_hand_type. rewrite Hv, length_map. exact Hl.
  - cbn [List.length]. rewrite !length_map. cbn [List.length] in Hlen. lia.
Qed.

(** C9: when the handedness accuracy is requested for a non-empty results
    file whose entries carry a hand-type vector, [_report_metric] returns,
    through [_get_accuracy], the fraction of the samples with a valid
    handedness label whose predicted vector equals the ground-truth vector
    in every component. *)
Theorem handedness_accuracy_is_valid_fraction
    (self : dataset_obj) (res_file : string) (w : world) (preds : list kpt) :
  lookup (files w) res_file = Ok (Keypoints preds) ->
  preds <> [] ->
  Forall2 has_hand_type preds (db self) ->
  _report_metric norm self res_file ["Handedness_acc"] w
  = (Ok [("Handedness_acc",
          accuracy_spec (map pred_hand_type preds) (map hand_type (db self))
            (map handedness_valid (db self)))],
     World (files w) (log w ++ [EvRead res_file])).
Proof.
  intros Hfile Hne Hall. pose proof (Forall2_length Hall) as Hlen.
  unfold _report_metric, io_bind, io_lift, json_load.
  rewrite Hfile. cbn [as_keypoints]. rewrite Hlen, Nat.eqb_refl.
  rewrite report_loop_handedness by exact Hall.
  rewrite report_values_handedness by assumption. reflexivity.
Qed.

(** C3, as amended: the handedness accuracy does not raise when the mask
    selects no sample.  [_get_accuracy] on [N, C] arrays with an all-false
    mask of length [N] returns NaN, and so does [_report_metric] for a
    non-empty results file when no sample has a valid handedness label. *)
Theorem handedness_accuracy_nan_on_empty_selection :
  (forall (outputs gts : list (list Z)) (masks : list bool),
      List.length outputs = List.length gts ->
      List.length masks = List.length outputs ->
      Forall (fun b => b = false) masks ->
      _get_accuracy (Arr2 outputs) (Arr2 gts) masks = Ok NaN) /\
  (forall (self : dataset_obj) (res_file : string) (w : world)
          (preds : list kpt),
      lookup (files w) res_file = Ok (Keypoints preds) ->
      preds <> [] ->
      Forall2 has_hand_type preds (db self) ->
      Forall (fun item => handedness_valid item = false) (db self) ->
      _report_metric norm self res_file ["Handedness_acc"] w
      = (Ok [("Handedness_acc", NaN)],
         World (files w) (log w ++ [EvRead res_file]))).
Proof.
  split; [exact get_accuracy_empty_selection|].
  intros self res_file w preds Hfile Hne Hall Hinvalid.
  pose proof (Forall2_length Hall) as Hlen.
  unfold _report_metric, io_bind, io_lift, json_load.
  rewrite Hfile. cbn [as_keypoints]. rewrite Hlen, Nat.eqb_refl.
  rewrite report_loop_handedness by exact Hall.
  rewrite report_values_handedness by assumption.
  unfold accuracy_spec. rewrite count_valid_all_false; [reflexivity|].
  clear -Hinvalid. induction Hinvalid; constructor; assumption.
Qed.

End Handedness.

Lemma scenario_has_hand_type : Forall2 has_hand_type scenario_preds scenario_db.
Proof.
  repeat constructor; eexists; (split; [reflexivity | reflexivity]).
Qed.

(** The scenario of four valid samples with one misprediction gives 0.75. *)
Lemma handedness_accuracy_is_valid_fraction_witness :
  _report_metric ex_norm (ex_dataset scenario_db) results_file
    ["Handedness_acc"] (results_world scenario_preds)
  = (Ok [("Handedness_acc", Fin (3 # 4))],
     World (files (results_world scenario_preds)) [EvRead results_file]).
Proof.
  rewrite (handedness_accuracy_is_valid_fraction ex_norm
             (ex_dataset scenario_db) results_file
             (results_world scenario_preds) scenario_preds).
  - reflexivity.
  - reflexivity.
  - discriminate.
  - exact scenario_has_hand_type.
Defined.

Lemma handedness_accuracy_nan_on_empty_selection_witness :
  _get_accuracy (Arr2 [[1; 0]; [0; 1]]%Z) (Arr2 [[1; 0]; [1; 1]]%Z)
    [false; false] = Ok NaN /\
  _report_metric ex_norm (ex_dataset [ex_sample [1; 0]%Z 0 0]) results_file
    ["Handedness_acc"] (results_world [ex_pred None (Some [1; 0]) None 0])
  = (Ok [("Handedness_acc", NaN)],
     World (files (results_world [ex_pred None (Some [1; 0]) None 0]))
       [EvRead results_file]).
Proof.
  destruct (handedness_accuracy_nan_on_empty_selection ex_norm) as [Hacc Hrep].
  split.
  - apply Hacc; [reflexivity | reflexivity | repeat constructor].
  - apply (Hrep (ex_dataset [ex_sample [1; 0]%Z 0 0]) results_file
             (results_world [ex_pred None (Some [1; 0]) None 0])
             [ex_pred None (Some [1; 0]) None 0]).
    + reflexivity.
    + discriminate.
    + repeat constructor. eexists. split; reflexivity.
    + repeat constructor.
Defined.

(** C3, as stated, fails: with one sample whose handedness label is not
    valid the mask selects nothing, and the accuracy is returned as NaN;
    nothing is raised. *)
Lemma handedness_accuracy_does_not_raise :
  _get_accuracy (np_array [[1; 0]%Z]) (np_array [[1; 0]%Z]) [false] = Ok NaN /\
  fst (_report_metric ex_norm (ex_dataset [ex_sample [1; 0]%Z 0 0])
         results_file ["Handedness_acc"]
         (results_world [ex_pred None (Some [1; 0]) None 0]))
  = Ok [("Handedness_acc", NaN)].
Proof. split; reflexivity. Qed.

(** ** The MRRPE mask *)

Lemma np_all_spec (a : list Z) :
  np_all a = true <-> Forall (fun v => v <> 0%Z) a.
Proof.
  unfold np_all. rewrite forallb_forall, Forall_forall.
  split; intros H v Hv; specialize (H v Hv).
  - apply negb_true_iff, Z.eqb_neq in H. exact H.
  - apply negb_true_iff, Z.eqb_neq. exact H.
Qed.

Lemma truthy_spec (q : Q) : truthy q = true <-> ~ q == 0.
Proof.
  unfold truthy. rewrite negb_true_iff. split.
  - intros H Hq. apply Qeq_bool_iff in Hq. congruence.
  - intro H. destruct (Qeq_bool q 0) eqn:E; [|reflexivity].
    apply Qeq_bool_iff in E. contradiction.
Qed.

Lemma getitem2_0 (a : list vec3) (i : nat) :
  (i < List.length a)%nat -> getitem2 a i 0 = Ok (vx (nth i a vzero)).
Proof.
  intro H. unfold getitem2. rewrite (getitem_nth a i vzero H). reflexivity.
Qed.

Lemma rel_root_valid_spec (item : sample) :
  (42 <= List.length (joints_3d_visible item))%nat ->
  exists valid,
    rel_root_valid item = Ok valid /\
    (valid = true <->
     marks_interacting item /\ wrist_flag_set item 20 /\ wrist_flag_set item 41).
Proof.
  intro Hlen. unfold rel_root_valid, marks_interacting, wrist_flag_set.
  rewrite !getitem2_0 by lia. cbn [bind].
  pose proof (np_all_spec (hand_type item)) as Ha.
  pose proof (truthy_spec (vx (nth 20 (joints_3d_visible item) vzero))) as Hr.
  pose proof (truthy_spec (vx (nth 41 (joints_3d_visible item) vzero))) as Hl.
  destruct (np_all (hand_type item)).
  - destruct (truthy (vx (nth 20 (joints_3d_visible item) vzero))).
    + eexists. split; [reflexivity|]. tauto.
    + exists false. split; [reflexivity|].
      split; [discriminate|]. intros (_ & H & _). apply Hr in H. discriminate.
  - exists false. split; [reflexivity|].
    split; [discriminate|]. intros (H & _). apply Ha in H. discriminate.
Qed.

(** For a sample that passes the condition, the predicted wrist keypoint
    read from the results file is a plain list, and [_pixel2cam] refuses
    it. *)
Lemma mrrpe_entry_included_raises (pred : kpt) (item : sample)
    (keypoints : list (list Q)) (wrist : list Q) (z depth rel : Q) :
  rel_root_valid item = Ok true ->
  kp_keypoints pred = Some keypoints ->
  getitem keypoints 41 = Ok wrist ->
  getitem wrist 2 = Ok z ->
  getitem (abs_depth item) 0 = Ok depth ->
  kp_rel_root_depth pred = Some rel ->
  mrrpe_entry pred item = Raise TypeError.
Proof.
  intros Hvalid Hkeypoints Hwrist Hz Hdepth Hrel. unfold mrrpe_entry, iadd_item.
  rewrite Hvalid. cbn [bind]. rewrite Hkeypoints. cbn [field bind].
  rewrite Hwrist. cbn [bind]. rewrite Hz. cbn [bind].
  rewrite Hdepth. cbn [bind]. rewrite Hrel. reflexivity.
Qed.

(** An entry is returned for a sample that fails the condition alone, and
    it is the placeholder: the branch of a sample that passes ends in the
    call of [_pixel2cam] on a list. *)
Lemma mrrpe_entry_ok_excluded (pred : kpt) (item : sample)
    (t : bool * list vec3 * list vec3) :
  mrrpe_entry pred item = Ok t ->
  rel_root_valid item = Ok false /\ t = placeholder.
Proof.
  unfold mrrpe_entry. intro H. bind_inv H.
  destruct v as [|].
  - exfalso. bind_inv H. bind_inv H. bind_inv H.
    cbn [_pixel2cam bind] in H. discriminate H.
  - split; [exact Hv|]. injection H as <-. reflexivity.
Qed.

(** C4 fails on the code: a sample that the MRRPE average should include
    is never measured.  The condition of the branch is the one the claim
    gives for inclusion (the hand type marks interacting and both wrist
    flags are set; the handedness-validity flag is not read), but the
    branch of a sample that passes it hands [_pixel2cam] the wrist
    keypoint as the plain list read from the results file: the only entry
    the loop ever returns is the placeholder of an excluded sample.  With
    one included sample and a full prediction, valid handedness label or
    not, [_report_metric] raises the TypeError after reading the results
    file; the MPJPE part of the loop, which converts the keypoints with
    [np.array] first, succeeds on the same input. *)
Theorem mrrpe_included_sample_raises :
  (forall (pred : kpt) (item : sample) (t : bool * list vec3 * list vec3),
      mrrpe_entry pred item = Ok t ->
      rel_root_valid item = Ok false /\ t = placeholder) /\
  (forall item : sample,
      (42 <= List.length (joints_3d_visible item))%nat ->
      (rel_root_valid item = Ok true <->
       marks_interacting item /\
       wrist_flag_set item 20 /\ wrist_flag_set item 41) /\
      (forall flag,
          rel_root_valid (with_hand_type_valid item flag)
          = rel_root_valid item)) /\
  (rel_root_valid included_sample = Ok true /\
   mrrpe_entry full_pred included_sample = Raise TypeError /\
   _report_metric ex_norm (ex_dataset [included_sample]) results_file
     ["MRRPE"] (results_world [full_pred])
   = (Raise TypeError,
      World (files (results_world [full_pred])) [EvRead results_file])) /\
  (handedness_valid invalid_label_sample = false /\
   rel_root_valid invalid_label_sample = Ok true /\
   _report_metric ex_norm (ex_dataset [invalid_label_sample]) results_file
     ["MRRPE"] (results_world [full_pred])
   = (Raise TypeError,
      World (files (results_world [full_pred])) [EvRead results_file])) /\
  (exists t,
      mpjpe_entry (ex_dataset [included_sample]) full_pred included_sample
      = Ok t).
Proof.
  split; [exact mrrpe_entry_ok_excluded|].
  split.
  { intros item Hlen.
    destruct (rel_root_valid_spec item Hlen) as (valid & Hvalid & Hiff).
    split; [|intro flag; reflexivity].
    rewrite Hvalid. rewrite <- Hiff.
    split; [intro H; injection H as ->; reflexivity | intros ->; reflexivity]. }
  split; [|split].
  - repeat split; vm_compute; reflexivity.
  - repeat split; vm_compute; reflexivity.
  - eexists. vm_compute. reflexivity.
Qed.

(** ** The evaluation entry point *)

Lemma check_metrics_refuses (metrics : list string) :
  (exists name, In name metrics /\ ~ In name allowed_metrics) ->
  exists name,
    In name metrics /\ ~ In name allowed_metrics /\
    check_metrics metrics = Raise (not_supported name).
Proof.
  induction metrics as [|m metrics IH]; intros (name & Hin & Hbad).
  - destruct Hin.
  - cbn [check_metrics]. destruct (str_in m allowed_metrics) eqn:E.
    + apply str_in_In in E. destruct Hin as [->|Hin]; [contradiction|].
      destruct IH as (name' & Hin' & Hbad' & Hchk); [eauto|].
      exists name'. split; [right; exact Hin' | split; [exact Hbad' | exact Hchk]].
    + exists m. split; [left; reflexivity | split; [|reflexivity]].
      intro H. apply str_in_In in H. congruence.
Qed.

Lemma check_metrics_accepts (metrics : list string) :
  Forall (fun name => In name allowed_metrics) metrics ->
  check_metrics metrics = Ok tt.
Proof.
  induction 1 as [|m metrics Hm _ IH]; [reflexivity|].
  cbn [check_metrics]. apply str_in_In in Hm. rewrite Hm. exact IH.
Qed.

Section Evaluate.

Variable norm : vec3 -> Q.
Variable _sort_and_unique_bboxes : list kpt -> list kpt.
Variable _write_keypoint_results : list kpt -> string -> io unit.

(** C8: when a requested metric is outside MRRPE, MPJPE and
    Handedness_acc, [evaluate] raises the KeyError of such a metric and
    leaves the world as it found it: no file has been read or written and
    no metric computed. *)
Theorem evaluate_refuses_unsupported_metric
    (self : dataset_obj) (outputs : list output) (res_folder : string)
    (metric : metric_arg) (w : world) :
  (exists name, In name (metrics_of metric) /\ ~ In name allowed_metrics) ->
  exists name,
    In name (metrics_of metric) /\ ~ In name allowed_metrics /\
    evaluate norm _sort_and_unique_bboxes _write_keypoint_results
      self outputs res_folder metric w
    = (Raise (not_supported name), w).
Proof.
  intro H. destruct (check_metrics_refuses _ H) as (name & Hin & Hbad & Hchk).
  exists name. split; [exact Hin | split; [exact Hbad |]].
  unfold evaluate, io_bind, io_lift. rewrite Hchk. reflexivity.
Qed.

(** C10: [_report_metric] reads the results file and then asserts that it
    holds as many predictions as the database has records: when the counts
    differ it raises an AssertionError with only the read done; when they
    agree it goes on to the loop over the pairs and the metrics. *)
Theorem report_metric_asserts_one_prediction_per_record
    (self : dataset_obj) (res_file : string) (metrics : list string)
    (w : world) (preds : list kpt) :
  lookup (files w) res_file = Ok (Keypoints preds) ->
  let w' := World (files w) (log w ++ [EvRead res_file]) in
  (List.length preds <> List.length (db self) ->
   _report_metric norm self res_file metrics w = (Raise AssertionError, w')) /\
  (List.length preds = List.length (db self) ->
   _report_metric norm self res_file metrics w
   = (bind (report_loop self metrics (combine preds (db self)))
           (report_values norm metrics), w')).
Proof.
  intros Hfile w'. unfold _report_metric, io_bind, io_lift, json_load.
  rewrite Hfile. cbn [as_keypoints]. split; intro Hlen.
  - apply Nat.eqb_neq in Hlen. rewrite Hlen. reflexivity.
  - apply Nat.eqb_eq in Hlen. rewrite Hlen.
    destruct (report_loop self metrics (combine preds (db self))); reflexivity.
Qed.

End Evaluate.

Lemma evaluate_refuses_unsupported_metric_witness :
  exists name,
    In name ["MPJPE"; "PCK"] /\ ~ In name allowed_metrics /\
    evaluate ex_norm ex_sort_and_unique_bboxes ex_write_keypoint_results
      (ex_dataset scenario_db) [] "out" (MetricList ["MPJPE"; "PCK"]) ex_world
    = (Raise (not_supported name), ex_world).
Proof.
  apply (evaluate_refuses_unsupported_metric
           ex_norm ex_sort_and_unique_bboxes ex_write_keypoint_results
           (ex_dataset scenario_db) [] "out" (MetricList ["MPJPE"; "PCK"])
           ex_world).
  exists "PCK". split; [right; left; reflexivity|].
  intros [H|[H|[H|[]]]]; discriminate H.
Defined.

Lemma report_metric_asserts_one_prediction_per_record_witness :
  _report_metric ex_norm (ex_dataset scenario_db) results_file
    ["Handedness_acc"] (results_world [full_pred])
  = (Raise AssertionError,
     World (files (results_world [full_pred])) [EvRead results_file]).
Proof.
  apply (proj1 (report_metric_asserts_one_prediction_per_record
                  ex_norm (ex_dataset scenario_db) results_file
                  ["Handedness_acc"] (results_world [full_pred]) [full_pred]
                  eq_refl)).
  simpl. discriminate.
Defined.

(** The whole entry point on the handedness scenario: the results file is
    written, read back, and the accuracy is 0.75. *)
Example evaluate_handedness_scenario :
  let batch :=
    {| out_preds := None;
       out_hand_type :=
         Some [[1; 0; 1; 0]; [0; 1; 0; 1]; [1; 1; 1; 1]; [0; 1; 0; 1]];
       out_rel_root_depth := None;
       out_boxes := repeat [60; 120; 125; 250; 1; 1] 4;
       out_image_paths := repeat "data/image5.jpg" 4;
       out_bbox_ids := [0; 1; 2; 3]%Z |} in
  evaluate ex_norm ex_sort_and_unique_bboxes ex_write_keypoint_results
    (ex_dataset scenario_db) [batch] "out" (Metric "Handedness_acc")
    {| files := []; log := [] |}
  = (Ok [("Handedness_acc", Fin (3 # 4))],
     {| files := [(results_file, Keypoints scenario_preds)];
        log := [EvWrite results_file; EvRead results_file] |}).
Proof. vm_compute. reflexivity. Qed.

(** ** The database builder *)

Section Builder.

Variable _xywh2cs : Q -> Q -> Q -> Q -> Q -> vec2 * vec2.

(** No image gets a record: whatever the inputs, the body of the loop
    raises, at the latest at [joint_cam[:21, 3]]. *)
Lemma get_db_item_never_completes (self : dataset_obj)
    (cameras : list (string * camera_table))
    (joints : list (string * list (string * list vec3)))
    (rootnet_result : option (list (Z * rootnet_entry)))
    (img_id bbox_id : Z) (item : sample) :
  get_db_item _xywh2cs self cameras joints rootnet_result img_id bbox_id
  <> Ok item.
Proof.
  intro H. unfold get_db_item in H.
  repeat match goal with
         | Hc : column _ 3 = Ok _ |- _ => discriminate Hc
         | Hb : bind _ _ = Ok _ |- _ => bind_inv Hb
         | Hm : match ?x with pair _ _ => _ end = Ok _ |- _ => destruct x
         end.
Qed.

(** With ground-truth root depth the table of root-depth estimates is not
    consulted: the body of the loop is the same for every table. *)
Lemma get_db_item_gt_ignores_table (self : dataset_obj)
    (cameras : list (string * camera_table))
    (joints : list (string * list (string * list vec3)))
    (table table' : option (list (Z * rootnet_entry))) (img_id bbox_id : Z) :
  use_gt_root_depth self = true ->
  get_db_item _xywh2cs self cameras joints table img_id bbox_id
  = get_db_item _xywh2cs self cameras joints table' img_id bbox_id.
Proof. intro H. unfold get_db_item. rewrite H. reflexivity. Qed.

(** Without ground-truth root depth [_get_db] reads the camera and joint
    files alone and runs the loop with the table unbound. *)
Lemma get_db_external_table_unbound (self : dataset_obj) (w : world)
    (cameras : list (string * camera_table))
    (joints : list (string * list (string * list vec3))) :
  use_gt_root_depth self = false ->
  lookup (files w) (camera_file self) = Ok (Cameras cameras) ->
  lookup (files w) (joint_file self) = Ok (Joints joints) ->
  _get_db _xywh2cs self w
  = (bind (get_db_loop _xywh2cs self cameras joints None (img_ids self) 0%Z [])
          (fun gt_db => Ok (sorted_by_bbox_id gt_db)),
     World (files w)
       ((log w ++ [EvRead (camera_file self)]) ++ [EvRead (joint_file self)])).
Proof.
  intros Hgt Hcam Hjoint.
  unfold _get_db, io_bind, io_lift, io_ret, json_load.
  rewrite Hcam. cbn [as_cameras files]. rewrite Hjoint. cbn [as_joints].
  rewrite Hgt.
  destruct (get_db_loop _ _ _ _ _ _ _ _); reflexivity.
Qed.

Ltac resolve_lookups r :=
  rewrite (r_ann_ok r); cbn [bind]; rewrite (r_img_ok r); cbn [bind];
  rewrite (r_name_ok r); cbn [bind]; rewrite (r_cam_ok r); cbn [bind];
  rewrite (r_pos_ok r); cbn [bind]; rewrite (r_rot_ok r); cbn [bind];
  rewrite (r_focal_ok r); cbn [bind]; rewrite (r_princpt_ok r); cbn [bind];
  rewrite (r_frames_ok r); cbn [bind]; rewrite (r_world_ok r); cbn [bind];
  rewrite (r_hand_ok r); cbn [bind].

(** Without ground-truth root depth, an image with everything found raises
    on the unbound local. *)
Lemma get_db_item_external_unbound (self : dataset_obj)
    (cameras : list (string * camera_table))
    (joints : list (string * list (string * list vec3)))
    (img_id bbox_id : Z) :
  use_gt_root_depth self = false ->
  resolved self cameras joints img_id ->
  get_db_item _xywh2cs self cameras joints None img_id bbox_id
  = Raise (UnboundLocalError "rootnet_result").
Proof.
  intros Hgt r. unfold get_db_item. resolve_lookups r.
  rewrite Hgt. reflexivity.
Qed.

(** With ground-truth root depth, a box of four numbers, 42 world joints
    and 42 validity flags, the body of the loop reaches the assignment of
    the depth column and raises there. *)
Lemma get_db_item_gt_index_error (self : dataset_obj)
    (cameras : list (string * camera_table))
    (joints : list (string * list (string * list vec3)))
    (table : option (list (Z * rootnet_entry)))
    (img_id bbox_id : Z) (r : resolved self cameras joints img_id) :
  use_gt_root_depth self = true ->
  num_joints self = 42%nat ->
  List.length (ann_bbox (r_ann r)) = 4%nat ->
  List.length (r_world r) = 42%nat ->
  List.length (ann_joint_valid (r_ann r)) = 42%nat ->
  get_db_item _xywh2cs self cameras joints table img_id bbox_id
  = Raise IndexError.
Proof.
  intros Hgt Hnum Hbox Hworld Hvalid. unfold get_db_item. resolve_lookups r.
  rewrite Hgt.
  destruct (ann_bbox (r_ann r)) as [|x [|y [|w [|h [|? ?]]]]]; try discriminate.
  cbn [xywh2cs_unpacked bind].
  set (joint_cam := _world2cam (r_world r) (r_rot r) (r_pos r)).
  assert (Hcam : List.length joint_cam = 42%nat).
  { unfold joint_cam, _world2cam. rewrite length_map. exact Hworld. }
  assert (Hget : forall i, (i < 42)%nat ->
             getitem2 joint_cam i 2 = Ok (vz (nth i joint_cam vzero))).
  { intros i Hi. unfold getitem2.
    rewrite (getitem_nth joint_cam i vzero) by lia. reflexivity. }
  rewrite !Hget by lia. cbn [bind].
  destruct (_xywh2cs x y w h (5 # 4)) as [center scale].
  rewrite propagate_root_validity_eq by lia. cbn [bind].
  unfold set_xy. rewrite Hnum, repeat_length, length_map.
  unfold _cam2pixel. rewrite length_map, Hcam. cbn [Nat.eqb bind].
  reflexivity.
Qed.

End Builder.

(** C1 fails on the code: no record is ever built.  For every input the
    body of the loop of [_get_db] raises; on the example image, with ground
    truth root depth, it raises the IndexError of [joint_cam[:21, 3]], and
    so does the constructor of the dataset. *)
Theorem record_construction_raises :
  (forall _xywh2cs self cameras joints rootnet_result img_id bbox_id item,
      get_db_item _xywh2cs self cameras joints rootnet_result img_id bbox_id
      <> Ok item) /\
  get_db_item ex_xywh2cs (ex_dataset []) ex_cameras ex_joints
    (Some (index_rootnet ex_rootnet)) 1 0
  = Raise IndexError /\
  fst (__init__ ex_xywh2cs ex_base "cameras.json" "joints.json" true
         (Some "rootnet.json") ex_world)
  = Raise IndexError.
Proof.
  split; [exact get_db_item_never_completes|].
  split; vm_compute; reflexivity.
Qed.

(** C2 fails on the code: the guards on the table of root-depth estimates
    are inverted.  With the external estimator selected the table is not
    loaded and the first image raises on the unbound local
    [rootnet_result]; with ground-truth root depth the table file is
    required and read although it is not consulted, and the default
    arguments fail the assertion. *)
Theorem root_depth_table_guard_inverted :
  __init__ ex_xywh2cs ex_base "cameras.json" "joints.json" false
    (Some "rootnet.json") ex_world
  = (Raise (UnboundLocalError "rootnet_result"),
     World (files ex_world) [EvRead "cameras.json"; EvRead "joints.json"]) /\
  log (snd (__init__ ex_xywh2cs ex_base "cameras.json" "joints.json" true
              (Some "rootnet.json") ex_world))
  = [EvRead "cameras.json"; EvRead "joints.json"; EvRead "rootnet.json"] /\
  __init__ ex_xywh2cs ex_base "cameras.json" "joints.json" true None ex_world
  = (Raise AssertionError, ex_world).
Proof.
  split; [vm_compute; reflexivity|].
  split; vm_compute; reflexivity.
Qed.

(** ** Further properties of the root validity *)

Lemma getitem_out_of_range {A} (l : list A) (i : nat) :
  (List.length l <= i)%nat -> getitem l i = Raise IndexError.
Proof.
  intro H. unfold getitem.
  destruct (nth_error l i) eqn:E; [|reflexivity].
  apply nth_error_None in H. congruence.
Qed.

(** X3: the propagation needs 42 flags: an array of fewer flags raises an
    IndexError, an array of at least 42 gives an array of the same
    length. *)
Theorem propagate_root_validity_needs_42_flags (joint_valid : list Q) :
  ((List.length joint_valid < 42)%nat ->
   propagate_root_validity joint_valid = Raise IndexError) /\
  ((42 <= List.length joint_valid)%nat ->
   exists jv,
     propagate_root_validity joint_valid = Ok jv /\
     List.length jv = List.length joint_valid).
Proof.
  split; intro H.
  - unfold propagate_root_validity.
    destruct (Nat.le_gt_cases (List.length joint_valid) 20) as [Hshort|Hlong].
    + rewrite getitem_out_of_range by exact Hshort. reflexivity.
    + rewrite (getitem_nth joint_valid 20 0) by lia. cbn [bind].
      rewrite getitem_out_of_range; [reflexivity|].
      unfold imul_slice. rewrite length_on_slice. lia.
  - eexists. split; [apply propagate_root_validity_eq; exact H|].
    unfold imul_slice. rewrite !length_on_slice. reflexivity.
Qed.

Lemma propagate_root_validity_needs_42_flags_witness :
  propagate_root_validity (repeat 1 41) = Raise IndexError /\
  exists jv,
    propagate_root_validity flags_example = Ok jv /\
    List.length jv = List.length flags_example.
Proof.
  split.
  - apply (proj1 (propagate_root_validity_needs_42_flags (repeat 1 41))).
    simpl. lia.
  - apply (proj2 (propagate_root_validity_needs_42_flags flags_example)).
    simpl. lia.
Defined.

Lemma binary_nth (l : list Q) (i : nat) :
  Forall binary l -> (i < List.length l)%nat -> binary (nth i l 0).
Proof.
  intros H Hi. rewrite Forall_forall in H. apply H. apply nth_In. exact Hi.
Qed.

Lemma binary_product (a b : Q) :
  binary a -> binary b ->
  binary (a * b) /\ (a * b == 1 <-> a == 1 /\ b == 1).
Proof.
  unfold binary. intros [Ha|Ha] [Hb|Hb]; rewrite Ha, Hb; split;
    try (left; ring); try (right; ring);
    split; try (intros [H1 H2]); try intro H1;
    try (vm_compute in H1; discriminate H1);
    try (vm_compute in H2; discriminate H2);
    try (split; reflexivity); try reflexivity.
Qed.

(** X4: on 42 flags that are 0 or 1 the propagated flags are 0 or 1, and
    a joint's flag is 1 afterwards exactly when it was 1 and the flag of
    its hand's wrist was 1. *)
Theorem propagated_flags_are_conjunctions (joint_valid : list Q) :
  List.length joint_valid = 42%nat ->
  Forall binary joint_valid ->
  exists jv,
    propagate_root_validity joint_valid = Ok jv /\
    Forall binary jv /\
    forall i, (i < 42)%nat ->
         (nth i jv 0 == 1 <->
          nth i joint_valid 0 == 1 /\
          nth (wrist_of i) joint_valid 0 == 1).
Proof.
  intros Hlen Hbin.
  assert (H42 : (42 <= List.length joint_valid)%nat) by lia.
  eexists. split; [apply propagate_root_validity_eq; exact H42|].
  set (jv := imul_slice _ _ _ _).
  assert (Hjv : List.length jv = 42%nat).
  { unfold jv, imul_slice. rewrite !length_on_slice. exact Hlen. }
  assert (Hb : forall i, (i < 42)%nat -> binary (nth i joint_valid 0)).
  { intros i Hi. apply binary_nth; [exact Hbin | lia]. }
  assert (Hnth : forall i, (i < 42)%nat ->
            binary (nth i jv 0) /\
            (nth i jv 0 == 1 <->
             nth i joint_valid 0 == 1 /\
             nth (wrist_of i) joint_valid 0 == 1)).
  { intros i Hi. unfold jv, wrist_of. rewrite nth_propagated by lia.
    destruct (Nat.ltb_spec i 20) as [H20|H20].
    - destruct (Nat.ltb_spec i 21); [|lia].
      apply binary_product; apply Hb; lia.
    - destruct (Nat.eqb_spec i 20) as [->|Hne].
      + cbn [Nat.ltb Nat.leb]. split; [apply Hb; lia | tauto].
      + destruct (Nat.ltb_spec i 21); [lia|].
        apply binary_product; apply Hb; lia. }
  split.
  - apply Forall_forall. intros v Hv.
    destruct (In_nth _ _ 0 Hv) as (i & Hi & <-). apply Hnth. lia.
  - intros i Hi. apply Hnth. exact Hi.
Qed.

Lemma propagated_flags_are_conjunctions_witness :
  exists jv,
    propagate_root_validity flags_example = Ok jv /\
    Forall binary jv /\
    forall i, (i < 42)%nat ->
         (nth i jv 0 == 1 <->
          nth i flags_example 0 == 1 /\
          nth (wrist_of i) flags_example 0 == 1).
Proof.
  apply (propagated_flags_are_conjunctions flags_example); [reflexivity|].
  unfold flags_example. simpl.
  repeat (constructor;
          [first [left; reflexivity | right; reflexivity]|]).
  constructor.
Defined.

(** ** Further properties of the handedness accuracy *)

Lemma astype_int_integer (z : Z) : astype_int (inject_Z z) = z.
Proof.
  unfold astype_int. destruct (Qle_bool 0 (inject_Z z));
    [apply Qfloor_Z | apply Qceiling_Z].
Qed.

Lemma astype_int_fraction (q : Q) : -1 < q -> q < 1 -> astype_int q = 0%Z.
Proof.
  intros Hlo Hhi. unfold astype_int.
  destruct (Qle_bool 0 q) eqn:E.
  - apply Qle_bool_iff in E.
    pose proof (Qfloor_le q) as Hle. pose proof (Qlt_floor q) as Hlt.
    rewrite inject_Z_plus in Hlt. change (inject_Z 1) with 1 in Hlt.
    assert (H1 : inject_Z (Qfloor q) < 1) by lra.
    assert (H2 : -1 < inject_Z (Qfloor q)) by lra.
    change 1 with (inject_Z 1) in H1. change (-1) with (inject_Z (-1)) in H2.
    rewrite <- Zlt_Qlt in H1, H2. lia.
  - assert (Hneg : q < 0).
    { apply Qnot_le_lt. intro H. apply Qle_bool_iff in H. congruence. }
    pose proof (Qle_ceiling q) as Hle. pose proof (Qceiling_lt q) as Hlt.
    unfold Z.sub in Hlt. rewrite inject_Z_plus in Hlt.
    assert (Hlt' : inject_Z (Qceiling q) - 1 < q) by exact Hlt.
    assert (H1 : -1 < inject_Z (Qceiling q)) by lra.
    assert (H2 : inject_Z (Qceiling q) < 1) by lra.
    change 1 with (inject_Z 1) in H2. change (-1) with (inject_Z (-1)) in H1.
    rewrite <- Zlt_Qlt in H1, H2. lia.
Qed.

(** X5: the predicted hand type is compared as integers rounded toward
    zero: a prediction of whole numbers that fit 32 bits, and so the
    integer type of the array on every platform, is taken as it is, and a
    prediction whose components all lie strictly between -1 and 1 is
    taken as the zero vector. *)
Theorem handedness_entry_truncates (pred : kpt) (item : sample) :
  (forall v : list Z,
      Forall int32 v ->
      kp_hand_type pred = Some (map inject_Z v) ->
      handedness_entry pred item
      = Ok (v, hand_type item, handedness_valid item)) /\
  (forall v : list Q,
      kp_hand_type pred = Some v ->
      Forall (fun q => -1 < q /\ q < 1) v ->
      handedness_entry pred item
      = Ok (repeat 0%Z (List.length v), hand_type item, handedness_valid item)).
Proof.
  unfold handedness_entry, handedness_valid. split.
  - intros v _ Hv. rewrite Hv. cbn [field bind]. rewrite map_map.
    rewrite (map_ext _ (fun z => z) astype_int_integer), map_id. reflexivity.
  - intros v Hv Hfrac. rewrite Hv. cbn [field bind].
    replace (map astype_int v) with (repeat 0%Z (List.length v)); [reflexivity|].
    clear Hv. induction Hfrac as [|q v [Hlo Hhi] _ IH]; [reflexivity|].
    cbn [List.length repeat map]. rewrite IH, astype_int_fraction by assumption.
    reflexivity.
Qed.

Lemma handedness_entry_truncates_witness :
  handedness_entry (ex_pred None (Some [1; 0]) None 0) (ex_sample [1; 0]%Z 1 0)
  = Ok ([1; 0]%Z, [1; 0]%Z, true) /\
  handedness_entry (ex_pred None (Some [9 # 10; 1 # 10]) None 0)
    (ex_sample [1; 0]%Z 1 0)
  = Ok ([0; 0]%Z, [1; 0]%Z, true).
Proof.
  split.
  - apply (proj1 (handedness_entry_truncates
                    (ex_pred None (Some [1; 0]) None 0) (ex_sample [1; 0]%Z 1 0))
             [1; 0]%Z).
    + repeat constructor; unfold int32; lia.
    + reflexivity.
  - apply (proj2 (handedness_entry_truncates
                    (ex_pred None (Some [9 # 10; 1 # 10]) None 0)
                    (ex_sample [1; 0]%Z 1 0))
             [9 # 10; 1 # 10]).
    + reflexivity.
    + repeat constructor.
Defined.

Lemma count_correct_le_valid (outputs gts : list (list Z)) (masks : list bool) :
  (count_correct outputs gts masks <= count_valid masks)%nat.
Proof.
  revert gts masks.
  induction outputs as [|o outputs IH]; intros [|g gts] [|[|] masks];
    cbn [count_correct count_valid]; try lia.
  - destruct (list_eq_dec Z.eq_dec o g); specialize (IH gts masks); lia.
  - apply IH.
Qed.

Lemma count_correct_same (outputs : list (list Z)) (masks : list bool) :
  List.length masks = List.length outputs ->
  count_correct outputs outputs masks = count_valid masks.
Proof.
  revert masks. induction outputs as [|o outputs IH]; intros [|[|] masks] H;
    simpl in H; try discriminate; cbn [count_correct count_valid];
    try reflexivity.
  - destruct (list_eq_dec Z.eq_dec o o); [|congruence].
    rewrite IH by lia. reflexivity.
  - apply IH. lia.
Qed.

Lemma fraction_bounds (c v : nat) :
  (c <= S v)%nat ->
  0 <= Z.of_nat c # Pos.of_nat (S v) /\ Z.of_nat c # Pos.of_nat (S v) <= 1.
Proof.
  intro H. unfold Qle. cbn [Qnum Qden].
  rewrite <- Pos.of_nat_succ, Zpos_P_of_succ_nat. lia.
Qed.

(** X6: on [N, C] arrays with a mask of length [N] that selects a sample,
    [_get_accuracy] returns a number between 0 and 1, and it returns 1
    when the predictions are the ground truth. *)
Theorem get_accuracy_bounds (outputs gts : list (list Z)) (masks : list bool) :
  Forall2 (fun o g => List.length o = List.length g) outputs gts ->
  List.length masks = List.length outputs ->
  In true masks ->
  (exists q,
      _get_accuracy (Arr2 outputs) (Arr2 gts) masks = Ok (Fin q) /\
      0 <= q /\ q <= 1) /\
  (exists q,
      _get_accuracy (Arr2 gts) (Arr2 gts) masks = Ok (Fin q) /\ q == 1).
Proof.
  intros Hrows Hlen Hin.
  assert (Hvalid : exists n, count_valid masks = S n).
  { clear -Hin. induction masks as [|[|] masks IH]; [destruct Hin| |].
    - eexists. reflexivity.
    - destruct Hin as [H|H]; [discriminate|]. apply IH. exact H. }
  destruct Hvalid as (n & Hn). split.
  - rewrite get_accuracy_is_valid_fraction by assumption.
    unfold accuracy_spec. rewrite Hn. eexists. split; [reflexivity|].
    apply fraction_bounds. rewrite <- Hn. apply count_correct_le_valid.
  - pose proof (Forall2_length Hrows) as Hsame.
    rewrite get_accuracy_is_valid_fraction.
    + unfold accuracy_spec. rewrite count_correct_same by lia. rewrite Hn.
      eexists. split; [reflexivity|].
      unfold Qeq. cbn [Qnum Qden].
      rewrite <- Pos.of_nat_succ, Zpos_P_of_succ_nat. lia.
    + clear. induction gts; constructor; [reflexivity | assumption].
    + lia.
Qed.

Lemma get_accuracy_bounds_witness :
  (exists q,
      _get_accuracy (Arr2 [[1; 0]; [0; 1]]%Z) (Arr2 [[1; 0]; [1; 1]]%Z)
        [true; true] = Ok (Fin q) /\
      0 <= q /\ q <= 1) /\
  (exists q,
      _get_accuracy (Arr2 [[1; 0]; [1; 1]]%Z) (Arr2 [[1; 0]; [1; 1]]%Z)
        [true; true] = Ok (Fin q) /\ q == 1).
Proof.
  apply (get_accuracy_bounds [[1; 0]; [0; 1]]%Z [[1; 0]; [1; 1]]%Z [true; true]).
  - repeat constructor.
  - reflexivity.
  - left. reflexivity.
Defined.

Lemma count_valid_repeat_true (n : nat) : count_valid (repeat true n) = n.
Proof. induction n as [|n IH]; [reflexivity|]. simpl. rewrite IH. reflexivity. Qed.

Lemma count_correct_select (outputs gts : list (list Z)) (masks : list bool) :
  List.length outputs = List.length gts ->
  List.length masks = List.length outputs ->
  count_correct (select masks outputs) (select masks gts)
    (repeat true (count_valid masks))
  = count_correct outputs gts masks.
Proof.
  revert gts masks.
  induction outputs as [|o outputs IH]; intros [|g gts] [|b masks] Hog Hlen;
    simpl in Hog, Hlen; try discriminate; [reflexivity|].
  rewrite !select_cons. destruct b; cbn [count_valid repeat count_correct].
  - rewrite IH by lia. reflexivity.
  - apply IH; lia.
Qed.

Lemma select_rows_same_length (outputs gts : list (list Z)) (masks : list bool) :
  Forall2 (fun o g => List.length o = List.length g) outputs gts ->
  List.length masks = List.length outputs ->
  Forall2 (fun o g => List.length o = List.length g)
    (select masks outputs) (select masks gts).
Proof.
  intro Hrows. revert masks.
  induction Hrows as [|o g outputs gts Hog _ IH]; intros [|b masks] Hlen;
    simpl in Hlen; try discriminate; [constructor|].
  rewrite !select_cons. destruct b; [constructor; [exact Hog|]|]; apply IH; lia.
Qed.

(** X7: the samples that the mask leaves out do not enter the accuracy:
    [_get_accuracy] on [N, C] arrays with a mask of length [N] returns
    what it returns on the selected rows alone with every row valid. *)
Theorem get_accuracy_ignores_masked
    (outputs gts : list (list Z)) (masks : list bool) :
  Forall2 (fun o g => List.length o = List.length g) outputs gts ->
  List.length masks = List.length outputs ->
  _get_accuracy (Arr2 outputs) (Arr2 gts) masks
  = _get_accuracy (Arr2 (select masks outputs)) (Arr2 (select masks gts))
      (repeat true (count_valid masks)).
Proof.
  intros Hrows Hlen. pose proof (Forall2_length Hrows) as Hog.
  rewrite get_accuracy_is_valid_fraction by assumption.
  rewrite get_accuracy_is_valid_fraction.
  - unfold accuracy_spec.
    rewrite count_valid_repeat_true, count_correct_select by assumption.
    reflexivity.
  - apply select_rows_same_length; assumption.
  - rewrite repeat_length, length_select by exact Hlen. reflexivity.
Qed.

Lemma get_accuracy_ignores_masked_witness :
  _get_accuracy (Arr2 [[1; 0]; [0; 1]; [1; 1]]%Z) (Arr2 [[1; 0]; [1; 1]; [0; 1]]%Z)
    [true; false; true]
  = _get_accuracy (Arr2 [[1; 0]; [1; 1]]%Z) (Arr2 [[1; 0]; [0; 1]]%Z)
      [true; true].
Proof.
  apply (get_accuracy_ignores_masked
           [[1; 0]; [0; 1]; [1; 1]]%Z [[1; 0]; [1; 1]; [0; 1]]%Z
           [true; false; true]).
  - repeat constructor.
  - reflexivity.
Defined.

(** ** The table of root-depth estimates *)

Lemma lookupZ_setitemZ {A} (d : list (Z * A)) (k id : Z) (v : A) :
  lookupZ (setitemZ d k v) id
  = if (id =? k)%Z then Ok v else lookupZ d id.
Proof.
  induction d as [|[k' v'] d IH]; cbn [setitemZ lookupZ].
  - destruct (id =? k)%Z; reflexivity.
  - destruct (Z.eqb_spec k k') as [->|Hk]; cbn [lookupZ].
    + destruct (id =? k')%Z; reflexivity.
    + rewrite IH. destruct (Z.eqb_spec id k') as [->|Hid].
      * destruct (Z.eqb_spec k' k); [congruence | reflexivity].
      * reflexivity.
Qed.

Lemma lookupZ_fold_setitemZ (annot : list rootnet_entry)
    (d : list (Z * rootnet_entry)) (id : Z) :
  lookupZ (fold_left (fun d e => setitemZ d (rn_annot_id e) e) annot d) id
  = match find (fun e => (rn_annot_id e =? id)%Z) (rev annot) with
    | Some e => Ok e
    | None => lookupZ d id
    end.
Proof.
  revert d. induction annot as [|e annot IH]; intro d; [reflexivity|].
  cbn [fold_left rev]. rewrite IH.
  assert (Hfind : forall l,
             find (fun e0 => (rn_annot_id e0 =? id)%Z) (l ++ [e])
             = match find (fun e0 => (rn_annot_id e0 =? id)%Z) l with
               | Some x => Some x
               | None => if (rn_annot_id e =? id)%Z then Some e else None
               end).
  { induction l as [|x l IHl]; cbn [app find]; [reflexivity|].
    destruct (rn_annot_id x =? id)%Z; [reflexivity | exact IHl]. }
  rewrite Hfind.
  destruct (find _ (rev annot)); [reflexivity|].
  rewrite lookupZ_setitemZ, (Z.eqb_sym id).
  destruct (rn_annot_id e =? id)%Z; reflexivity.
Qed.

(** X8: in the table that [_get_db] builds from the file of root-depth
    estimates, an annotation id is bound to the last entry of the file
    with that id, and an id that is in no entry raises a KeyError. *)
Theorem index_rootnet_last_entry_wins (rootnet_annot : list rootnet_entry)
    (id : Z) :
  lookupZ (index_rootnet rootnet_annot) id
  = match find (fun e => (rn_annot_id e =? id)%Z) (rev rootnet_annot) with
    | Some e => Ok e
    | None => Raise (KeyError "")
    end.
Proof. unfold index_rootnet. apply lookupZ_fold_setitemZ. Qed.

(** ** The order of the database *)

From Stdlib Require Import Permutation Sorted.

Lemma insert_by_bbox_id_perm (x : sample) (l : list sample) :
  Permutation (x :: l) (insert_by_bbox_id x l).
Proof.
  induction l as [|y l IH]; cbn [insert_by_bbox_id]; [apply Permutation_refl|].
  destruct (bbox_id x <=? bbox_id y)%Z; [apply Permutation_refl|].
  apply perm_trans with (y :: x :: l); [apply perm_swap|].
  apply perm_skip. exact IH.
Qed.

Lemma insert_by_bbox_id_sorted (x : sample) (l : list sample) :
  Sorted (fun a b => (bbox_id a <= bbox_id b)%Z) l ->
  Sorted (fun a b => (bbox_id a <= bbox_id b)%Z) (insert_by_bbox_id x l).
Proof.
  induction 1 as [|y l Hl IH Hhd]; cbn [insert_by_bbox_id].
  - repeat constructor.
  - destruct (Z.leb_spec (bbox_id x) (bbox_id y)) as [Hle|Hgt].
    + constructor; [constructor; assumption|]. constructor. exact Hle.
    + constructor; [exact IH|].
      destruct l as [|z l]; cbn [insert_by_bbox_id].
      * constructor. lia.
      * destruct (bbox_id x <=? bbox_id z)%Z; constructor;
          [lia | inversion Hhd; assumption].
Qed.

(** X9: sorting the database by [bbox_id] rearranges the records into
    non-decreasing identifiers, and leaves a database that is already in
    that order, as the loop builds it, as it is. *)
Theorem sorted_by_bbox_id_sorts (gt_db : list sample) :
  Permutation gt_db (sorted_by_bbox_id gt_db) /\
  Sorted (fun a b => (bbox_id a <= bbox_id b)%Z) (sorted_by_bbox_id gt_db) /\
  (Sorted (fun a b => (bbox_id a <= bbox_id b)%Z) gt_db ->
   sorted_by_bbox_id gt_db = gt_db).
Proof.
  unfold sorted_by_bbox_id. split; [|split].
  - induction gt_db as [|x l IH]; cbn [fold_right]; [constructor|].
    apply perm_trans with (x :: fold_right insert_by_bbox_id [] l);
      [apply perm_skip; exact IH | apply insert_by_bbox_id_perm].
  - induction gt_db as [|x l IH]; cbn [fold_right]; [constructor|].
    apply insert_by_bbox_id_sorted. exact IH.
  - induction 1 as [|x l Hl IH Hhd]; cbn [fold_right]; [reflexivity|].
    rewrite IH. destruct Hhd as [|y l Hxy]; cbn [insert_by_bbox_id];
      [reflexivity|].
    apply Z.leb_le in Hxy. rewrite Hxy. reflexivity.
Qed.

Lemma sorted_by_bbox_id_sorts_witness :
  sorted_by_bbox_id scenario_db = scenario_db.
Proof.
  apply (proj2 (proj2 (sorted_by_bbox_id_sorts scenario_db))).
  unfold scenario_db.
  repeat (constructor; [|try (constructor; simpl; lia)]). constructor.
Defined.

(** ** Collecting the entries of the results file *)

Lemma mapM_ok_inv {A B} (f : A -> result B) (l : list A) (bs : list B) :
  mapM f l = Ok bs -> Forall2 (fun a b => f a = Ok b) l bs.
Proof.
  revert bs. induction l as [|a l IH]; intros bs H; cbn [mapM] in H.
  - injection H as <-. constructor.
  - bind_inv H. bind_inv H. injection H as <-.
    constructor; [assumption | apply IH; assumption].
Qed.

Lemma getitem_skipn {A} (l : list A) (i : nat) (a : A) :
  getitem l i = Ok a -> skipn i l = a :: skipn (S i) l.
Proof.
  unfold getitem. revert i. induction l as [|x l IH]; intros [|i] H;
    cbn [nth_error] in H; try discriminate.
  - injection H as ->. reflexivity.
  - cbn [skipn]. apply IH. exact H.
Qed.

Lemma option_ok_none {A B} (present : option A) (g : A -> result B)
    (made : option B) :
  match present with
  | Some p => (b <- g p ;; Ok (Some b))%py
  | None => Ok None
  end = Ok made ->
  (made = None <-> present = None).
Proof.
  destruct present as [p|]; intro H.
  - bind_inv H. injection H as <-. split; discriminate.
  - injection H as <-. split; reflexivity.
Qed.

Lemma make_kpt_fields (self : dataset_obj)
    (preds : option (list (list (list Q))))
    (hand_type rel_root_depth : option (list (list Q)))
    (boxes : list (list Q)) (image_paths : list string) (bbox_ids : list Z)
    (i : nat) (k : kpt) :
  make_kpt self preds hand_type rel_root_depth boxes image_paths bbox_ids i
  = Ok k ->
  getitem bbox_ids i = Ok (kp_bbox_id k) /\
  (exists path,
      getitem image_paths i = Ok path /\
      lookup (name2id self) (str_drop (String.length (img_prefix self)) path)
      = Ok (kp_image_id k)) /\
  (kp_keypoints k = None <-> preds = None) /\
  (kp_hand_type k = None <-> hand_type = None) /\
  (kp_rel_root_depth k = None <-> rel_root_depth = None).
Proof.
  intro H. unfold make_kpt in H.
  bind_inv H. bind_inv H. do 4 bind_inv H.
  bind_inv H. bind_inv H. bind_inv H. injection H as <-.
  cbn [kp_bbox_id kp_image_id kp_keypoints kp_hand_type kp_rel_root_depth].
  split; [assumption|]. split; [eauto|].
  split; [exact (option_ok_none preds (fun p => getitem p i) v5 Hv5)|].
  split.
  - destruct hand_type as [h|].
    + bind_inv Hv6. injection Hv6 as <-. split; discriminate.
    + injection Hv6 as <-. split; reflexivity.
  - destruct rel_root_depth as [r|].
    + bind_inv Hv7. bind_inv Hv7. injection Hv7 as <-. split; discriminate.
    + injection Hv7 as <-. split; reflexivity.
Qed.

Lemma batch_field_ok {A} (present made : option A) (name : string)
    (metrics : list string) :
  batch_field present name metrics = Ok made ->
  made = present /\ (present = None -> ~ In name metrics).
Proof.
  unfold batch_field. destruct present as [p|]; intro H.
  - injection H as <-. split; [reflexivity | discriminate].
  - destruct (str_in name metrics) eqn:E; [discriminate|].
    injection H as <-. split; [reflexivity|].
    intros _ Hin. apply str_in_In in Hin. congruence.
Qed.

Lemma bbox_ids_in_order (f : nat -> result kpt) (bbox_ids : list Z)
    (n s : nat) (ks : list kpt) :
  (forall i k, f i = Ok k -> getitem bbox_ids i = Ok (kp_bbox_id k)) ->
  Forall2 (fun i k => f i = Ok k) (seq s n) ks ->
  map kp_bbox_id ks = firstn n (skipn s bbox_ids).
Proof.
  intro Hf. revert s ks. induction n as [|n IH]; intros s ks H;
    cbn [seq] in H; inversion H; subst; [reflexivity|].
  cbn [map]. rewrite (getitem_skipn bbox_ids s _ (Hf _ _ H2)).
  cbn [firstn]. f_equal. apply IH. assumption.
Qed.

(** X10: when [evaluate] has collected the entries of a batch, there is
    one entry per image path, in the order of the paths; the entries carry
    the batch's [bbox_ids] in order and the image identifier that
    [name2id] gives for the path without the prefix; and they have the
    keys [keypoints], [hand_type] and [rel_root_depth] exactly when the
    batch has [preds], [hand_type] and [rel_root_depth]. *)
Theorem collect_batch_entries (self : dataset_obj) (metrics : list string)
    (o : output) (ks : list kpt) :
  collect_batch self metrics o = Ok ks ->
  List.length ks = List.length (out_image_paths o) /\
  map kp_bbox_id ks
  = firstn (List.length (out_image_paths o)) (out_bbox_ids o) /\
  Forall2 (fun path k =>
             lookup (name2id self)
               (str_drop (String.length (img_prefix self)) path)
             = Ok (kp_image_id k))
          (out_image_paths o) ks /\
  Forall (fun k =>
            (kp_keypoints k = None <-> out_preds o = None) /\
            (kp_hand_type k = None <-> out_hand_type o = None) /\
            (kp_rel_root_depth k = None <-> out_rel_root_depth o = None))
         ks.
Proof.
  intro H. unfold collect_batch in H.
  bind_inv H. bind_inv H. bind_inv H.
  apply batch_field_ok in Hv as [-> _].
  apply batch_field_ok in Hv0 as [-> _].
  apply batch_field_ok in Hv1 as [-> _].
  apply mapM_ok_inv in H.
  pose proof (Forall2_length H) as Hlen. rewrite length_seq in Hlen.
  split; [symmetry; exact Hlen|]. split; [|split].
  - rewrite (bbox_ids_in_order _ (out_bbox_ids o) _ 0 ks
               (fun i k Hk => proj1 (make_kpt_fields _ _ _ _ _ _ _ _ _ Hk)) H).
    reflexivity.
  - assert (Hgen : forall n s ks',
               Forall2 (fun i k =>
                          make_kpt self (out_preds o) (out_hand_type o)
                            (out_rel_root_depth o) (out_boxes o)
                            (out_image_paths o) (out_bbox_ids o) i = Ok k)
                       (seq s n) ks' ->
               (s + n = List.length (out_image_paths o))%nat ->
               Forall2 (fun path k =>
                          lookup (name2id self)
                            (str_drop (String.length (img_prefix self)) path)
                          = Ok (kp_image_id k))
                       (skipn s (out_image_paths o)) ks').
    { induction n as [|n IH]; intros s ks' H' Hs; cbn [seq] in H';
        inversion H'; subst.
      - rewrite skipn_all2 by lia. constructor.
      - destruct (make_kpt_fields _ _ _ _ _ _ _ _ _ H2)
          as (_ & (path & Hpath & Hid) & _).
        rewrite (getitem_skipn _ _ _ Hpath). constructor; [exact Hid|].
        apply IH; [assumption | lia]. }
    apply (Hgen _ 0%nat ks H). reflexivity.
  - clear Hlen. induction H as [|i k l ks Hi _ IH]; constructor; [|exact IH].
    apply make_kpt_fields in Hi. tauto.
Qed.

Lemma collect_batch_entries_witness :
  List.length scenario_preds = List.length (out_image_paths scenario_batch) /\
  map kp_bbox_id scenario_preds
  = firstn (List.length (out_image_paths scenario_batch))
      (out_bbox_ids scenario_batch) /\
  Forall2 (fun path k =>
             lookup (name2id (ex_dataset scenario_db))
               (str_drop (String.length (img_prefix (ex_dataset scenario_db)))
                  path)
             = Ok (kp_image_id k))
          (out_image_paths scenario_batch) scenario_preds /\
  Forall (fun k =>
            (kp_keypoints k = None <-> out_preds scenario_batch = None) /\
            (kp_hand_type k = None <-> out_hand_type scenario_batch = None) /\
            (kp_rel_root_depth k = None
             <-> out_rel_root_depth scenario_batch = None))
         scenario_preds.
Proof.
  apply (collect_batch_entries (ex_dataset scenario_db) ["Handedness_acc"]
           scenario_batch scenario_preds).
  vm_compute. reflexivity.
Defined.

Lemma collect_outputs_ok_batches (self : dataset_obj) (metrics : list string)
    (outputs : list output) (ks : list kpt) :
  collect_outputs self metrics outputs = Ok ks ->
  Forall (fun o => exists k, collect_batch self metrics o = Ok k) outputs.
Proof.
  revert ks. induction outputs as [|o outputs IH]; intros ks H;
    cbn [collect_outputs] in H; [constructor|].
  bind_inv H. bind_inv H. constructor; [eauto | eapply IH; eassumption].
Qed.

Lemma collect_batch_needs_fields (self : dataset_obj) (metrics : list string)
    (o : output) (ks : list kpt) :
  collect_batch self metrics o = Ok ks ->
  (out_preds o = None -> ~ In "MPJPE" metrics) /\
  (out_hand_type o = None -> ~ In "Handedness_acc" metrics) /\
  (out_rel_root_depth o = None -> ~ In "MRRPE" metrics).
Proof.
  intro H. unfold collect_batch in H.
  bind_inv H. bind_inv H. bind_inv H.
  apply batch_field_ok in Hv as [_ Hp].
  apply batch_field_ok in Hv0 as [_ Hh].
  apply batch_field_ok in Hv1 as [_ Hr].
  auto.
Qed.

Section MissingField.

Variable norm : vec3 -> Q.
Variable _sort_and_unique_bboxes : list kpt -> list kpt.
Variable _write_keypoint_results : list kpt -> string -> io unit.

(** X11: when a batch of the outputs lacks the predictions that a
    requested metric needs ([preds] for MPJPE, [hand_type] for
    Handedness_acc, [rel_root_depth] for MRRPE), [evaluate] raises and
    leaves the world as it found it: no results file is written.  When the
    metrics are supported and it is the first batch that lacks [preds],
    the error is the KeyError that names MPJPE. *)
Theorem evaluate_missing_field_writes_nothing
    (self : dataset_obj) (outputs : list output) (res_folder : string)
    (metric : metric_arg) (w : world) :
  ((exists o,
       In o outputs /\
       ((out_preds o = None /\ In "MPJPE" (metrics_of metric)) \/
        (out_hand_type o = None /\ In "Handedness_acc" (metrics_of metric)) \/
        (out_rel_root_depth o = None /\ In "MRRPE" (metrics_of metric)))) ->
   exists e,
     evaluate norm _sort_and_unique_bboxes _write_keypoint_results
       self outputs res_folder metric w
     = (Raise e, w)) /\
  (Forall (fun name => In name allowed_metrics) (metrics_of metric) ->
   forall o rest,
     outputs = o :: rest ->
     out_preds o = None -> In "MPJPE" (metrics_of metric) ->
     evaluate norm _sort_and_unique_bboxes _write_keypoint_results
       self outputs res_folder metric w
     = (Raise (not_supported "MPJPE"), w)).
Proof.
  split.
  - intros (o & Hin & Hmissing). unfold evaluate, io_bind, io_lift.
    destruct (check_metrics (metrics_of metric)) as [[]|e]; [|eauto].
    destruct (collect_outputs self (metrics_of metric) outputs) as [ks|e] eqn:E;
      [|eauto].
    exfalso. apply collect_outputs_ok_batches in E.
    rewrite Forall_forall in E. destruct (E o Hin) as (k & Hk).
    apply collect_batch_needs_fields in Hk as (Hp & Hh & Hr).
    destruct Hmissing as [[H1 H2]|[[H1 H2]|[H1 H2]]]; intuition.
  - intros Hallowed o rest -> Hnone Hin.
    unfold evaluate, io_bind, io_lift.
    rewrite (check_metrics_accepts _ Hallowed).
    cbn [collect_outputs]. unfold collect_batch, batch_field.
    rewrite Hnone. apply str_in_In in Hin. rewrite Hin. reflexivity.
Qed.

End MissingField.

Lemma evaluate_missing_field_writes_nothing_witness :
  (exists e,
      evaluate ex_norm ex_sort_and_unique_bboxes ex_write_keypoint_results
        (ex_dataset scenario_db) [scenario_batch] "out"
        (MetricList ["Handedness_acc"; "MPJPE"]) ex_world
      = (Raise e, ex_world)) /\
  evaluate ex_norm ex_sort_and_unique_bboxes ex_write_keypoint_results
    (ex_dataset scenario_db) [scenario_batch] "out" (Metric "MPJPE") ex_world
  = (Raise (not_supported "MPJPE"), ex_world).
Proof.
  split.
  - apply (proj1 (evaluate_missing_field_writes_nothing
                    ex_norm ex_sort_and_unique_bboxes ex_write_keypoint_results
                    (ex_dataset scenario_db) [scenario_batch] "out"
                    (MetricList ["Handedness_acc"; "MPJPE"]) ex_world)).
    exists scenario_batch. split; [left; reflexivity|].
    left. split; [reflexivity | right; left; reflexivity].
  - apply (proj2 (evaluate_missing_field_writes_nothing
                    ex_norm ex_sort_and_unique_bboxes ex_write_keypoint_results
                    (ex_dataset scenario_db) [scenario_batch] "out"
                    (Metric "MPJPE") ex_world)
             (Forall_cons _ (or_intror (or_introl eq_refl)) (Forall_nil _))
             scenario_batch [] eq_refl eq_refl (or_introl eq_refl)).
Defined.

(** ** Image paths *)

Lemma substring_whole (s : string) : substring 0 (String.length s) s = s.
Proof. induction s as [|c s IH]; [reflexivity|]. simpl. rewrite IH. reflexivity. Qed.

Lemma str_drop_append (a b : string) :
  str_drop (String.length a) (String.append a b) = b.
Proof.
  unfold str_drop. induction a as [|c a IH]; cbn [String.append String.length].
  - rewrite Nat.sub_0_r. apply substring_whole.
  - cbn [substring Nat.sub]. exact IH.
Qed.

(** X12: the image file that [_get_db] records is the prefix joined with
    the image name, and [evaluate] finds the name back by dropping as many
    characters as the prefix has.  For a name that does not start with a
    slash this gives the name when the prefix is empty or ends with a
    slash; for any other prefix it gives the name with a slash before
    it. *)
Theorem image_path_prefix_round_trip (prefix name : string) :
  String.prefix "/" name = false ->
  (prefix = "" \/
   substring (String.length prefix - 1) 1 prefix = "/" ->
   str_drop (String.length prefix) (os_path_join prefix name) = name) /\
  (prefix <> "" ->
   substring (String.length prefix - 1) 1 prefix <> "/" ->
   str_drop (String.length prefix) (os_path_join prefix name)
   = String.append "/" name).
Proof.
  intro Hname. unfold os_path_join. rewrite Hname. split.
  - intro H.
    assert (Hb : orb (String.eqb prefix "")
                   (String.eqb (substring (String.length prefix - 1) 1 prefix)
                      "/") = true).
    { apply orb_true_iff. destruct H as [H|H]; [left | right];
        apply String.eqb_eq; exact H. }
    rewrite Hb. apply str_drop_append.
  - intros Hne Hslash.
    assert (Hb : orb (String.eqb prefix "")
                   (String.eqb (substring (String.length prefix - 1) 1 prefix)
                      "/") = false).
    { apply orb_false_iff. split; apply String.eqb_neq; assumption. }
    rewrite Hb. apply str_drop_append.
Qed.

Lemma image_path_prefix_round_trip_witness :
  str_drop (String.length "data/") (os_path_join "data/" "image5.jpg")
  = "image5.jpg" /\
  str_drop (String.length "data") (os_path_join "data" "image5.jpg")
  = "/image5.jpg".
Proof.
  split.
  - apply (proj1 (image_path_prefix_round_trip "data/" "image5.jpg" eq_refl)).
    right. reflexivity.
  - apply (proj2 (image_path_prefix_round_trip "data" "image5.jpg" eq_refl));
      discriminate.
Defined.

(** ** The joints of MPJPE *)









Lemma nth_repeat_false (n j : nat) : nth j (repeat false n) false = false.
Proof.
  revert j. induction n as [|n IH]; intros [|j]; cbn [repeat nth];
    try reflexivity. apply IH.
Qed.

Lemma visible_mask_nth (vis : list vec3) (j : nat) :
  (j < List.length vis)%nat ->
  (nth j (map (fun r => negb (Qle_bool (vx r) 0)) vis) false = true
   <-> 0 < vx (nth j vis vzero)).
Proof.
  intro Hj. rewrite (nth_map_in_range _ vis vzero false j Hj).
  rewrite negb_true_iff. split.
  - intro H. apply Qnot_le_lt. intro Hle. apply Qle_bool_iff in Hle. congruence.
  - intro H. destruct (Qle_bool (vx (nth j vis vzero)) 0) eqn:E; [|reflexivity].
    apply Qle_bool_iff in E. exfalso. apply (Qlt_not_le _ _ H). exact E.
Qed.

(** X14: the three masks that a sample gives to MPJPE split its visible
    joints by the kind of the sample.  The mask of MPJPE_all marks a joint
    exactly when its visibility flag is positive; a joint of that mask is
    in the interacting mask when the hand type marks interacting and in
    the single mask when it does not, and the other of the two masks is
    all false. *)
Theorem mpjpe_masks_partition (self : dataset_obj) (pred : kpt)
    (item : sample) (p g : list vec3) (single interacting all : list bool) :
  mpjpe_entry self pred item = Ok (p, g, (single, interacting, all)) ->
  (forall j, (j < List.length (joints_3d_visible item))%nat ->
        (nth j all false = true
         <-> 0 < vx (nth j (joints_3d_visible item) vzero))) /\
  (forall j, nth j all false
             = orb (nth j single false) (nth j interacting false) /\
             andb (nth j single false) (nth j interacting false) = false) /\
  (marks_interacting item ->
   interacting = all /\ single = repeat false (num_joints self)) /\
  (~ marks_interacting item ->
   single = all /\ interacting = repeat false (num_joints self)).
Proof.
  intro H. unfold mpjpe_entry in H.
  repeat match goal with
         | Hb : bind _ _ = Ok _ |- _ => bind_inv Hb
         end.
  pose proof (np_all_spec (hand_type item)) as Hall.
  unfold marks_interacting.
  destruct (np_all (hand_type item)); injection H as <- <- <- <- <-.
  - split; [intros j Hj; apply visible_mask_nth; exact Hj|]. split.
    + intro j. rewrite nth_repeat_false. split; reflexivity.
    + split; [intros _; split; reflexivity|].
      intro Hn. exfalso. apply Hn. apply Hall. reflexivity.
  - split; [intros j Hj; apply visible_mask_nth; exact Hj|]. split.
    + intro j. rewrite nth_repeat_false, orb_false_r, andb_false_r.
      split; reflexivity.
    + split; [|intros _; split; reflexivity].
      intro Hi. apply Hall in Hi. discriminate.
Qed.

Lemma mpjpe_masks_partition_witness :
  exists p g single interacting all,
    mpjpe_entry (ex_dataset scenario_db) full_pred (ex_sample [1; 0]%Z 1 0)
    = Ok (p, g, (single, interacting, all)) /\
    single = all /\ interacting = repeat false 42 /\
    (nth 3 all false = true
     <-> 0 < vx (nth 3 (joints_3d_visible (ex_sample [1; 0]%Z 1 0)) vzero)).
Proof.
  destruct (mpjpe_entry (ex_dataset scenario_db) full_pred
              (ex_sample [1; 0]%Z 1 0))
    as [[[p g] [[single interacting] all]]|e] eqn:E;
    [|vm_compute in E; discriminate E].
  exists p, g, single, interacting, all. split; [reflexivity|].
  destruct (mpjpe_masks_partition (ex_dataset scenario_db) full_pred
              (ex_sample [1; 0]%Z 1 0) p g single interacting all E)
    as (Hvis & _ & _ & Hsingle).
  destruct Hsingle as [Hs Hi].
  - intro Hm. inversion Hm as [|? ? _ Hrest]. inversion Hrest as [|? ? Hzero _].
    apply Hzero. reflexivity.
  - split; [exact Hs|]. split; [exact Hi|]. apply Hvis. simpl. lia.
Defined.

(** ** The reported metrics *)

Section Reported.

Variable norm : vec3 -> Q.

(** X16: with no sample at all, an empty results file and an empty
    database, the handedness accuracy is not NaN: the arrays of
    predictions and labels are one-dimensional, and [_get_accuracy]
    raises an AxisError. *)
Theorem report_metric_handedness_no_sample (self : dataset_obj)
    (res_file : string) (w : world) :
  lookup (files w) res_file = Ok (Keypoints []) ->
  db self = [] ->
  _report_metric norm self res_file ["Handedness_acc"] w
  = (Raise AxisError, World (files w) (log w ++ [EvRead res_file])).
Proof.
  intros Hfile Hdb. unfold _report_metric, io_bind, io_lift, json_load.
  rewrite Hfile, Hdb. reflexivity.
Qed.

End Reported.

Lemma report_metric_handedness_no_sample_witness :
  _report_metric ex_norm (ex_dataset []) results_file ["Handedness_acc"]
    (results_world [])
  = (Raise AxisError, World (files (results_world [])) [EvRead results_file]).
Proof.
  apply (report_metric_handedness_no_sample ex_norm (ex_dataset [])
           results_file (results_world [])); reflexivity.
Defined.

(** ** Building the database *)

Section Building.

Variable _xywh2cs : Q -> Q -> Q -> Q -> Q -> vec2 * vec2.

Lemma get_db_loop_ok (self : dataset_obj)
    (cameras : list (string * camera_table))
    (joints : list (string * list (string * list vec3)))
    (table : option (list (Z * rootnet_entry)))
    (ids : list Z) (bbox_id : Z) (acc gt_db : list sample) :
  get_db_loop _xywh2cs self cameras joints table ids bbox_id acc = Ok gt_db ->
  ids = [] /\ gt_db = acc.
Proof.
  destruct ids as [|img_id ids]; cbn [get_db_loop]; intro H.
  - injection H as <-. split; reflexivity.
  - bind_inv H. exfalso.
    exact (get_db_item_never_completes _ _ _ _ _ _ _ _ Hv).
Qed.

Lemma get_db_ok (self : dataset_obj) (w w' : world) (gt_db : list sample) :
  _get_db _xywh2cs self w = (Ok gt_db, w') ->
  img_ids self = [] /\ gt_db = [].
Proof.
  unfold _get_db, io_bind, io_lift, io_ret. intro H.
  repeat match type of H with
         | (let (_, _) := ?m in _) = _ => destruct m as [[?|?] ?]
         | match ?m with _ => _ end = _ =>
             let E := fresh "E" in destruct m eqn:E
         end; try discriminate H.
  all: injection H as <- _;
    match goal with
    | E : get_db_loop _ _ _ _ _ _ _ _ = Ok _ |- _ =>
        apply get_db_loop_ok in E as [-> ->]
    end; split; reflexivity.
Qed.

(** X17: the constructor returns a dataset only for an annotation file
    without images, and its database is then empty: with any image the
    loop of [_get_db] raises. *)
Theorem dataset_is_built_only_without_images (base : hand_base)
    (camera_file joint_file : string) (use_gt_root_depth : bool)
    (rootnet_result_file : option string) (w w' : world)
    (self : dataset_obj) :
  __init__ _xywh2cs base camera_file joint_file use_gt_root_depth
    rootnet_result_file w = (Ok self, w') ->
  base_img_ids base = [] /\ db self = [].
Proof.
  unfold __init__, io_bind, io_lift, io_ret. intro H.
  destruct (Nat.eqb (base_num_joints base) 42); [|discriminate H].
  match type of H with
  | match ?m with _ => _ end = _ => destruct m as [attr|e]; [|discriminate H]
  end.
  match type of H with
  | (let (_, _) := ?m in _) = _ =>
      destruct m as [[gt_db|e] w1] eqn:E; [|discriminate H]
  end.
  apply get_db_ok in E as [Hids ->]. cbn [img_ids] in Hids.
  injection H as <- _. split; [exact Hids | reflexivity].
Qed.

End Building.

Lemma dataset_is_built_only_without_images_witness :
  exists self w',
    __init__ ex_xywh2cs ex_empty_base "cameras.json" "joints.json" true
      (Some "rootnet.json") ex_world = (Ok self, w') /\
    base_img_ids ex_empty_base = [] /\ db self = [].
Proof.
  eexists. eexists. split; [vm_compute; reflexivity|].
  eapply (dataset_is_built_only_without_images ex_xywh2cs ex_empty_base
            "cameras.json" "joints.json" true (Some "rootnet.json") ex_world).
  vm_compute. reflexivity.
Defined.

(** ** What the builder and the reporter do to the files *)

Section Files.

Variable _xywh2cs : Q -> Q -> Q -> Q -> Q -> vec2 * vec2.
Variable norm : vec3 -> Q.

(** X18: [_get_db] writes no file, and what it reads is a beginning of
    the camera file, the joint file and, with ground-truth root depth, the
    file of root-depth estimates, in this order. *)
Theorem get_db_reads_in_order (self : dataset_obj) (w w' : world)
    (r : result (list sample)) :
  _get_db _xywh2cs self w = (r, w') ->
  files w' = files w /\
  exists k, log w' = log w ++ map EvRead (firstn k (db_files self)).
Proof.
  unfold _get_db, io_bind, io_lift, io_ret, json_load, db_files. intro H.
  destruct (lookup (files w) (camera_file self)) as [c|e].
  2: { injection H as <- <-. split; [reflexivity|]. exists 0%nat.
       cbn [firstn map]. rewrite app_nil_r. reflexivity. }
  destruct (as_cameras c) as [cameras|e].
  2: { injection H as <- <-. split; [reflexivity|]. exists 1%nat. reflexivity. }
  cbn [files log] in H.
  destruct (lookup (files w) (joint_file self)) as [j|e].
  2: { injection H as <- <-. split; [reflexivity|]. exists 1%nat. reflexivity. }
  destruct (as_joints j) as [joints|e].
  2: { injection H as <- <-. split; [reflexivity|]. exists 2%nat.
       cbn [firstn map app files log]. rewrite <- app_assoc. reflexivity. }
  destruct (use_gt_root_depth self).
  - destruct (rootnet_result_file self) as [path|].
    2: { injection H as <- <-. split; [reflexivity|]. exists 2%nat.
         cbn [firstn map app files log]. rewrite <- app_assoc. reflexivity. }
    cbn [files log] in H.
    destruct (lookup (files w) path) as [t|e].
    2: { injection H as <- <-. split; [reflexivity|]. exists 2%nat.
         cbn [firstn map app files log]. rewrite <- app_assoc. reflexivity. }
    destruct (as_rootnet t) as [annot|e].
    2: { injection H as <- <-. split; [reflexivity|]. exists 3%nat.
         cbn [firstn map app files log]. rewrite <- !app_assoc. reflexivity. }
    destruct (get_db_loop _ _ _ _ _ _ _ _); injection H as <- <-;
      (split; [reflexivity|]); exists 3%nat;
      cbn [firstn map app files log]; rewrite <- !app_assoc; reflexivity.
  - destruct (get_db_loop _ _ _ _ _ _ _ _); injection H as <- <-;
      (split; [reflexivity|]); exists 2%nat;
      cbn [firstn map app files log]; rewrite <- app_assoc; reflexivity.
Qed.

(** X19: [_report_metric] writes no file and reads at most the results
    file, once; it reads nothing exactly when it raises because that file
    is not there. *)
Theorem report_metric_reads_results_file (self : dataset_obj)
    (res_file : string) (metrics : list string) (w w' : world)
    (r : result (list (string * npfloat))) :
  _report_metric norm self res_file metrics w = (r, w') ->
  files w' = files w /\
  ((r = Raise (FileNotFoundError res_file) /\ log w' = log w /\
    forall c, lookup (files w) res_file <> Ok c) \/
   (log w' = log w ++ [EvRead res_file] /\
    exists c, lookup (files w) res_file = Ok c)).
Proof.
  unfold _report_metric, io_bind, io_lift, json_load. intro H.
  destruct (lookup (files w) res_file) as [c|e] eqn:E.
  - assert (Hw : files w' = files w /\ log w' = log w ++ [EvRead res_file]).
    { destruct (as_keypoints c) as [preds|e];
        [|injection H as <- <-; split; reflexivity].
      destruct (Nat.eqb _ _); [|injection H as <- <-; split; reflexivity].
      destruct (report_loop _ _ _); injection H as <- <-; split; reflexivity. }
    destruct Hw as [Hf Hl]. split; [exact Hf|]. right.
    split; [exact Hl | eauto].
  - injection H as <- <-. split; [reflexivity|]. left.
    split; [reflexivity|]. split; [reflexivity | discriminate].
Qed.

End Files.

Lemma get_db_reads_in_order_witness :
  files ex_world = files ex_world /\
  exists k,
    [EvRead "cameras.json"; EvRead "joints.json"]
    = log ex_world
        ++ map EvRead
             (firstn k
                (db_files
                   {| coco := ex_coco;
                      img_ids := [1%Z];
                      id2name := [(1%Z, "image5.jpg")];
                      name2id := [("image5.jpg", 1%Z)];
                      img_prefix := "data/";
                      num_joints := 42;
                      dataset_name := "interhand3d";
                      camera_file := "cameras.json";
                      joint_file := "joints.json";
                      use_gt_root_depth := false;
                      rootnet_result_file := None;
                      db := [] |})).
Proof.
  apply (get_db_reads_in_order ex_xywh2cs _ ex_world
           (World (files ex_world) [EvRead "cameras.json"; EvRead "joints.json"])
           (Raise (UnboundLocalError "rootnet_result"))).
  vm_compute. reflexivity.
Defined.

Lemma report_metric_reads_results_file_witness :
  files (results_world scenario_preds) = files (results_world scenario_preds) /\
  ((@Raise (list (string * npfloat)) (FileNotFoundError "missing.json")
    = Raise (FileNotFoundError "missing.json") /\
    log (results_world scenario_preds) = log (results_world scenario_preds) /\
    forall c,
      lookup (files (results_world scenario_preds)) "missing.json" <> Ok c) \/
   (log (results_world scenario_preds)
    = log (results_world scenario_preds) ++ [EvRead "missing.json"] /\
    exists c,
      lookup (files (results_world scenario_preds)) "missing.json" = Ok c)).
Proof.
  apply (report_metric_reads_results_file ex_norm (ex_dataset scenario_db)
           "missing.json" ["Handedness_acc"] (results_world scenario_preds)
           (results_world scenario_preds)
           (Raise (FileNotFoundError "missing.json"))).
  vm_compute. reflexivity.
Defined.

(** ** MRRPE on the predicted keypoints *)

Lemma report_loop_ok_entries (self : dataset_obj) (metrics : list string)
    (pairs : list (kpt * sample)) (es : list entry) :
  report_loop self metrics pairs = Ok es ->
  Forall (fun p => exists e, report_entry self metrics (fst p) (snd p) = Ok e)
         pairs.
Proof.
  revert es. induction pairs as [|[pred item] pairs IH]; intros es H;
    cbn [report_loop] in H; [constructor|].
  bind_inv H. bind_inv H. constructor; [eauto | eapply IH; eassumption].
Qed.

Lemma report_entry_ok_mrrpe (self : dataset_obj) (metrics : list string)
    (pred : kpt) (item : sample) (e : entry) :
  In "MRRPE" metrics ->
  report_entry self metrics pred item = Ok e ->
  exists m, mrrpe_entry pred item = Ok m.
Proof.
  intros Hin H. unfold report_entry in H. apply str_in_In in Hin.
  rewrite Hin in H. unfold when at 1 in H.
  bind_inv H. bind_inv Hv. eauto.
Qed.

Section MrrpeKeypoints.

Variable norm : vec3 -> Q.

(** X20: MRRPE reports nothing once a sample is included.  When MRRPE is
    requested and some sample passes the condition of the MRRPE branch
    while its entry of the results file has the left wrist among its
    keypoints, with a depth, and a relative root depth, and the record
    has an absolute depth, [_report_metric] returns no values: the wrist
    keypoint read from the file is a plain list, which [_pixel2cam]
    refuses. *)
Theorem report_metric_mrrpe_included_fails (self : dataset_obj)
    (res_file : string) (metrics : list string) (w : world)
    (preds : list kpt) (pred : kpt) (item : sample)
    (keypoints : list (list Q)) (wrist : list Q) (z depth rel : Q) :
  In "MRRPE" metrics ->
  lookup (files w) res_file = Ok (Keypoints preds) ->
  In (pred, item) (combine preds (db self)) ->
  rel_root_valid item = Ok true ->
  kp_keypoints pred = Some keypoints ->
  getitem keypoints 41 = Ok wrist ->
  getitem wrist 2 = Ok z ->
  getitem (abs_depth item) 0 = Ok depth ->
  kp_rel_root_depth pred = Some rel ->
  mrrpe_entry pred item = Raise TypeError /\
  forall info w', _report_metric norm self res_file metrics w <> (Ok info, w').
Proof.
  intros Hin Hfile Hpair Hvalid Hkp Hwrist Hz Hdepth Hrel.
  assert (Hraise : mrrpe_entry pred item = Raise TypeError)
    by (eapply mrrpe_entry_included_raises; eassumption).
  split; [exact Hraise|].
  intros info w' H. unfold _report_metric, io_bind, io_lift, json_load in H.
  rewrite Hfile in H. cbn [as_keypoints] in H.
  destruct (Nat.eqb _ _); [|discriminate H].
  destruct (report_loop self metrics (combine preds (db self))) as [es|e] eqn:E;
    [|discriminate H].
  apply report_loop_ok_entries in E. rewrite Forall_forall in E.
  destruct (E _ Hpair) as (e & He).
  destruct (report_entry_ok_mrrpe _ _ _ _ _ Hin He) as (m & Hm).
  cbn [fst snd] in Hm. congruence.
Qed.

End MrrpeKeypoints.

Lemma report_metric_mrrpe_included_fails_witness :
  mrrpe_entry full_pred invalid_label_sample = Raise TypeError /\
  forall info w',
    _report_metric ex_norm (ex_dataset [invalid_label_sample]) results_file
      ["MRRPE"] (results_world [full_pred]) <> (Ok info, w').
Proof.
  apply (report_metric_mrrpe_included_fails ex_norm
           (ex_dataset [invalid_label_sample]) results_file ["MRRPE"]
           (results_world [full_pred]) [full_pred] full_pred
           invalid_label_sample (repeat [330; 260; 0] 42) [330; 260; 0] 0 500 5).
  - left. reflexivity.
  - reflexivity.
  - left. reflexivity.
  - reflexivity.
  - reflexivity.
  - reflexivity.
  - reflexivity.
  - reflexivity.
  - reflexivity.
Defined.

(** X21: [evaluate] asks a batch for [rel_root_depth] when MRRPE is
    requested, not for [preds].  A batch without [preds] is collected when
    MPJPE is not requested, its entries have no keypoints, and for every
    record that passes the condition of the MRRPE branch such an entry
    raises the KeyError of the key [keypoints]. *)
Theorem mrrpe_needs_keypoints_unchecked (self : dataset_obj)
    (metrics : list string) (o : output) (ks : list kpt) :
  out_preds o = None ->
  collect_batch self metrics o = Ok ks ->
  ~ In "MPJPE" metrics /\
  Forall (fun k =>
            kp_keypoints k = None /\
            forall item,
              rel_root_valid item = Ok true ->
              mrrpe_entry k item = Raise (KeyError "keypoints"))
         ks.
Proof.
  intros Hnone H.
  split; [apply (collect_batch_needs_fields _ _ _ _ H); exact Hnone|].
  unfold collect_batch in H.
  bind_inv H. bind_inv H. bind_inv H.
  apply batch_field_ok in Hv as [-> _]. apply mapM_ok_inv in H.
  induction H as [|i k l ks Hi _ IH]; constructor; [|exact IH].
  apply make_kpt_fields in Hi. destruct Hi as (_ & _ & Hkp & _).
  apply Hkp in Hnone. split; [exact Hnone|].
  intros item Hvalid. unfold mrrpe_entry. rewrite Hvalid. cbn [bind].
  rewrite Hnone. reflexivity.
Qed.

Lemma mrrpe_needs_keypoints_unchecked_witness :
  exists ks,
    collect_batch (ex_dataset scenario_db) ["MRRPE"] depth_only_batch = Ok ks /\
    ~ In "MPJPE" ["MRRPE"] /\
    Forall (fun k =>
              kp_keypoints k = None /\
              forall item,
                rel_root_valid item = Ok true ->
                mrrpe_entry k item = Raise (KeyError "keypoints"))
           ks.
Proof.
  eexists. split; [vm_compute; reflexivity|].
  apply (mrrpe_needs_keypoints_unchecked (ex_dataset scenario_db) ["MRRPE"]
           depth_only_batch).
  - reflexivity.
  - vm_compute. reflexivity.
Defined.

(** ** The checks of the constructor *)

Section Constructor.

Variable _xywh2cs : Q -> Q -> Q -> Q -> Q -> vec2 * vec2.

Lemma get_db_first_read (self : dataset_obj) (w w' : world)
    (r : result (list sample)) :
  _get_db _xywh2cs self w = (r, w') ->
  r = Raise (FileNotFoundError (camera_file self)) \/
  exists rest, log w' = log w ++ EvRead (camera_file self) :: rest.
Proof.
  intro H. unfold _get_db, io_bind, io_lift, io_ret, json_load in H.
  destruct (lookup (files w) (camera_file self)) as [c|e];
    [|injection H as <- _; left; reflexivity].
  right.
  destruct (as_cameras c); [|injection H as _ <-; eexists; reflexivity].
  cbn [files log] in H.
  destruct (lookup (files w) (joint_file self));
    [|injection H as _ <-; eexists; reflexivity].
  destruct (as_joints _);
    [|injection H as _ <-; cbn [log]; rewrite <- app_assoc; eexists;
      reflexivity].
  destruct (use_gt_root_depth self).
  - destruct (rootnet_result_file self);
      [|injection H as _ <-; cbn [log]; rewrite <- app_assoc; eexists;
        reflexivity].
    cbn [files log] in H.
    destruct (lookup (files w) _);
      [|injection H as _ <-; cbn [log]; rewrite <- app_assoc; eexists;
        reflexivity].
    destruct (as_rootnet _);
      [|injection H as _ <-; cbn [log]; rewrite <- !app_assoc; eexists;
        reflexivity].
    destruct (get_db_loop _ _ _ _ _ _ _ _); injection H as _ <-;
      cbn [log]; rewrite <- !app_assoc; eexists; reflexivity.
  - destruct (get_db_loop _ _ _ _ _ _ _ _); injection H as _ <-;
      cbn [log]; rewrite <- app_assoc; eexists; reflexivity.
Qed.

(** X22: once the base class has built the object, the constructor
    checks its arguments before it opens the camera file: it raises an
    AssertionError with no file read after the base class returned, exactly
    when the number of joints is not 42 or ground-truth root depth is
    selected without a file of root-depth estimates. *)
Theorem init_checks_before_files (base : hand_base)
    (cameras_path joints_path : string) (use_gt : bool)
    (rootnet_path : option string) (w : world) :
  (base_num_joints base <> 42%nat \/
   (use_gt = true /\ rootnet_path = None)) <->
  (exists w',
      __init__ _xywh2cs base cameras_path joints_path use_gt rootnet_path w
      = (Raise AssertionError, w') /\
      log w' = log w).
Proof.
  unfold __init__, io_bind, io_lift, io_ret. split.
  - intros [Hn|[-> ->]].
    + apply Nat.eqb_neq in Hn. rewrite Hn. exists w. split; reflexivity.
    + destruct (Nat.eqb _ 42); exists w; split; reflexivity.
  - intros (w' & H & Hlog).
    destruct (Nat.eqb_spec (base_num_joints base) 42) as [Hn|Hn];
      [|left; exact Hn].
    right. destruct use_gt; [destruct rootnet_path as [p|]|];
      try (split; reflexivity); exfalso.
    all: match type of H with
         | (let (_, _) := ?m in _) = _ =>
             destruct m as [[gt_db|e] w1] eqn:E; [discriminate H|]
         end;
      injection H as -> ->;
      apply get_db_first_read in E; cbn [camera_file] in E;
      destruct E as [E|(rest & E)]; [discriminate E|];
      rewrite Hlog in E; apply (f_equal (@List.length event)) in E;
      rewrite length_app in E; cbn [List.length] in E; lia.
Qed.

End Constructor.

Lemma init_checks_before_files_witness :
  exists w',
    __init__ ex_xywh2cs ex_base "cameras.json" "joints.json" true None ex_world
    = (Raise AssertionError, w') /\
    log w' = log ex_world.
Proof.
  apply (proj1 (init_checks_before_files ex_xywh2cs ex_base "cameras.json"
                  "joints.json" true None ex_world)).
  right. split; reflexivity.
Defined.
